(** * Green-paths server: noise cost model and GraphML attribute codec

    A shallow embedding of [gp_server/app/noise_exposures.py] and
    [common/igraph.py].  Python floats are IEEE binary64 numbers and are
    embedded as Rocq's primitive [float]; Python integers are [Z]; a
    [dict] whose iteration order matters (the noise exposures, summed in
    insertion order) is an association list, a [dict] that is only looked
    up (the dB cost table, the attribute columns of a graph) is a [gmap].
    A raised exception is the [Err] branch of [result]. *)

From Stdlib Require Import ZArith String Ascii List Bool.
From Stdlib Require Import PrimFloat FloatOps SpecFloat.
From Stdlib Require Decimal DecimalString DecimalZ.
From stdpp Require Import base option list gmap strings.

#[global] Set Warnings "-inexact-float,-register-all".
#[local] Open Scope Z_scope.

(** ** The Python runtime: exceptions, floats, [round], [sum] *)

Module Py.

(** The built-in exception classes the two modules can raise. *)
Inductive exn : Set :=
| ValueError
| KeyError
| IndexError
| TypeError
| OverflowError
| SyntaxError
| OSError.

Inductive result (A : Type) : Type :=
| Ok (a : A)
| Err (e : exn).
#[global] Arguments Ok {A} a.
#[global] Arguments Err {A} e.

Definition bind {A B : Type} (r : result A) (k : A -> result B) : result B :=
  match r with
  | Ok a => k a
  | Err e => Err e
  end.

Definition raises {A : Type} (r : result A) : Prop := exists e, r = Err e.

(** [[f(x) for x in l]]: elements are evaluated left to right and the
    first exception aborts the comprehension. *)
Fixpoint comprehension {A B : Type} (f : A -> result B) (l : list A)
  : result (list B) :=
  match l with
  | [] => Ok []
  | x :: l' =>
      bind (f x) (fun y => bind (comprehension f l') (fun ys => Ok (y :: ys)))
  end.

(** [d[k]] on a dict: [KeyError] when the key is absent. *)
Definition getitem {K V : Type} `{Countable K} (d : gmap K V) (k : K)
  : result V :=
  match d !! k with
  | Some v => Ok v
  | None => Err KeyError
  end.

(** The nearest binary64 number to the rational [n / d] (for [0 <= n],
    [0 < d]), ties to even.  The quotient is taken with at least 55
    significant bits and a sticky bit for the remainder, then rounded
    once by [binary_normalize]. *)
Definition nearest_float (n d : Z) : float :=
  let k := Z.max 0 (55 + Z.log2_up d - Z.log2 n) in
  let q := (n * 2 ^ k) / d in
  let r := (n * 2 ^ k) mod d in
  let sticky := if r =? 0 then 0 else 1 in
  SF2Prim (binary_normalize prec emax (2 * q + sticky) (- k - 1) false).

(** [float(z)] for a Python integer [z]. *)
Definition float_of_int (z : Z) : float :=
  if z <? 0 then (- nearest_float (- z) 1)%float else nearest_float z 1.

(** [a / b] on two Python integers with [b > 0] (true division: the
    exact quotient rounded once). *)
Definition int_truediv (a b : Z) : float :=
  if a <? 0 then (- nearest_float (- a) b)%float else nearest_float a b.

(** [round(x, ndigits)] on a float, [ndigits >= 0]: the exact binary
    value of [x] is rounded half-to-even to [ndigits] decimals and the
    decimal result is converted back to the nearest float.  Infinities,
    NaN and zeros are returned unchanged. *)
Definition round (x : float) (ndigits : Z) : float :=
  match Prim2SF x with
  | S754_finite s m e =>
      if 0 <=? e then x
      else
        let n := Zpos m * 10 ^ ndigits in
        let d := 2 ^ (- e) in
        let q := n / d in
        let r := n mod d in
        let k := match (2 * r ?= d) with
                 | Lt => q
                 | Eq => if Z.even q then q else q + 1
                 | Gt => q + 1
                 end in
        let y := nearest_float k (10 ^ ndigits) in
        if s then (- y)%float else y
  | _ => x
  end.

(** [sum(l)] on floats: the accumulator starts at the integer 0 and
    the elements are added left to right, each addition rounded (the
    summation of CPython up to 3.11, the interpreters the project runs
    on). *)
Definition sum (l : list float) : float :=
  fold_left PrimFloat.add l 0%float.

(** Truth value of a float: only the two zeros are false. *)
Definition truthy (x : float) : bool := negb (is_zero x).

End Py.

Export Py.

Notation "'let*' x ':=' r 'in' k" := (Py.bind r (fun x => k))
  (at level 10, x name, r at level 100, k at level 200).

(** ** The C library's [pow]

    [pow(10, y)] is computed by the platform's libm, which is not part
    of the repository.  The cost table only calls it at the 35 exponents
    [0.3 * db / 10], [45 <= db <= 79]; [pow10_reference] lists, for each
    of them (by [db]), the binary64 number nearest to the real number
    [10 ^ y].
    A libm is [accurate_pow10] when its result is within [pow_ulps]
    units in the last place of that number. *)

Module Libm.

Definition v3_exponent (db : Z) : float :=
  (0.3 * float_of_int db / 10)%float.

Definition pow10_values : list float :=
  [ 0x1.66320490e2628p+4; 0x1.7fd03244d91bbp+4; 0x1.9b4369487af96p+4;
    0x1.b8ad352b16b4ap+4; 0x1.d83187a91db14p+4; 0x1.f9f6e4990f227p+4;
    0x1.0f13487e4edfap+5; 0x1.227662b7ca4e5p+5; 0x1.373c72190e690p+5;
    0x1.4d7ed9883704cp+5; 0x1.6558ccb7568d0p+5; 0x1.7ee7716265c12p+5;
    0x1.9a4a02edd35dfp+5; 0x1.b7a1f8913b019p+5; 0x1.d7132e3ce77aep+5;
    0x1.f8c4106c1abfcp+5; 0x1.0e6ee58cd45fcp+6; 0x1.21c63e0823609p+6;
    0x1.367fb46a05cfbp+6; 0x1.4cb49c338170cp+6; 0x1.64801897b580ap+6;
    0x1.7dff3da5a1d04p+6; 0x1.995133d11cba1p+6; 0x1.b6975e0664d24p+6;
    0x1.d5f58276d641ap+6; 0x1.f791f6509fb68p+6; 0x1.0dcae64b71cecp+7;
    0x1.21168429c24c6p+7; 0x1.35c3692ffa149p+7; 0x1.4bead9835ed1dp+7;
    0x1.63a7e7e21d783p+7; 0x1.7d1796b8f4f76p+7; 0x1.9858fb969f936p+7;
    0x1.b58d65284d6f6p+7; 0x1.d4d883ed9bfa7p+7 ]%float.

Definition pow10_reference (db : Z) : option float :=
  if 45 <=? db then pow10_values !! Z.to_nat (db - 45) else None.

(** The floats at most [n] units in the last place away from [r]. *)
Fixpoint ulp_ball (n : nat) (r : float) : list float :=
  match n with
  | O => [r]
  | S n' =>
      Nat.iter n next_up r :: Nat.iter n next_down r :: ulp_ball n' r
  end.

Definition pow_ulps : nat := 4.

Definition accurate_pow10 (pow : float -> float -> float) : Prop :=
  forall db r, pow10_reference db = Some r ->
    In (pow 10%float (v3_exponent db)) (ulp_ball pow_ulps r).

(** A [pow] that returns the nearest float at each of the 35 exponents
    (and NaN elsewhere): the behaviour of a correctly rounding libm on
    the arguments the cost table uses. *)
Definition reference_pow (x y : float) : float :=
  match find (fun db => PrimFloat.eqb (v3_exponent db) y) (seqZ 45 35) with
  | Some db => default nan (pow10_reference db)
  | None => nan
  end.

End Libm.

(** ** [gp_server/app/noise_exposures.py] *)

Module noise_exposures.

(** A noise exposure dict [{dB: contaminated length}], in insertion
    order; [None] (no noise data) is the [None] of [option]. *)
Definition Noises : Type := list (Z * float).

Definition keys (d : Noises) : list Z := map fst d.
Definition values (d : Noises) : list float := map snd d.
Definition items (d : Noises) : list (Z * float) := d.

(** [k in d]. *)
Definition contains (k : Z) (d : Noises) : bool :=
  existsb (Z.eqb k) (keys d).

(** [d[k] = v]: an existing key keeps its position, a new key goes last. *)
Fixpoint setitem (k : Z) (v : float) (d : Noises) : Noises :=
  match d with
  | [] => [(k, v)]
  | (k', v') :: d' =>
      if k =? k' then (k, v) :: d' else (k', v') :: setitem k v d'
  end.

(** [{k: v, **d}]. *)
Definition dict_display (k : Z) (v : float) (d : Noises) : Noises :=
  fold_left (fun acc kv => setitem (fst kv) (snd kv) acc) (items d) [(k, v)].

(** Truth value of [noises]: [None] and the empty dict are false. *)
Definition nonempty (noises : option Noises) : bool :=
  match noises with
  | None | Some [] => false
  | Some (_ :: _) => true
  end.

(** [{db: f(db) for db in dbs}]. *)
Definition dict_comprehension (f : Z -> float) (dbs : list Z) : gmap Z float :=
  foldl (fun d db => <[db := f db]> d) ∅ dbs.

(** [range(lo, hi)]. *)
Definition range (lo hi : Z) : list Z := seqZ lo (hi - lo).

Section DbCosts.

(** [pow(x, y)] on floats, computed by the C library; the exponents the
    table uses are far from the range where Python raises
    [OverflowError]. *)
Variable pow : float -> float -> float.

Definition calc_db_cost_v2 (db : Z) : float :=
  if db <=? 44 then 0%float
  else
    let db_cost := int_truediv (db - 40) (75 - 40) in
    round db_cost 3.

Definition calc_db_cost_v3 (db : Z) : float :=
  if db <=? 44 then 0%float
  else
    let db_cost := pow 10%float (0.3 * float_of_int db / 10)%float in
    round (db_cost / 100)%float 3.

Definition get_db_costs (version : Z) : result (gmap Z float) :=
  let dbs := range 40 80 in
  if version =? 2 then Ok (dict_comprehension calc_db_cost_v2 dbs)
  else if version =? 3 then Ok (dict_comprehension calc_db_cost_v3 dbs)
  else Err ValueError.

End DbCosts.

(** [[db_costs[db] * length for db, length in noises.items()]]. *)
Definition db_distance_costs (noises : Noises) (db_costs : gmap Z float)
  : result (list float) :=
  comprehension
    (fun '(db, length) =>
       let* c := getitem db_costs db in Ok (c * length)%float)
    (items noises).

Definition get_noise_cost_coeff (noises : option Noises)
    (db_costs : gmap Z float) : result float :=
  match noises with
  | None | Some [] => Ok 0%float  (* [if not noises] *)
  | Some d =>
      let* costs := db_distance_costs d db_costs in
      let db_distance_cost := sum costs in
      let total_length := sum (values d) in
      Ok (if truthy total_length
          then round (db_distance_cost / total_length)%float 3
          else 0%float)
  end.

Definition get_total_noises_len (noises : option Noises) : float :=
  match noises with
  | None | Some [] => 0%float
  | Some d => round (sum (values d)) 3
  end.

Definition get_noise_exposure_index (noises : option Noises)
    (db_costs : gmap Z float) : result float :=
  match noises with
  | None | Some [] => Ok 0%float
  | Some d =>
      let* costs := db_distance_costs d db_costs in
      Ok (round (sum costs) 2)
  end.

Definition get_noise_adjusted_edge_cost (sensitivity : float)
    (db_costs : gmap Z float) (noises : option Noises) (length : float)
    (bike_time_cost : option float) : result float :=
  let mismatch :=
    match noises with
    | Some d => (0.5 <? abs (length - sum (values d)))%float
    | None => false
    end in
  if mismatch then Err ValueError
  else
    let base_cost :=
      match bike_time_cost with
      | Some c => if truthy c then c else length
      | None => length
      end in
    match noises with
    | None => Ok (round (base_cost + base_cost * 100 * sensitivity)%float 2)
    | Some _ =>
        let* noise_cost_coeff := get_noise_cost_coeff noises db_costs in
        Ok (round (base_cost + base_cost * noise_cost_coeff * sensitivity)%float 2)
    end.

Definition add_db_40_exp_to_noises (noises : option Noises) (length : float)
  : option Noises :=
  match noises with
  | None => None
  | Some d =>
      if negb (truthy length) || contains 40 d then Some d
      else
        let total_db_length :=
          if nonempty noises then get_total_noises_len noises else 0%float in
        let db_40_len := round (length - total_db_length)%float 2 in
        if truthy db_40_len then Some (dict_display 40 db_40_len d)
        else Some d
  end.

End noise_exposures.

(** ** Python values and the built-in conversions [str], [int], [float] *)

Module PyValues.

Import Decimal DecimalString.

(** The values an attribute can hold.  A string is a sequence of code
    points below 256; a shapely geometry is identified by its WKT text. *)
Inductive pyval : Type :=
| VNone
| VBool (b : bool)
| VInt (z : Z)
| VFloat (f : float)
| VStr (s : string)
| VTuple (l : list pyval)
| VDict (l : list (pyval * pyval))
| VGeom (wkt : string).

Definition chars (s : string) : list ascii := list_ascii_of_string s.
Definition text (l : list ascii) : string := string_of_list_ascii l.

(** *** Integers *)

(** [str(z)]: decimal digits, [-] for negative numbers. *)
Definition str_of_int (z : Z) : string := NilZero.string_of_int (Z.to_int z).

(** The characters of a printed unsigned decimal. *)
Definition uint_chars (u : uint) : list ascii :=
  chars (NilEmpty.string_of_uint u).

(** The whitespace skipped around a number: the space and the
    characters 9 to 13 (tab, line feed, vertical tab, form feed, carriage
    return). *)
Definition is_space (c : ascii) : bool :=
  let n := Z.of_nat (nat_of_ascii c) in
  (n =? 32) || ((9 <=? n) && (n <=? 13)).

(** Before a number is parsed, a text with a character from 127 up has
    its Unicode whitespace (the code points 133 and 160, among those
    below 256) replaced by spaces and its other such characters by [?];
    a text below 127 is parsed as it is. *)
Definition is_low (c : ascii) : bool := (nat_of_ascii c <? 127)%nat.

Definition to_ascii (l : list ascii) : list ascii :=
  if forallb is_low l then l
  else map (fun c =>
              let n := nat_of_ascii c in
              if is_low c then c
              else if (n =? 133)%nat || (n =? 160)%nat then " "%char
              else "?"%char) l.

Fixpoint lstrip (l : list ascii) : list ascii :=
  match l with
  | c :: l' => if is_space c then lstrip l' else l
  | [] => []
  end.

Fixpoint rstrip (l : list ascii) : list ascii :=
  match l with
  | [] => []
  | c :: l' =>
      match rstrip l' with
      | [] => if is_space c then [] else [c]
      | r => c :: r
      end
  end.

Definition strip (l : list ascii) : list ascii := rstrip (lstrip l).

Definition digit_of_char (c : ascii) : option (uint -> uint) :=
  match c with
  | "0" => Some D0 | "1" => Some D1 | "2" => Some D2 | "3" => Some D3
  | "4" => Some D4 | "5" => Some D5 | "6" => Some D6 | "7" => Some D7
  | "8" => Some D8 | "9" => Some D9 | _ => None
  end%char.

Definition is_digit (c : ascii) : bool :=
  match digit_of_char c with Some _ => true | None => false end.

(** Decimal digits with single underscores between digits
    ([prev] tells whether the previous character was a digit). *)
Fixpoint digits_to_uint (l : list ascii) (prev : bool) : option uint :=
  match l with
  | [] => if prev then Some Nil else None
  | c :: l' =>
      if Ascii.eqb c "_" then
        if prev then
          match l' with
          | [] => None
          | _ :: _ => digits_to_uint l' false
          end
        else None
      else
        match digit_of_char c with
        | Some D => option_map D (digits_to_uint l' true)
        | None => None
        end
  end.

(** [int(s)] on a string, base 10. *)
Definition int_of_str (s : string) : result Z :=
  let l := strip (to_ascii (chars s)) in
  let '(neg, body) :=
    match l with
    | "-"%char :: b => (true, b)
    | "+"%char :: b => (false, b)
    | _ => (false, l)
    end in
  match digits_to_uint body false with
  | Some u => Ok (Z.of_int (if neg then Neg u else Pos u))
  | None => Err ValueError
  end.

(** *** Floats *)

(** [10 ^ k <= n / d], for [0 < d]. *)
Definition pow10_le (k n d : Z) : bool :=
  if 0 <=? k then 10 ^ k * d <=? n else d <=? n * 10 ^ (- k).

(** [floor(log10(n / d))] for a positive rational: an estimate from the
    binary logarithms, corrected by at most three steps each way. *)
Definition floor_log10 (n d : Z) : Z :=
  let k0 := (Z.log2 n - Z.log2 d) * 1233 / 4096 in
  let down := Nat.iter 3 (fun k => if pow10_le k n d then k else k - 1) k0 in
  Nat.iter 3 (fun k => if pow10_le (k + 1) n d then k + 1 else k) down.

(** The float nearest to [c * 10 ^ s]. *)
Definition decimal_to_float (c s : Z) : float :=
  if 0 <=? s then nearest_float (c * 10 ^ s) 1 else nearest_float c (10 ^ (- s)).

(** The shortest decimal [c * 10 ^ s] with [digits] significant digits
    that reads back as [x] (whose exact value is [n / d]), if there is
    one: of the two decimals around [n / d] the one that reads back as
    [x], the nearer one if both do, the even one on a tie. *)
Definition shortest_with (x : float) (n d k : Z) (digits : Z)
  : option (Z * Z) :=
  let s := k - digits + 1 in
  let lo := if 0 <=? s then n / (d * 10 ^ s) else (n * 10 ^ (- s)) / d in
  let hi := lo + 1 in
  let lo_ok := (decimal_to_float lo s =? x)%float in
  let hi_ok := (decimal_to_float hi s =? x)%float in
  (* compare 2 * (n / d) with (lo + hi) * 10 ^ s *)
  let side :=
    if 0 <=? s then (2 * n ?= (lo + hi) * 10 ^ s * d)
    else (2 * n * 10 ^ (- s) ?= (lo + hi) * d) in
  match lo_ok, hi_ok with
  | true, true =>
      match side with
      | Lt => Some (lo, s)
      | Gt => Some (hi, s)
      | Eq => Some (if Z.even lo then lo else hi, s)
      end
  | true, false => Some (lo, s)
  | false, true => Some (hi, s)
  | false, false => None
  end.

Fixpoint shortest_search (x : float) (n d k : Z) (digits : Z) (fuel : nat)
  : Z * Z :=
  match fuel with
  | O =>
      (* 17 digits always read back; kept for totality *)
      let s := k - 16 in
      (if 0 <=? s then n / (d * 10 ^ s) else (n * 10 ^ (- s)) / d, s)
  | S fuel' =>
      match shortest_with x n d k digits with
      | Some r => r
      | None => shortest_search x n d k (digits + 1) fuel'
      end
  end.

(** Drop trailing decimal zeros of [c], raising the exponent. *)
Fixpoint strip_zeros (fuel : nat) (c s : Z) : Z * Z :=
  match fuel with
  | O => (c, s)
  | S fuel' =>
      if (c mod 10 =? 0) && negb (c =? 0) then strip_zeros fuel' (c / 10) (s + 1)
      else (c, s)
  end.

Definition zeros (n : Z) : list ascii := repeat "0"%char (Z.to_nat n).

(** The [repr] layout of the digits [ds] with the decimal point after
    [decpt] of them. *)
Definition format_repr (ds : list ascii) (decpt : Z) : list ascii :=
  let nd := Z.of_nat (length ds) in
  if (decpt <=? -4) || (16 <? decpt) then
    let e := decpt - 1 in
    let es := chars (str_of_int (Z.abs e)) in
    let es := if Z.abs e <? 10 then "0"%char :: es else es in
    let mant :=
      match ds with
      | [] => []
      | c :: [] => [c]
      | c :: rest => c :: "."%char :: rest
      end in
    mant ++ "e"%char :: (if e <? 0 then "-"%char else "+"%char) :: es
  else if decpt <=? 0 then
    "0"%char :: "."%char :: zeros (- decpt) ++ ds
  else if nd <=? decpt then
    ds ++ zeros (decpt - nd) ++ ["."; "0"]%char
  else
    take (Z.to_nat decpt) ds ++ "."%char :: drop (Z.to_nat decpt) ds.

(** [repr(x)] (and [str(x)]) of a float: the shortest decimal that
    reads back as [x]. *)
Definition float_repr (x : float) : string :=
  match Prim2SF x with
  | S754_nan => "nan"
  | S754_infinity s => if s then "-inf" else "inf"
  | S754_zero s => if s then "-0.0" else "0.0"
  | S754_finite sg m e =>
      let n := if 0 <=? e then Zpos m * 2 ^ e else Zpos m in
      let d := if 0 <=? e then 1 else 2 ^ (- e) in
      let k := floor_log10 n d in
      let '(c, s) := shortest_search (PrimFloat.abs x) n d k 1 17 in
      let '(c, s) := strip_zeros 17 c s in
      let ds := chars (str_of_int c) in
      let body := format_repr ds (Z.of_nat (length ds) + s) in
      text (if sg then "-"%char :: body else body)
  end.

(** [float(s)] on a string. *)

Fixpoint span_digits (l : list ascii) : list ascii * list ascii :=
  match l with
  | c :: l' =>
      if is_digit c then let '(ds, rest) := span_digits l' in (c :: ds, rest)
      else ([], l)
  | [] => ([], [])
  end.

Definition digit_value (c : ascii) : Z := Z.of_nat (nat_of_ascii c) - 48.

Definition digits_value (ds : list ascii) : Z :=
  fold_left (fun acc c => acc * 10 + digit_value c) ds 0.

(** Underscores are dropped; each must stand between two digits. *)
Fixpoint remove_underscores (prev : ascii) (l : list ascii)
  : option (list ascii) :=
  match l with
  | [] => if Ascii.eqb prev "_" then None else Some []
  | c :: l' =>
      if Ascii.eqb c "_" then
        if is_digit prev then remove_underscores c l' else None
      else if Ascii.eqb prev "_" && negb (is_digit c) then None
      else option_map (cons c) (remove_underscores c l')
  end.

Definition split_sign (l : list ascii) : bool * list ascii :=
  match l with
  | "-"%char :: r => (true, r)
  | "+"%char :: r => (false, r)
  | _ => (false, l)
  end.

Definition lower (c : ascii) : ascii :=
  let n := nat_of_ascii c in
  if (65 <=? n)%nat && (n <=? 90)%nat then ascii_of_nat (n + 32) else c.

(** A decimal number: digits, an optional fraction and an optional
    exponent, with at least one digit before the exponent. *)
Definition parse_decimal (l : list ascii) : option float :=
  let '(neg, l1) := split_sign l in
  let '(d1, l2) := span_digits l1 in
  let '(d2, l3) :=
    match l2 with
    | "."%char :: r => span_digits r
    | _ => ([], l2)
    end in
  match d1 ++ d2 with
  | [] => None
  | mant =>
      let '(e, l4) :=
        match l3 with
        | c :: r =>
            if Ascii.eqb (lower c) "e" then
              let '(eneg, r1) := split_sign r in
              let '(d3, r2) := span_digits r1 in
              match d3 with
              | [] => (0, l3)
              | _ :: _ => (if eneg then - digits_value d3 else digits_value d3, r2)
              end
            else (0, l3)
        | [] => (0, l3)
        end in
      match l4 with
      | [] =>
          let x := decimal_to_float (digits_value mant)
                     (e - Z.of_nat (length d2)) in
          Some (if neg then (- x)%float else x)
      | _ :: _ => None
      end
  end.

(** [inf], [infinity] and [nan], in any letter case, with a sign. *)
Definition parse_inf_or_nan (l : list ascii) : option float :=
  let '(neg, l1) := split_sign l in
  let w := text (map lower l1) in
  if (String.eqb w "inf" || String.eqb w "infinity")%string then
    Some (if neg then neg_infinity else infinity)
  else if String.eqb w "nan" then Some nan
  else None.

Definition float_of_str (s : string) : result float :=
  match remove_underscores Ascii.zero (strip (to_ascii (chars s))) with
  | None => Err ValueError
  | Some l =>
      match parse_decimal l with
      | Some x => Ok x
      | None =>
          match parse_inf_or_nan l with
          | Some x => Ok x
          | None => Err ValueError
          end
      end
  end.

(** *** [repr] and [str] *)

Definition backslash : ascii := "092"%char.
Definition double_quote : ascii := "034"%char.

Definition hex_digit (n : nat) : ascii :=
  nth n (chars "0123456789abcdef") "0"%char.

(** One character of the [repr] of a string quoted with [q]. *)
Definition repr_char (q : ascii) (c : ascii) : list ascii :=
  let n := nat_of_ascii c in
  if Ascii.eqb c q || Ascii.eqb c backslash then [backslash; c]
  else if (n =? 9)%nat then [backslash; "t"%char]
  else if (n =? 10)%nat then [backslash; "n"%char]
  else if (n =? 13)%nat then [backslash; "r"%char]
  else if (n <? 32)%nat || (n =? 127)%nat
          || ((128 <=? n)%nat && (n <=? 160)%nat) || (n =? 173)%nat then
    [backslash; "x"%char; hex_digit (n / 16); hex_digit (n mod 16)]
  else [c].

Definition has_char (c : ascii) (l : list ascii) : bool :=
  existsb (Ascii.eqb c) l.

(** [repr(s)] of a string: single quotes, unless the text has a single
    quote and no double quote. *)
Definition str_repr (s : string) : string :=
  let l := chars s in
  let q := if has_char "'" l && negb (has_char double_quote l) then double_quote
           else "'"%char in
  text (q :: flat_map (repr_char q) l ++ [q]).

Definition join (sep : string) (l : list string) : string :=
  match l with
  | [] => EmptyString
  | x :: l' => fold_left (fun acc y => acc ++ sep ++ y)%string l' x
  end.

Fixpoint py_repr (v : pyval) : string :=
  match v with
  | VNone => "None"
  | VBool b => if b then "True" else "False"
  | VInt z => str_of_int z
  | VFloat f => float_repr f
  | VStr s => str_repr s
  | VTuple l =>
      match l with
      | [x] => "(" ++ py_repr x ++ ",)"
      | _ => "(" ++ join ", " (map py_repr l) ++ ")"
      end
  | VDict l =>
      "{" ++ join ", " (map (fun kv => py_repr (fst kv) ++ ": " ++ py_repr (snd kv)) l)
          ++ "}"
  | VGeom wkt => wkt
  end%string.

(** [str(v)]: the text itself for a string, [repr(v)] otherwise. *)
Definition py_str (v : pyval) : string :=
  match v with
  | VStr s => s
  | _ => py_repr v
  end.

(** [len(v)]. *)
Definition py_len (v : pyval) : result Z :=
  match v with
  | VStr s => Ok (Z.of_nat (String.length s))
  | VTuple l => Ok (Z.of_nat (length l))
  | VDict l => Ok (Z.of_nat (length l))
  | _ => Err TypeError
  end.

(** [v == s] for a string constant [s]. *)
Definition eq_str (v : pyval) (s : string) : bool :=
  match v with
  | VStr s' => String.eqb s' s
  | _ => false
  end.

(** [int(v)]. *)
Definition py_int (v : pyval) : result Z :=
  match v with
  | VInt z => Ok z
  | VBool b => Ok (if b then 1 else 0)
  | VFloat f =>
      match Prim2SF f with
      | S754_nan => Err ValueError
      | S754_infinity _ => Err OverflowError
      | S754_zero _ => Ok 0
      | S754_finite sg m e =>
          let a := if 0 <=? e then Zpos m * 2 ^ e else Zpos m / 2 ^ (- e) in
          Ok (if sg then - a else a)
      end
  | VStr s => int_of_str s
  | _ => Err TypeError
  end.

(** [float(v)]. *)
Definition py_float (v : pyval) : result float :=
  match v with
  | VFloat f => Ok f
  | VInt z =>
      let f := float_of_int z in
      if is_infinity f then Err OverflowError else Ok f
  | VBool b => Ok (if b then 1 else 0)%float
  | VStr s => float_of_str s
  | _ => Err TypeError
  end.

End PyValues.

(** ** [common/igraph.py] *)

Module igraph.

Import PyValues.

(** *** The attribute enumerations

    [value] is the member's value (the attribute name in graphs and
    GraphML files), [of_value] is the call [Node(attr)] / [Edge(attr)],
    which raises [ValueError] for a text that is no member's value, and
    [members] is the iteration order of the class. *)

Module Node.

Inductive t : Set :=
| id_ig | id_otp | name_otp | geometry | geom_wgs
| traversable_walking | traversable_biking | traffic_light.

Definition value (a : t) : string :=
  match a with
  | id_ig => "ii"
  | id_otp => "io"
  | name_otp => "no"
  | geometry => "geom"
  | geom_wgs => "geom_wgs"
  | traversable_walking => "b_tw"
  | traversable_biking => "b_tb"
  | traffic_light => "tl"
  end.

Definition members : list t :=
  [ id_ig; id_otp; name_otp; geometry; geom_wgs;
    traversable_walking; traversable_biking; traffic_light ].

Definition of_value (attr : string) : result t :=
  match find (fun a => String.eqb (value a) attr) members with
  | Some a => Ok a
  | None => Err ValueError
  end.

End Node.

Module Edge.

Inductive t : Set :=
| id_ig | id_otp | id_way | uv | name_otp | geometry | geom_wgs | length
| bike_time_cost | bike_safety_cost | edge_class | street_class
| is_stairs | is_no_thru_traffic | allows_walking | allows_biking
| traversable_walking | traversable_biking | bike_safety_factor
| noises | noise_source | noise_sources | aqi
| gvi_gsv | gvi_low_veg_share | gvi_high_veg_share
| gvi_comb_gsv_veg | gvi_comb_gsv_high_veg | gvi.

Definition value (a : t) : string :=
  match a with
  | id_ig => "ii"
  | id_otp => "io"
  | id_way => "iw"
  | uv => "uv"
  | name_otp => "no"
  | geometry => "geom"
  | geom_wgs => "geom_wgs"
  | length => "l"
  | bike_time_cost => "c_bt"
  | bike_safety_cost => "c_bs"
  | edge_class => "ec"
  | street_class => "sc"
  | is_stairs => "b_st"
  | is_no_thru_traffic => "b_ntt"
  | allows_walking => "b_aw"
  | allows_biking => "b_ab"
  | traversable_walking => "b_tw"
  | traversable_biking => "b_tb"
  | bike_safety_factor => "bsf"
  | noises => "n"
  | noise_source => "ns"
  | noise_sources => "nss"
  | aqi => "aqi"
  | gvi_gsv => "g_gsv"
  | gvi_low_veg_share => "g_lv"
  | gvi_high_veg_share => "g_hv"
  | gvi_comb_gsv_veg => "g_gsv_v"
  | gvi_comb_gsv_high_veg => "g_gsv_hv"
  | gvi => "g"
  end.

Definition members : list t :=
  [ id_ig; id_otp; id_way; uv; name_otp; geometry; geom_wgs; length;
    bike_time_cost; bike_safety_cost; edge_class; street_class;
    is_stairs; is_no_thru_traffic; allows_walking; allows_biking;
    traversable_walking; traversable_biking; bike_safety_factor;
    noises; noise_source; noise_sources; aqi;
    gvi_gsv; gvi_low_veg_share; gvi_high_veg_share;
    gvi_comb_gsv_veg; gvi_comb_gsv_high_veg; gvi ].

Definition of_value (attr : string) : result t :=
  match find (fun a => String.eqb (value a) attr) members with
  | Some a => Ok a
  | None => Err ValueError
  end.

End Edge.

(** *** The converters *)

Definition as_string (value : pyval) : string :=
  match value with
  | VBool b => if b then "1" else "0"
  | _ => py_str value
  end.

Definition to_str (value : pyval) : result pyval :=
  if negb (eq_str value "None") then Ok (VStr (py_str value)) else Ok VNone.

Definition to_int (value : pyval) : result pyval :=
  if negb (eq_str value "None") then let* z := py_int value in Ok (VInt z)
  else Ok VNone.

Definition to_float (value : pyval) : result pyval :=
  if negb (eq_str value "None") then let* f := py_float value in Ok (VFloat f)
  else Ok VNone.

Section Libraries.

(** [ast.literal_eval] on a string and [shapely.wkt.loads] (returning
    the WKT text that identifies the geometry) belong to libraries
    outside the repository. *)
Variable literal_eval : string -> result pyval.
Variable wkt_loads : string -> result string.

(** [ast.literal_eval(value)]: a value that is not a string is
    rejected as a malformed node. *)
Definition ast_literal_eval (value : pyval) : result pyval :=
  match value with
  | VStr s => literal_eval s
  | _ => Err ValueError
  end.

Definition to_geom (value : pyval) : result pyval :=
  match value with
  | VStr s => let* g := wkt_loads s in Ok (VGeom g)
  | _ => Err TypeError
  end.

Definition to_bool (value : pyval) : result pyval :=
  let* n := py_len value in
  if n =? 1 then Ok (VBool (eq_str value "1"))
  else ast_literal_eval value.

Definition to_dict (value : pyval) : result pyval :=
  if negb (eq_str value "None") then ast_literal_eval value else Ok VNone.

Definition to_tuple (value : pyval) : result pyval :=
  if negb (eq_str value "None") then ast_literal_eval value else Ok VNone.

Definition value_converter_by_edge_attribute (a : Edge.t)
  : pyval -> result pyval :=
  match a with
  | Edge.id_ig => to_int
  | Edge.id_otp => to_str
  | Edge.id_way => to_int
  | Edge.uv => to_tuple
  | Edge.name_otp => to_str
  | Edge.geometry => to_geom
  | Edge.geom_wgs => to_geom
  | Edge.length => to_float
  | Edge.bike_time_cost => to_float
  | Edge.bike_safety_cost => to_float
  | Edge.edge_class => to_str
  | Edge.street_class => to_str
  | Edge.is_stairs => to_bool
  | Edge.is_no_thru_traffic => to_bool
  | Edge.allows_walking => to_bool
  | Edge.allows_biking => to_bool
  | Edge.traversable_walking => to_bool
  | Edge.traversable_biking => to_bool
  | Edge.bike_safety_factor => to_float
  | Edge.noises => to_dict
  | Edge.noise_source => to_str
  | Edge.noise_sources => to_dict
  | Edge.aqi => to_float
  | Edge.gvi_gsv => to_float
  | Edge.gvi_low_veg_share => to_float
  | Edge.gvi_high_veg_share => to_float
  | Edge.gvi_comb_gsv_veg => to_float
  | Edge.gvi_comb_gsv_high_veg => to_float
  | Edge.gvi => to_float
  end.

Definition value_converter_by_node_attribute (a : Node.t)
  : pyval -> result pyval :=
  match a with
  | Node.id_ig => to_int
  | Node.id_otp => to_str
  | Node.name_otp => to_str
  | Node.geometry => to_geom
  | Node.geom_wgs => to_geom
  | Node.traversable_walking => to_bool
  | Node.traversable_biking => to_bool
  | Node.traffic_light => to_bool
  end.

(** [__value_converter_by_node_attribute[Node(attr)]] and its edge
    counterpart. *)
Definition node_converter (attr : string) : result (pyval -> result pyval) :=
  let* a := Node.of_value attr in Ok (value_converter_by_node_attribute a).

Definition edge_converter (attr : string) : result (pyval -> result pyval) :=
  let* a := Edge.of_value attr in Ok (value_converter_by_edge_attribute a).

End Libraries.

(** *** igraph graphs

    A graph has [vcount] vertices and the edges [links]; the vertex and
    edge attributes are stored by name, one list of values per
    attribute. *)

Record Graph : Type := {
  vcount : nat;
  vs : gmap string (list pyval);
  links : list (nat * nat);
  es : gmap string (list pyval)
}.

(** The two element sequences of a graph: [G.vs] and [G.es]. *)
Inductive Seq : Set := VS | ES.

Definition count (k : Seq) (G : Graph) : nat :=
  match k with
  | VS => vcount G
  | ES => List.length (links G)
  end.

Definition columns (k : Seq) (G : Graph) : gmap string (list pyval) :=
  match k with
  | VS => vs G
  | ES => es G
  end.

Definition with_columns (k : Seq) (G : Graph) (c : gmap string (list pyval))
  : Graph :=
  match k with
  | VS => {| vcount := vcount G; vs := c; links := links G; es := es G |}
  | ES => {| vcount := vcount G; vs := vs G; links := links G; es := c |}
  end.

(** [G.vs[i].attributes()]: the attribute dict of element [i],
    [IndexError] when there is no such element. *)
Definition element_attributes (k : Seq) (G : Graph) (i : nat)
  : result (gmap string pyval) :=
  if (i <? count k G)%nat then Ok (omap (fun col => col !! i) (columns k G))
  else Err IndexError.

(** The keys of a dict, as iterated. *)
Definition dict_keys {V : Type} (d : gmap string V) : list string :=
  (map_to_list d).*1.

(** [G.vs.attribute_names()]. *)
Definition attribute_names (k : Seq) (G : Graph) : list string :=
  dict_keys (columns k G).

(** [G.vs[attr]]. *)
Definition get_attribute (k : Seq) (G : Graph) (attr : string)
  : result (list pyval) :=
  getitem (columns k G) attr.

(** [G.vs[attr] = values]. *)
Definition set_attribute (k : Seq) (G : Graph) (attr : string)
    (values : list pyval) : Graph :=
  with_columns k G (<[attr := values]> (columns k G)).

(** [del(G.vs[attr])]. *)
Definition del_attribute (k : Seq) (G : Graph) (attr : string) : result Graph :=
  match columns k G !! attr with
  | Some _ => Ok (with_columns k G (delete attr (columns k G)))
  | None => Err KeyError
  end.

(** *** Import *)

Section Reading.

Variable literal_eval : string -> result pyval.
Variable wkt_loads : string -> result string.

(** [ig.Graph().Read_GraphML(graph_file)]: the file system and
    igraph's GraphML parser. *)
Variable Read_GraphML : string -> result Graph.

(** [[converter(value) for value in list(G.vs[attr])]], after the
    converter has been looked up. *)
Definition decode_column (k : Seq)
    (converter_of : string -> result (pyval -> result pyval))
    (G : Graph) (attr : string) : result (list pyval) :=
  let* converter := converter_of attr in
  let* column := get_attribute k G attr in
  comprehension converter column.

(** The body of one [try] block: convert every value of the attribute,
    then store the converted list. *)
Definition convert_attribute (k : Seq)
    (converter_of : string -> result (pyval -> result pyval))
    (G : Graph) (attr : string) : result Graph :=
  let* converted := decode_column k converter_of G attr in
  Ok (set_attribute k G attr converted).

(** One [for attr in ...: try: ... except Exception: if log: ...] loop.
    [log] tells whether a logger was passed; the result is the graph
    and the warnings written to the logger. *)
Fixpoint convert_attributes (k : Seq)
    (converter_of : string -> result (pyval -> result pyval))
    (what : string) (log : bool) (attrs : list string) (G : Graph)
  : Graph * list string :=
  match attrs with
  | [] => (G, [])
  | attr :: rest =>
      match convert_attribute k converter_of G attr with
      | Ok G' => convert_attributes k converter_of what log rest G'
      | Err _ =>
          let '(G', warnings) :=
            convert_attributes k converter_of what log rest G in
          (G', if log
               then ("Failed to read " ++ what ++ " attribute " ++ attr)%string
                    :: warnings
               else warnings)
      end
  end.

(** [read_graphml(graph_file, log)]: the returned graph (or the raised
    exception) and the warnings logged. *)
Definition read_graphml (graph_file : string) (log : bool)
  : result Graph * list string :=
  match Read_GraphML graph_file with
  | Err e => (Err e, [])
  | Ok G =>
      match del_attribute VS G "id" with
      | Err e => (Err e, [])
      | Ok G =>
          match element_attributes VS G 0 with
          | Err e => (Err e, [])
          | Ok attrs =>
              let '(G, warnings) :=
                convert_attributes VS (node_converter literal_eval wkt_loads)
                  "node" log (dict_keys attrs) G in
              match element_attributes ES G 0 with
              | Err e => (Err e, warnings)
              | Ok attrs =>
                  let '(G, warnings') :=
                    convert_attributes ES
                      (edge_converter literal_eval wkt_loads)
                      "edge" log (dict_keys attrs) G in
                  (Ok G, warnings ++ warnings')
              end
          end
      end
  end.

End Reading.

(** *** Export

    [export_to_graphml] works on graph objects: the store maps each
    object to its graph.  The file system maps a path to the graph
    written there, and the module logger collects the info messages. *)

Definition loc : Set := positive.

Record State : Type := {
  heap : gmap loc Graph;
  files : gmap string Graph;
  logged : list string
}.

(** A computation: the outcome and the state it leaves, also when it
    raises. *)
Definition M (A : Type) : Type := State -> result A * State.

Definition ret {A : Type} (a : A) : M A := fun s => (Ok a, s).

Definition raise {A : Type} (e : exn) : M A := fun s => (Err e, s).

Definition mbind {A B : Type} (m : M A) (k : A -> M B) : M B :=
  fun s =>
    match m s with
    | (Ok a, s') => k a s'
    | (Err e, s') => (Err e, s')
    end.

Definition lift {A : Type} (r : result A) : M A := fun s => (r, s).

(** [for x in l: body]. *)
Fixpoint for_each {A : Type} (l : list A) (body : A -> M unit) : M unit :=
  match l with
  | [] => ret tt
  | x :: l' => mbind (body x) (fun _ => for_each l' body)
  end.

(** Read the graph of an object. *)
Definition load (g : loc) : M Graph :=
  fun s =>
    match heap s !! g with
    | Some G => (Ok G, s)
    | None => (Err TypeError, s)
    end.

(** Overwrite the graph of an object. *)
Definition store (g : loc) (G : Graph) : M unit :=
  fun s => (Ok tt, {| heap := <[g := G]> (heap s);
                      files := files s; logged := logged s |}).

(** [G.copy()]: a new object with the same structure and attributes. *)
Definition copy (g : loc) : M loc :=
  mbind (load g) (fun G s =>
    let g' := fresh (dom (heap s)) in
    (Ok g', {| heap := <[g' := G]> (heap s);
               files := files s; logged := logged s |})).

Section Writing.

(** Whether a path can be written. *)
Variable writable : string -> bool.

(** [G.save(graph_file, format='graphml')]. *)
Definition save (g : loc) (graph_file : string) : M unit :=
  mbind (load g) (fun G s =>
    if writable graph_file
    then (Ok tt, {| heap := heap s; files := <[graph_file := G]> (files s);
                    logged := logged s |})
    else (Err OSError, s)).

(** [log.info(text)] on the module logger. *)
Definition log_info (text : string) : M unit :=
  fun s => (Ok tt, {| heap := heap s; files := files s;
                      logged := logged s ++ [text] |}).

(** [Gc.vs[attr] = [as_string(value) for value in list(Gc.vs[attr])]]. *)
Definition stringify (k : Seq) (gc : loc) (attr : string) : M unit :=
  mbind (load gc) (fun G =>
  mbind (lift (get_attribute k G attr)) (fun column =>
  store gc (set_attribute k G attr
             (map (fun value => VStr (as_string value)) column)))).

(** [if attr.value in Gc.vs[0].attributes(): ...]. *)
Definition stringify_if_present (k : Seq) (gc : loc) (attr : string) : M unit :=
  mbind (load gc) (fun G =>
  mbind (lift (element_attributes k G 0)) (fun attrs =>
  if bool_decide (attr ∈ dict_keys attrs) then stringify k gc attr
  else ret tt)).

(** [del(Gc.vs[attr])]. *)
Definition delete_attribute (k : Seq) (gc : loc) (attr : string) : M unit :=
  mbind (load gc) (fun G =>
  mbind (lift (del_attribute k G attr)) (fun G' => store gc G')).

(** The branch for one element sequence; [registry] lists the values
    of the enumeration and [selected] those of the requested members. *)
Definition export_attributes (k : Seq) (g gc : loc)
    (registry selected : list string) : M unit :=
  match selected with
  | [] => for_each registry (stringify_if_present k gc)
  | _ :: _ =>
      mbind (for_each selected (stringify k gc)) (fun _ =>
      mbind (load g) (fun G =>
      for_each (attribute_names k G) (fun attr =>
        if bool_decide (attr ∉ selected) then delete_attribute k gc attr
        else ret tt)))
  end.

Definition export_to_graphml (g : loc) (graph_file : string)
    (n_attrs : list Node.t) (e_attrs : list Edge.t) : M unit :=
  mbind (copy g) (fun gc =>
  mbind (export_attributes VS g gc (map Node.value Node.members)
           (map Node.value n_attrs)) (fun _ =>
  mbind (export_attributes ES g gc (map Edge.value Edge.members)
           (map Edge.value e_attrs)) (fun _ =>
  mbind (save gc graph_file) (fun _ =>
  log_info ("Exported graph to file: " ++ graph_file)%string)))).

End Writing.

End igraph.

(** ** More of the Python runtime: further exceptions, float division *)

Module PyMore.

(** The exceptions of [Py.exn], those raised by float division and by
    [input], and the base class [Exception] raised as such. *)
Inductive raised : Set :=
| Builtin (e : exn)
| ZeroDivisionError
| EOFError
| Exception.

(** The result of a call that can raise one of them. *)
Inductive outcome (A : Type) : Type :=
| Returns (a : A)
| Raises (e : raised).
#[global] Arguments Returns {A} a.
#[global] Arguments Raises {A} e.

Definition obind {A B : Type} (r : outcome A) (k : A -> outcome B) : outcome B :=
  match r with
  | Returns a => k a
  | Raises e => Raises e
  end.

(** [[f(x) for x in l]] with a body that can raise. *)
Fixpoint ocomprehension {A B : Type} (f : A -> outcome B) (l : list A)
  : outcome (list B) :=
  match l with
  | [] => Returns []
  | x :: l' =>
      obind (f x) (fun y =>
      obind (ocomprehension f l') (fun ys => Returns (y :: ys)))
  end.

(** [a / b] on floats: [ZeroDivisionError] when [b] is a zero. *)
Definition truediv (a b : float) : outcome float :=
  if is_zero b then Raises ZeroDivisionError else Returns (a / b)%float.

(** The line feed that [print] writes after its text. *)
Definition newline : string := String "010"%char EmptyString.

End PyMore.

Export PyMore.

(** ** [gp_server/app/noise_exposures.py]: the exposure statistics *)

Module noise_statistics.

Import noise_exposures.

(** [d.get(k)]. *)
Definition get (k : Z) (d : Noises) : option float :=
  match find (fun kv => k =? fst kv) d with
  | Some kv => Some (snd kv)
  | None => None
  end.

(** [d[k] += v] on a [defaultdict(float)]: a missing key is first
    given the value [0.0]. *)
Definition iadd (k : Z) (v : float) (d : Noises) : Noises :=
  setitem k (default 0%float (get k d) + v)%float d.

(** [{k: v for k, v in l}]. *)
Definition dict_of_items (l : list (Z * float)) : Noises :=
  fold_left (fun acc kv => setitem (fst kv) (snd kv) acc) l [].

(** The argument is a key of a noise dict: an integer, which Python
    compares with the float literals exactly. *)
Definition get_noise_range (db : Z) : Z :=
  if 70 <=? db then 70
  else if 65 <=? db then 65
  else if 60 <=? db then 60
  else if 55 <=? db then 55
  else if 50 <=? db then 50
  else 40.

Definition get_noise_range_exps (noises : Noises) (total_length : float)
  : Noises :=
  let db_range_lens :=
    fold_left (fun acc '(db, exp) => iadd (get_noise_range db) exp acc)
      (items noises) [] in
  dict_of_items (map (fun '(k, v) => (k, round v 3)) (items db_range_lens)).

Definition get_noise_range_pcts (db_range_exps : Noises) (length : float)
  : outcome Noises :=
  obind
    (ocomprehension
       (fun '(db_range, db_range_length) =>
          obind (truediv (db_range_length * 100) length) (fun pct =>
          Returns (db_range, round pct 3)))
       (items db_range_exps))
    (fun l => Returns (dict_of_items l)).

Definition aggregate_exposures (exp_list : list Noises) : Noises :=
  let exps :=
    fold_left (fun acc db_exps =>
      fold_left (fun acc '(db, exp) => iadd db exp acc) (items db_exps) acc)
      exp_list [] in
  dict_of_items (map (fun '(k, v) => (k, round v 3)) (items exps)).

(** The conversion of an integer operand to a float, as in [db + 2.5]:
    [OverflowError] for an integer beyond the floats. *)
Definition float_of_int_checked (z : Z) : outcome float :=
  let f := float_of_int z in
  if is_infinity f then Raises (Builtin OverflowError) else Returns f.

(** The [length] of the comprehension is its own loop variable; the
    divisor is the parameter. *)
Definition get_mean_noise_level (noises : Noises) (length : float)
  : outcome float :=
  obind
    (ocomprehension
       (fun '(db, length) =>
          obind (float_of_int_checked db) (fun x =>
          Returns ((x + 2.5) * length)%float))
       (items noises))
    (fun terms =>
  let sum_db := sum terms in
  obind (truediv sum_db length) (fun mean_db =>
  Returns (round mean_db 1))).

End noise_statistics.

(** ** [common/igraph.py]: the edge dictionaries *)

Module edge_dicts.

Import PyValues igraph.

(** [attr.name] of a member of [Edge]: the column name in data frames. *)
Definition name (a : Edge.t) : string :=
  match a with
  | Edge.id_ig => "id_ig"
  | Edge.id_otp => "id_otp"
  | Edge.id_way => "id_way"
  | Edge.uv => "uv"
  | Edge.name_otp => "name_otp"
  | Edge.geometry => "geometry"
  | Edge.geom_wgs => "geom_wgs"
  | Edge.length => "length"
  | Edge.bike_time_cost => "bike_time_cost"
  | Edge.bike_safety_cost => "bike_safety_cost"
  | Edge.edge_class => "edge_class"
  | Edge.street_class => "street_class"
  | Edge.is_stairs => "is_stairs"
  | Edge.is_no_thru_traffic => "is_no_thru_traffic"
  | Edge.allows_walking => "allows_walking"
  | Edge.allows_biking => "allows_biking"
  | Edge.traversable_walking => "traversable_walking"
  | Edge.traversable_biking => "traversable_biking"
  | Edge.bike_safety_factor => "bike_safety_factor"
  | Edge.noises => "noises"
  | Edge.noise_source => "noise_source"
  | Edge.noise_sources => "noise_sources"
  | Edge.aqi => "aqi"
  | Edge.gvi_gsv => "gvi_gsv"
  | Edge.gvi_low_veg_share => "gvi_low_veg_share"
  | Edge.gvi_high_veg_share => "gvi_high_veg_share"
  | Edge.gvi_comb_gsv_veg => "gvi_comb_gsv_veg"
  | Edge.gvi_comb_gsv_high_veg => "gvi_comb_gsv_high_veg"
  | Edge.gvi => "gvi"
  end.

(** The inner loop: [for attr in attrs: if attr.value in edge_attrs:
    edge_dict[attr.name] = edge_attrs[attr.value]]. *)
Definition edge_dict (edge_attrs : gmap string pyval) (attrs : list Edge.t)
  : gmap string pyval :=
  foldl (fun edge_dict attr =>
           match edge_attrs !! Edge.value attr with
           | Some v => <[name attr := v]> edge_dict
           | None => edge_dict
           end) ∅ attrs.

(** [for edge in G.es] visits the edges [0 .. ecount-1]. *)
Definition get_edge_dicts (G : Graph) (attrs : list Edge.t)
  : result (list (gmap string pyval)) :=
  comprehension
    (fun i => let* edge_attrs := element_attributes ES G i in
              Ok (edge_dict edge_attrs attrs))
    (seq 0 (count ES G)).

End edge_dicts.

(** ** More of [round]: any number of digits, and rounding to an integer *)

Module PyRound.

(** The integer nearest to [n / d] (for [0 <= n], [0 < d]), ties to even. *)
Definition div_half_even (n d : Z) : Z :=
  let q := n / d in
  let r := n mod d in
  match (2 * r ?= d) with
  | Lt => q
  | Eq => if Z.even q then q else q + 1
  | Gt => q + 1
  end.

(** [round(x, ndigits)] for any integer [ndigits]: beyond 323 digits
    the float is returned as it is, below -308 a zero of its sign; in
    between the exact value is rounded half-to-even to a multiple of
    [10 ** -ndigits] and converted to the nearest float, which raises
    [OverflowError] when that float is not finite. *)
Definition round_ndigits (x : float) (ndigits : Z) : result float :=
  match Prim2SF x with
  | S754_finite s m e =>
      if 323 <? ndigits then Ok x
      else if ndigits <? -308 then Ok (0 * x)%float
      else
        let up := 10 ^ Z.max ndigits 0 in
        let down := 10 ^ Z.max (- ndigits) 0 in
        let k := div_half_even (Zpos m * 2 ^ Z.max e 0 * up)
                   (2 ^ Z.max (- e) 0 * down) in
        let y := nearest_float (k * down) up in
        if is_infinity y then Err OverflowError
        else Ok (if s then (- y)%float else y)
  | _ => Ok x
  end.

(** [round(x)]: the nearest integer, ties to even; an infinity and a
    NaN cannot be converted. *)
Definition round_int (x : float) : result Z :=
  match Prim2SF x with
  | S754_nan => Err ValueError
  | S754_infinity _ => Err OverflowError
  | S754_zero _ => Ok 0
  | S754_finite s m e =>
      let k := div_half_even (Zpos m * 2 ^ Z.max e 0) (2 ^ Z.max (- e) 0) in
      Ok (if s then - k else k)
  end.

End PyRound.

(** ** [gp_server/app/logger.py] *)

Module logger.

Import PyValues PyRound.

(** A [Logger] object; [app_logger] tells whether an application
    logger was passed. *)
Record Logger : Type := {
  app_logger : bool;
  b_printing : bool;
  log_file : option string;
  level : Z
}.

(** What a logger acts on: the clock ([utcnow] is the UTC time as
    [strftime('%y/%m/%d %H:%M:%S')] prints it, [time] the value of
    [time.time()]), the text printed to the console, the text appended
    to each file, and the calls made on the application logger (the
    method and the text). *)
Record World : Type := {
  utcnow : string;
  time : float;
  console : list string;
  written : gmap string (list string);
  app_log : list (string * string)
}.

(** A method: the outcome and the world it leaves, also when it
    raises. *)
Definition L (A : Type) : Type := World -> result A * World.

Definition ret {A : Type} (a : A) : L A := fun w => (Ok a, w).

Definition bind {A B : Type} (m : L A) (k : A -> L B) : L B :=
  fun w =>
    match m w with
    | (Ok a, w') => k a w'
    | (Err e, w') => (Err e, w')
    end.

(** [if b: m]. *)
Definition when (b : bool) (m : L unit) : L unit :=
  if b then m else ret tt.

(** [print(line)]. *)
Definition print (line : string) : L unit :=
  fun w =>
    (Ok tt, {| utcnow := utcnow w; time := time w;
               console := console w ++ [(line ++ newline)%string];
               written := written w; app_log := app_log w |}).

(** [self.app_logger.<method>(text)]. *)
Definition forward (method text : string) : L unit :=
  fun w =>
    (Ok tt, {| utcnow := utcnow w; time := time w; console := console w;
               written := written w;
               app_log := app_log w ++ [(method, text)] |}).

Definition levels : gmap string Z :=
  list_to_map [("debug", 4); ("info", 3); ("warning", 2); ("error", 1)]%string.

Definition __init__ (app_logger b_printing : bool) (log_file : option string)
    (level : string) : result Logger :=
  let* n := getitem levels level in
  Ok {| app_logger := app_logger; b_printing := b_printing;
        log_file := log_file; level := n |}.

Section Files.

(** Whether a file can be opened for appending. *)
Variable appendable : string -> bool.

(** [with open(file, 'a') as the_file: the_file.write(text)]. *)
Definition append (file text : string) : L unit :=
  fun w =>
    if appendable file
    then (Ok tt, {| utcnow := utcnow w; time := time w; console := console w;
                    written := <[file := default [] (written w !! file) ++ [text]]>
                                 (written w);
                    app_log := app_log w |})
    else (Err OSError, w).

Definition print_log (self : Logger) (text level : string) : L unit :=
  fun w =>
    let log_prefix := (utcnow w ++ " [" ++ level ++ "] ")%string in
    bind (when (b_printing self) (print (log_prefix ++ text))) (fun _ =>
    match log_file self with
    | None | Some EmptyString => ret tt
    | Some file => append file ((log_prefix ++ text) ++ newline)
    end) w.

Definition debug (self : Logger) (text : string) : L unit :=
  bind (when (4 <=? level self) (print_log self text "DEBUG")) (fun _ =>
  when (app_logger self) (forward "debug" text)).

Definition info (self : Logger) (text : string) : L unit :=
  bind (when (3 <=? level self) (print_log self text "INFO")) (fun _ =>
  when (app_logger self) (forward "info" text)).

Definition warning (self : Logger) (text : string) : L unit :=
  bind (when (2 <=? level self) (print_log self text "WARNING")) (fun _ =>
  when (app_logger self) (forward "warning" text)).

Definition error (self : Logger) (text : string) : L unit :=
  bind (print_log self text "ERROR") (fun _ =>
  when (app_logger self) (forward "error" text)).

Definition critical (self : Logger) (text : string) : L unit :=
  bind (print_log self text "CRITICAL") (fun _ =>
  when (app_logger self) (forward "critical" text)).

(** [log_str] is ['--- %s s --- %s' % (time_elapsed, text)], its
    millisecond form, or the empty text for another unit. *)
Definition duration (self : Logger) (time1 : float) (text : string)
    (round_n : Z) (unit log_level : string) : L Datatypes.unit :=
  fun w =>
    let log_str :=
      if String.eqb unit "s" then
        let* time_elapsed := round_ndigits (time w - time1) round_n in
        Ok ("--- " ++ float_repr time_elapsed ++ " s --- " ++ text)%string
      else if String.eqb unit "ms" then
        let* time_elapsed := round_int ((time w - time1) * 1000) in
        Ok ("--- " ++ str_of_int time_elapsed ++ " ms --- " ++ text)%string
      else Ok EmptyString in
    match log_str with
    | Err e => (Err e, w)
    | Ok log_str =>
        if app_logger self then
          if String.eqb log_level "debug" then debug self log_str w
          else if String.eqb log_level "info" then info self log_str w
          else (Ok tt, w)
        else (Ok tt, w)
    end.

End Files.

End logger.

(** ** [graph_build/common/utils.py] *)

Module utils.

Import PyValues.

(** The whitespace of [str.strip()], among the code points below 256. *)
Definition isspace (c : ascii) : bool :=
  let n := Z.of_nat (nat_of_ascii c) in
  (n =? 32) || ((9 <=? n) && (n <=? 13)) || ((28 <=? n) && (n <=? 31))
  || (n =? 133) || (n =? 160).

Fixpoint lstrip_spaces (l : list ascii) : list ascii :=
  match l with
  | c :: l' => if isspace c then lstrip_spaces l' else l
  | [] => []
  end.

(** [s.strip()]. *)
Definition str_strip (s : string) : string :=
  text (rev (lstrip_spaces (rev (lstrip_spaces (chars s))))).

(** [str(l)] of a list. *)
Definition list_repr (l : list pyval) : string :=
  ("[" ++ join ", " (map py_repr l) ++ "]")%string.

(** [l[i]] on a list. *)
Definition list_getitem (l : list pyval) (i : Z) : outcome pyval :=
  let j := if i <? 0 then i + Z.of_nat (length l) else i in
  match (if j <? 0 then None else l !! Z.to_nat j) with
  | Some v => Returns v
  | None => Raises (Builtin IndexError)
  end.

(** [print(text, end=end_)] on the text written to the terminal. *)
Definition print (text end_ : string) (stdout : list string) : list string :=
  stdout ++ [(text ++ end_)%string].

(** [list(range(1, len(options)+1))]. *)
Definition option_idx (options : list pyval) : list Z :=
  seqZ 1 (Z.of_nat (length options)).

Definition invalid_answer (answer : string) (valid : string) : string :=
  ("Invalid answer: " ++ String double_quote answer
   ++ String double_quote " - should be one of " ++ valid)%string.

(** [read_user_selection]: [stdin] holds the lines that [input()] will
    return, [stdout] the text printed so far; the result comes with the
    lines left and the text printed.  Each round of the loop reads one
    line. *)
Fixpoint read_user_selection (text : string) (options : list pyval)
    (as_number : bool) (stdin stdout : list string) {struct stdin}
  : outcome pyval * list string * list string :=
  if as_number then
    let stdout := print text newline stdout in
    let stdout :=
      fold_left (fun out '(idx, option) =>
                   print (py_str option ++ ": " ++ str_of_int idx) newline out)
        (zip (option_idx options) options) stdout in
    let stdout := print ":" EmptyString stdout in
    match stdin with
    | [] => (Raises EOFError, [], stdout)
    | answer :: stdin =>
        let answer := str_strip answer in
        if String.eqb answer EmptyString then (Returns VNone, stdin, stdout)
        else
          let attempt :=
            obind (match int_of_str answer with
                   | Ok n => Returns n
                   | Err e => Raises (Builtin e)
                   end) (fun answer_num =>
            if negb (existsb (Z.eqb answer_num) (option_idx options))
            then Raises Exception
            else list_getitem options (answer_num - 1)) in
          match attempt with
          | Returns v => (Returns v, stdin, stdout)
          | Raises _ =>
              read_user_selection text options as_number stdin
                (print (invalid_answer answer
                          (list_repr (map VInt (option_idx options))))
                   newline stdout)
          end
    end
  else
    let stdout := print text newline stdout in
    let stdout := print (list_repr options ++ newline ++ ":") EmptyString stdout in
    match stdin with
    | [] => (Raises EOFError, [], stdout)
    | answer :: stdin =>
        let answer := str_strip answer in
        if String.eqb answer EmptyString then (Returns VNone, stdin, stdout)
        else if negb (existsb (fun option => eq_str option answer) options)
        then
          read_user_selection text options as_number stdin
            (print (invalid_answer answer (list_repr options)) newline stdout)
        else (Returns (VStr answer), stdin, stdout)
    end.

(** [confirm_config], on the dict [asdict(config)]. *)
Definition confirm_config (conf_dict : list (string * pyval))
    (stdin stdout : list string) : outcome bool * list string * list string :=
  let stdout := print "Read configuration:" newline stdout in
  let stdout :=
    fold_left (fun out '(key, value) =>
                 print (key ++ ": " ++ py_str value) newline out)
      conf_dict stdout in
  let stdout := print "Proceed? (y/n)" newline stdout in
  let stdout := print ":" EmptyString stdout in
  match stdin with
  | [] => (Raises EOFError, [], stdout)
  | answer :: stdin =>
      (Returns (String.eqb (str_strip answer) "y"), stdin, stdout)
  end.

End utils.

(** ** Executable checks used by the proofs *)

(** [ordered_pairs_ok tbl]: for all entries [(a, xs)] and [(b, ys)] of
    [tbl] with [a <= b], every float of [xs] is [<=] every float of
    [ys]. *)
Definition ordered_pairs_ok (tbl : list (Z * list float)) : bool :=
  forallb (fun p =>
    forallb (fun q =>
      implb (fst p <=? fst q)
        (forallb (fun x => forallb (fun y => (x <=? y)%float) (snd q)) (snd p)))
      tbl)
    tbl.

(** The candidate version-3 costs at [db]: one for each result an
    accurate libm can return. *)
Definition v3_candidates (db : Z) : list float :=
  match Libm.pow10_reference db with
  | Some r => map (fun p => round (p / 100)%float 3)
                  (Libm.ulp_ball Libm.pow_ulps r)
  | None => []
  end.

(** What the specification says of a cost table [table] whose value at
    a dB of 45 or more is [cost db]: the keys are exactly 40..79, the
    value is 0 up to 44 dB, and the values do not decrease over 45..79. *)
Definition is_cost_table (table : gmap Z float) (cost : Z -> float) : Prop :=
  (forall db, is_Some (table !! db) <-> 40 <= db <= 79)
  /\ (forall db, 40 <= db <= 44 -> table !! db = Some 0%float)
  /\ (forall db, 45 <= db <= 79 -> table !! db = Some (cost db))
  /\ table !! 44 = Some 0%float
  /\ (forall a b x y, 45 <= a -> a <= b -> b <= 79 ->
        table !! a = Some x -> table !! b = Some y -> (x <=? y)%float = true).

(** A computation that leaves every object other than [gc] as it is. *)
Definition writes_only {A : Type} (gc : igraph.loc) (m : igraph.M A) : Prop :=
  forall s r s', m s = (r, s') ->
    forall l, l <> gc -> igraph.heap s' !! l = igraph.heap s !! l.

(** The values of [ast.literal_eval] and [shapely.wkt.loads] on the
    texts used in the examples (any other text is rejected). *)
Definition example_literal_eval (s : string) : result PyValues.pyval :=
  if String.eqb s "{50: 10.0}" then
    Ok (PyValues.VDict [(PyValues.VInt 50, PyValues.VFloat 10)])
  else if String.eqb s "(3, 7)" then
    Ok (PyValues.VTuple [PyValues.VInt 3; PyValues.VInt 7])
  else if String.eqb s "None" then Ok PyValues.VNone
  else if String.eqb s "True" then Ok (PyValues.VBool true)
  else if String.eqb s "False" then Ok (PyValues.VBool false)
  else Err ValueError.

Definition example_wkt_loads (s : string) : result string :=
  if String.eqb s "POINT (1 2)" then Ok s else Err ValueError.

(** The decoding of the column [column] of the key [attr] fails: no
    converter is registered for the key, or the converter raises on one
    of the values. *)
Definition decoding_fails
    (converter_of : string -> result (PyValues.pyval -> result PyValues.pyval))
    (attr : string) (column : list PyValues.pyval) : Prop :=
  (exists e, converter_of attr = Err e)
  \/ (exists converter v e,
        converter_of attr = Ok converter /\ In v column /\ converter v = Err e).

(** A parsed GraphML file with one node and one edge: the node key
    [xyz] is not registered and the value of the edge key [c_bt] is not
    a number. *)
Definition example_graph : igraph.Graph :=
  {| igraph.vcount := 1;
     igraph.vs :=
       list_to_map [ ("id", [PyValues.VStr "n0"]); ("ii", [PyValues.VStr "7"]);
                     ("xyz", [PyValues.VStr "?"]) ]%string;
     igraph.links := [(0, 0)]%nat;
     igraph.es :=
       list_to_map [ ("l", [PyValues.VStr "12.5"]);
                     ("n", [PyValues.VStr "{50: 10.0}"]);
                     ("b_aw", [PyValues.VStr "1"]);
                     ("c_bt", [PyValues.VStr "abc"]) ]%string |}.

(** The same nodes, without any edge. *)
Definition example_graph_without_edges : igraph.Graph :=
  {| igraph.vcount := 1;
     igraph.vs := igraph.vs example_graph;
     igraph.links := [];
     igraph.es := ∅ |}.

(** [example_graph] once its [id] column has been deleted. *)
Definition example_graph_without_id : igraph.Graph :=
  {| igraph.vcount := 1;
     igraph.vs := delete "id"%string (igraph.vs example_graph);
     igraph.links := igraph.links example_graph;
     igraph.es := igraph.es example_graph |}.

(** A graph with typed attribute values, as an import returns it, and
    a store that holds it as object 1. *)
Definition typed_graph : igraph.Graph :=
  {| igraph.vcount := 1;
     igraph.vs := list_to_map [ ("ii", [PyValues.VInt 7]) ]%string;
     igraph.links := [(0, 0)]%nat;
     igraph.es :=
       list_to_map
         [ ("l", [PyValues.VFloat 12.5]);
           ("n", [PyValues.VDict [(PyValues.VInt 50, PyValues.VFloat 10)]]);
           ("b_aw", [PyValues.VBool true]) ]%string |}.

Definition typed_store : igraph.State :=
  {| igraph.heap := {[ 1%positive := typed_graph ]};
     igraph.files := ∅;
     igraph.logged := [] |}.

(** ** Statements about the further modules *)

Section NoiseStatements.

Import noise_exposures noise_statistics.

(** The exposures of the entries of [d] whose key satisfies [p], in the
    order of [d]. *)
Definition exposures_where (p : Z -> bool) (d : list (Z * float)) : list float :=
  map snd (List.filter (fun kv => p (fst kv)) d).

(** The loop [for db, exp in l: acc[f(db)] += exp]. *)
Definition accumulate (f : Z -> Z) (l : list (Z * float)) (acc : Noises)
  : Noises :=
  fold_left (fun acc '(db, exp) => iadd (f db) exp acc) l acc.

(** The labels of the six dB ranges. *)
Definition range_labels : list Z := [40; 50; 55; 60; 65; 70].

End NoiseStatements.

Section GraphStatements.

Import PyValues igraph.

(** The state [s] with the object store [h]. *)
Definition with_heap (s : State) (h : gmap loc Graph) : State :=
  {| heap := h; files := files s; logged := logged s |}.

(** A step of the export on the graph of the copy [gc]. *)
Definition on_object (gc : loc) (f : Graph -> result Graph) : M unit :=
  mbind (load gc) (fun G => mbind (lift (f G)) (fun G' => store gc G')).

(** A loop of such steps on a graph: the outcome and the graph reached. *)
Fixpoint steps {A : Type} (f : A -> Graph -> result Graph) (l : list A)
    (G : Graph) : result unit * Graph :=
  match l with
  | [] => (Ok tt, G)
  | x :: l' =>
      match f x G with
      | Ok G' => steps f l' G'
      | Err e => (Err e, G)
      end
  end.

(** A column written as text. *)
Definition text_column (column : list pyval) : list pyval :=
  map (fun value => VStr (as_string value)) column.

(** The three steps of [export_to_graphml]. *)
Definition stringified (k : Seq) (attr : string) (G : Graph) : result Graph :=
  let* column := get_attribute k G attr in
  Ok (set_attribute k G attr (text_column column)).

Definition stringified_if_present (k : Seq) (attr : string) (G : Graph)
  : result Graph :=
  let* attrs := element_attributes k G 0 in
  if bool_decide (attr ∈ dict_keys attrs) then stringified k attr G else Ok G.

Definition deleted_unless (k : Seq) (selected : list string) (attr : string)
    (G : Graph) : result Graph :=
  if bool_decide (attr ∉ selected) then del_attribute k G attr else Ok G.

(** One branch of the export, from the caller's graph [G] and the
    graph [Gc] of the copy. *)
Definition branch_steps (k : Seq) (G : Graph) (registry selected : list string)
    (Gc : Graph) : result unit * Graph :=
  match selected with
  | [] => steps (stringified_if_present k) registry Gc
  | _ :: _ =>
      match steps (stringified k) selected Gc with
      | (Ok _, G1) => steps (deleted_unless k selected) (attribute_names k G) G1
      | (Err e, G1) => (Err e, G1)
      end
  end.

(** What a branch needs to succeed, and the exception it raises
    otherwise. *)
Definition branch_ok (k : Seq) (G : Graph) (selected : list string) : bool :=
  match selected with
  | [] => (0 <? count k G)%nat
  | _ :: _ =>
      forallb (fun attr => bool_decide (is_Some (columns k G !! attr))) selected
  end.

Definition branch_error (selected : list string) : exn :=
  match selected with
  | [] => IndexError
  | _ :: _ => KeyError
  end.

(** The column of [attr] in the exported file. *)
Definition exported_column (registry selected : list string)
    (cols : gmap string (list pyval)) (attr : string) : option (list pyval) :=
  match selected with
  | [] =>
      (fun column => if bool_decide (attr ∈ registry) then text_column column
                     else column) <$> cols !! attr
  | _ :: _ =>
      if bool_decide (attr ∈ selected) then text_column <$> cols !! attr
      else None
  end.

(** [G'] is [G] with the columns [l] of sequence [k] turned into text. *)
Definition texted (k : Seq) (l : list string) (G G' : Graph) : Prop :=
  vcount G' = vcount G /\ links G' = links G
  /\ (forall k', k' <> k -> columns k' G' = columns k' G)
  /\ (forall attr,
        columns k G' !! attr
        = if bool_decide (attr ∈ l) then text_column <$> columns k G !! attr
          else columns k G !! attr).

(** Whether a computation raised. *)
Definition failed {A : Type} (r : result A) : bool :=
  match r with
  | Ok _ => false
  | Err _ => true
  end.

(** Two columns of the same length, or no column on either side. *)
Definition same_shape (c c' : option (list pyval)) : Prop :=
  match c, c' with
  | Some column, Some column' => length column' = length column
  | None, None => True
  | _, _ => False
  end.

(** Every column of [cols] has a converter in the registry that reads
    back the text of each of its values. *)
Definition reads_back {A : Type} (value : A -> string)
    (converter : A -> pyval -> result pyval)
    (cols : gmap string (list pyval)) : Prop :=
  forall attr column, cols !! attr = Some column ->
    exists a, value a = attr
      /\ forall v, v ∈ column -> converter a (VStr (as_string v)) = Ok v.

(** What [Read_GraphML] returns for the file written by the export of
    [typed_store]: the graph of the file, with the [id] attribute that
    the parser adds to the nodes. *)
Definition typed_file_reader (graph_file : string) : result Graph :=
  match files (snd (export_to_graphml (fun _ => true) 1%positive
                      "out.graphml" [] [] typed_store)) !! graph_file with
  | Some Gs => Ok (set_attribute VS Gs "id" [VStr "n0"])
  | None => Err OSError
  end.

End GraphStatements.

Section LoggerStatements.

Import logger.

(** The five logging methods of a [Logger]. *)
Inductive method : Set := Debug | Info | Warning | Error | Critical.

Definition call (appendable : string -> bool) (m : method)
  : Logger -> string -> L unit :=
  match m with
  | Debug => debug appendable
  | Info => info appendable
  | Warning => warning appendable
  | Error => error appendable
  | Critical => critical appendable
  end.

(** The lowest level at which a method prints, its tag in the printed
    line and the name of the method called on the application logger. *)
Definition threshold (m : method) : Z :=
  match m with
  | Debug => 4
  | Info => 3
  | Warning => 2
  | Error | Critical => 1
  end.

Definition tag (m : method) : string :=
  match m with
  | Debug => "DEBUG"
  | Info => "INFO"
  | Warning => "WARNING"
  | Error => "ERROR"
  | Critical => "CRITICAL"
  end.

Definition method_name (m : method) : string :=
  match m with
  | Debug => "debug"
  | Info => "info"
  | Warning => "warning"
  | Error => "error"
  | Critical => "critical"
  end.

(** The shape shared by the five methods: the message is printed when
    [printed] holds, then passed to the application logger. *)
Definition log_method (appendable : string -> bool) (self : Logger)
    (printed : bool) (tag method : string) (text : string) : L unit :=
  bind (when printed (print_log appendable self text tag)) (fun _ =>
  when (app_logger self) (forward method text)).

(** The line printed for a message: the time, the tag, the text. *)
Definition log_line (w : World) (tag text : string) : string :=
  ((utcnow w ++ " [" ++ tag ++ "] ") ++ text)%string.

(** The file a logger appends to, if any. *)
Definition target (self : Logger) : option string :=
  match log_file self with
  | None | Some EmptyString => None
  | Some file => Some file
  end.

(** A world in which nothing has been logged yet. *)
Definition quiet_world : World :=
  {| utcnow := "21/03/01 12:00:00"; time := 1614600000;
     console := []; written := ∅; app_log := [] |}.

End LoggerStatements.

Section MenuStatements.

Import PyValues utils.

(** An answer that makes the numbered menu ask again: not blank, and
    not the text of one of the numbers [1 .. n]. *)
Definition rejected (n : nat) (line : string) : Prop :=
  str_strip line <> EmptyString
  /\ forall k, int_of_str (str_strip line) = Ok k -> ~ (1 <= k <= Z.of_nat n).

(** An answer that makes the menu of texts ask again: not blank, and
    not one of the options. *)
Definition refused (options : list pyval) (line : string) : Prop :=
  str_strip line <> EmptyString
  /\ existsb (fun option => eq_str option (str_strip line)) options = false.

(** [out'] is [out] followed by more text. *)
Definition extends (out out' : list string) : Prop :=
  exists printed, out' = out ++ printed.

(** The text printed before each answer is read. *)
Definition prompt (text : string) (options : list pyval) (as_number : bool)
    (stdout : list string) : list string :=
  if as_number then
    print ":" EmptyString
      (fold_left (fun out '(idx, option) =>
                    print (py_str option ++ ": " ++ str_of_int idx) newline out)
         (zip (option_idx options) options) (print text newline stdout))
  else
    print (list_repr options ++ newline ++ ":") EmptyString
      (print text newline stdout).

End MenuStatements.

(** * Verification *)

Import noise_exposures.

(** ** The runtime model on examples *)

Example round_examples :
  map (fun x => round x 2) [2.675; 0.125; 0.375; 1100; 0.005]%float
  = [2.67; 0.12; 0.38; 1100; 0.01]%float
  /\ map (fun x => round x 3) [0.9954; 0.0005; -0.0004; 1e22]%float
     = [0.995; 0.001; -0; 1e22]%float.
Proof. split; vm_compute; reflexivity. Qed.

Example float_repr_examples :
  map PyValues.float_repr
    [0.1; 10; 8.0004; 1e16; 1e-5; 1000000000000000.25; 5e-324; -2.5]%float
  = ["0.1"; "10.0"; "8.0004"; "1e+16"; "1e-05"; "1000000000000000.2";
     "5e-324"; "-2.5"]%string.
Proof. vm_compute. reflexivity. Qed.

Example float_of_str_examples :
  map PyValues.float_of_str
    [ " 1.5 "; "1_000.5"; "1e-5"; ".5"; "-inf"; "1e400"; "1_.5"; "abc";
      EmptyString ]%string
  = [Ok 1.5; Ok 1000.5; Ok 1e-5; Ok 0.5; Ok neg_infinity; Ok infinity;
     Err ValueError; Err ValueError; Err ValueError]%float.
Proof. vm_compute. reflexivity. Qed.

Example int_of_str_examples :
  map PyValues.int_of_str
    [" 12 "; "+5"; "-0"; "1_000"; "1__0"; "12a"; EmptyString]%string
  = [ Ok 12; Ok 5; Ok 0; Ok 1000;
      Err ValueError; Err ValueError; Err ValueError ].
Proof. vm_compute. reflexivity. Qed.

Example py_str_examples :
  map PyValues.py_str
    [ PyValues.VNone; PyValues.VBool true; PyValues.VInt (-17);
      PyValues.VStr "road";
      PyValues.VTuple [PyValues.VInt 3; PyValues.VInt 7];
      PyValues.VTuple [PyValues.VInt 3];
      PyValues.VDict [(PyValues.VInt 50, PyValues.VFloat 10);
                      (PyValues.VInt 55, PyValues.VFloat 3.25)];
      PyValues.VDict [(PyValues.VStr "road", PyValues.VInt 1)] ]
  = [ "None"; "True"; "-17"; "road"; "(3, 7)"; "(3,)";
      "{50: 10.0, 55: 3.25}"; "{'road': 1}" ]%string.
Proof. vm_compute. reflexivity. Qed.

(** ** Helper lemmas: exceptions and comprehensions *)

Lemma getitem_Ok {K V : Type} `{Countable K} (d : gmap K V) (k : K) (v : V) :
  d !! k = Some v -> getitem d k = Ok v.
Proof. unfold getitem. intros ->. reflexivity. Qed.

Lemma getitem_missing {K V : Type} `{Countable K} (d : gmap K V) (k : K) :
  d !! k = None -> getitem d k = Err KeyError.
Proof. unfold getitem. intros ->. reflexivity. Qed.

(** A comprehension whose body succeeds on every element is a [map]. *)
Lemma comprehension_total {A B : Type} (f : A -> result B) (g : A -> B)
    (l : list A) :
  (forall x, In x l -> f x = Ok (g x)) -> comprehension f l = Ok (map g l).
Proof.
  induction l as [|x l IH]; intros Hf; [reflexivity|].
  simpl. rewrite (Hf x) by (left; reflexivity). simpl.
  rewrite IH by (intros y Hy; apply Hf; right; exact Hy).
  reflexivity.
Qed.

(** A comprehension fails only with an exception of its body. *)
Lemma comprehension_Err {A B : Type} (f : A -> result B) (l : list A) (e : exn) :
  comprehension f l = Err e -> exists x, In x l /\ f x = Err e.
Proof.
  induction l as [|x l IH]; simpl; [discriminate|].
  destruct (f x) as [y|e'] eqn:Hx; simpl.
  - destruct (comprehension f l) as [ys|e'']; simpl; [discriminate|].
    intros [= ->]. destruct IH as (z & Hz & Hfz); [reflexivity|].
    exists z. auto.
  - intros [= ->]. exists x. auto.
Qed.

(** A comprehension whose body fails on some element fails, with an
    exception of its body. *)
Lemma comprehension_fails {A B : Type} (f : A -> result B) (l : list A)
    (x : A) (e : exn) :
  In x l -> f x = Err e ->
  exists y e', In y l /\ f y = Err e' /\ comprehension f l = Err e'.
Proof.
  induction l as [|z l IH]; intros Hin Hx; [destruct Hin|].
  simpl. destruct (f z) as [b|e0] eqn:Hz; simpl.
  - destruct Hin as [->|Hin]; [congruence|].
    destruct (IH Hin Hx) as (y & e' & Hy & Hfy & ->).
    exists y, e'. simpl. auto.
  - exists z, e0. auto.
Qed.

(** ** The noise cost model *)

Lemma db_distance_costs_KeyError (d : Noises) (t : gmap Z float) (e : exn) :
  db_distance_costs d t = Err e -> e = KeyError.
Proof.
  unfold db_distance_costs. intros He.
  apply comprehension_Err in He as ([db len] & _ & He).
  unfold getitem in He. destruct (t !! db); simpl in He; congruence.
Qed.

Lemma db_distance_costs_missing (d : Noises) (t : gmap Z float) (db : Z)
    (len : float) :
  In (db, len) d -> t !! db = None -> db_distance_costs d t = Err KeyError.
Proof.
  intros Hin Hmiss.
  destruct (comprehension_fails
              (fun '(db, length) =>
                 let* c := getitem t db in Ok (c * length)%float)
              (items d) (db, len) KeyError Hin) as (y & e' & _ & _ & Hc).
  { rewrite (getitem_missing _ _ Hmiss). reflexivity. }
  change (db_distance_costs d t = Err e') in Hc.
  rewrite Hc. f_equal. exact (db_distance_costs_KeyError _ _ _ Hc).
Qed.

Lemma db_distance_costs_total (d : Noises) (t : gmap Z float) (c : Z -> float) :
  (forall db len, In (db, len) d -> t !! db = Some (c db)) ->
  db_distance_costs d t = Ok (map (fun p => (c (fst p) * snd p)%float) d).
Proof.
  intros Hc. unfold db_distance_costs, items.
  apply comprehension_total. intros [db len] Hin. simpl.
  rewrite (getitem_Ok _ _ _ (Hc db len Hin)). reflexivity.
Qed.

Lemma get_noise_cost_coeff_KeyError (noises : option Noises)
    (t : gmap Z float) (e : exn) :
  get_noise_cost_coeff noises t = Err e -> e = KeyError.
Proof.
  destruct noises as [[|p d]|]; simpl; try discriminate.
  destruct (db_distance_costs (p :: d) t) as [costs|e'] eqn:Hc; simpl;
    [discriminate|].
  intros [= ->]. exact (db_distance_costs_KeyError _ _ _ Hc).
Qed.

(** C1 (counterexample).  For the empty exposure map and [length = 20.0]
    the edge cost raises the integrity error although the map is empty:
    the specified equivalence (raise exactly when the map is non-null,
    non-empty and off by more than 0.5) fails at this input. *)
Lemma edge_cost_empty_map_raises :
  get_noise_adjusted_edge_cost 0.5 ∅ (Some []) 20 None = Err ValueError
  /\ ~ (get_noise_adjusted_edge_cost 0.5 ∅ (Some []) 20 None = Err ValueError
        <-> nonempty (Some []) = true
            /\ (0.5 <? abs (20 - sum (values [])))%float = true).
Proof.
  split; [reflexivity|].
  intros [Hraise _]. destruct (Hraise eq_refl) as [Hne _]. discriminate Hne.
Qed.

(** C1 (amended).  [get_noise_adjusted_edge_cost] raises the integrity
    error ([ValueError]) if and only if the exposure map is not [None]
    and [abs(length - sum(map.values())) > 0.5], the sum of an empty map
    being 0.  In particular it raises for [{50: 10.0}] with
    [length = 20.0]; it never raises for a [None] map; and for an empty
    map it raises exactly when [abs(length - 0) > 0.5] and otherwise
    yields the cost of the base with a zero noise coefficient. *)
Theorem edge_cost_integrity_error :
  (forall s t noises length btc,
     get_noise_adjusted_edge_cost s t noises length btc = Err ValueError <->
     exists d, noises = Some d
               /\ (0.5 <? abs (length - sum (values d)))%float = true)
  /\ (forall s t btc,
        get_noise_adjusted_edge_cost s t (Some [(50, 10%float)]) 20 btc
        = Err ValueError)
  /\ (forall s t length btc,
        ~ raises (get_noise_adjusted_edge_cost s t None length btc))
  /\ (forall s t length btc,
        let base := match btc with
                    | Some c => if is_zero c then length else c
                    | None => length
                    end in
        get_noise_adjusted_edge_cost s t (Some []) length btc =
        if (0.5 <? abs (length - 0))%float then Err ValueError
        else Ok (round (base + base * 0 * s)%float 2)).
Proof.
  split; [|split; [|split]].
  - intros s t noises length btc. unfold get_noise_adjusted_edge_cost. split.
    + destruct noises as [d|].
      * destruct (0.5 <? abs (length - sum (values d)))%float eqn:Hm.
        -- intros _. exists d. auto.
        -- destruct (get_noise_cost_coeff (Some d) t) as [c|e] eqn:Hc; simpl;
             [discriminate|].
           intros [= ->]. apply get_noise_cost_coeff_KeyError in Hc.
           discriminate Hc.
      * discriminate.
    + intros (d & -> & ->). reflexivity.
  - intros s t btc. reflexivity.
  - intros s t length btc [e He]. discriminate He.
  - intros s t length btc. unfold get_noise_adjusted_edge_cost. simpl.
    change (sum []) with 0%float.
    destruct (0.5 <? abs (length - 0))%float; [reflexivity|].
    unfold truthy. destruct btc as [c|]; [destruct (is_zero c)|]; reflexivity.
Qed.

(** C4.  For every sensitivity [s] and a [None] exposure map the edge
    cost is [round(base + base*100*s, 2)], where [base] is the bike time
    cost when one is supplied and is not zero, and [length] when it is
    zero or absent; in particular the cost for [s = 0.1],
    [length = 100] and no override is [1100.0]. *)
Theorem edge_cost_no_data :
  (forall s t length c, is_zero c = false ->
     get_noise_adjusted_edge_cost s t None length (Some c)
     = Ok (round (c + c * 100 * s)%float 2))
  /\ (forall s t length c, is_zero c = true ->
        get_noise_adjusted_edge_cost s t None length (Some c)
        = Ok (round (length + length * 100 * s)%float 2))
  /\ (forall s t length,
        get_noise_adjusted_edge_cost s t None length None
        = Ok (round (length + length * 100 * s)%float 2))
  /\ (forall t, get_noise_adjusted_edge_cost 0.1 t None 100 None = Ok 1100%float).
Proof.
  unfold get_noise_adjusted_edge_cost, truthy. repeat split.
  - intros s t length c ->. reflexivity.
  - intros s t length c ->. reflexivity.
Qed.

(** The two cases with a bike time cost, on concrete costs. *)
Lemma edge_cost_no_data_witness :
  get_noise_adjusted_edge_cost 0.1 ∅ None 100 (Some 2.5%float)
  = Ok (round (2.5 + 2.5 * 100 * 0.1)%float 2)
  /\ get_noise_adjusted_edge_cost 0.1 ∅ None 100 (Some 0%float)
     = Ok (round (100 + 100 * 100 * 0.1)%float 2).
Proof.
  split.
  - apply (proj1 edge_cost_no_data). reflexivity.
  - apply (proj1 (proj2 edge_cost_no_data)). reflexivity.
Defined.

(** ** The dB cost table *)

Lemma foldl_insert_lookup (f : Z -> float) (l : list Z) (m : gmap Z float)
    (db : Z) :
  foldl (fun d k => <[k := f k]> d) m l !! db
  = if bool_decide (db ∈ l) then Some (f db) else m !! db.
Proof.
  revert m. induction l as [|x l IH]; intros m; cbn [foldl].
  - case_bool_decide as Hin; [by apply elem_of_nil in Hin | reflexivity].
  - rewrite IH. destruct (decide (db = x)) as [->|Hne].
    + rewrite lookup_insert_eq.
      rewrite (bool_decide_eq_true_2 (x ∈ x :: l)) by (by left).
      by case_bool_decide.
    + rewrite lookup_insert_ne by congruence.
      case_bool_decide as Hl.
      * rewrite bool_decide_eq_true_2; [reflexivity | by right].
      * rewrite bool_decide_eq_false_2; [reflexivity|].
        intros [?|?]%elem_of_cons; contradiction.
Qed.

(** A dict comprehension over [range(40, 80)] has exactly the keys
    40..79, each mapped to the value of the body at that key. *)
Lemma dict_comprehension_range (f : Z -> float) (db : Z) :
  dict_comprehension f (range 40 80) !! db
  = if bool_decide (40 <= db <= 79) then Some (f db) else None.
Proof.
  unfold dict_comprehension. rewrite foldl_insert_lookup, lookup_empty.
  unfold range. destruct (bool_decide (40 <= db <= 79)) eqn:Hr.
  - apply bool_decide_eq_true in Hr.
    rewrite bool_decide_eq_true_2; [reflexivity | apply elem_of_seqZ; lia].
  - apply bool_decide_eq_false in Hr.
    rewrite bool_decide_eq_false_2; [reflexivity|].
    rewrite elem_of_seqZ. lia.
Qed.

Lemma in_seqZ_45_35 (db : Z) : 45 <= db <= 79 -> In db (seqZ 45 35).
Proof. intros H. apply list_elem_of_In, elem_of_seqZ. lia. Qed.

Lemma pow10_reference_covers (db : Z) :
  45 <= db <= 79 -> exists r, Libm.pow10_reference db = Some r.
Proof.
  intros H. unfold Libm.pow10_reference.
  replace (45 <=? db) with true by (symmetry; apply Z.leb_le; lia).
  apply lookup_lt_is_Some. change (length Libm.pow10_values) with 35%nat. lia.
Qed.

Lemma ordered_pairs_ok_spec (tbl : list (Z * list float)) (a b : Z)
    (xs ys : list float) (x y : float) :
  ordered_pairs_ok tbl = true ->
  In (a, xs) tbl -> In (b, ys) tbl -> a <= b -> In x xs -> In y ys ->
  (x <=? y)%float = true.
Proof.
  unfold ordered_pairs_ok. intros Hall Ha Hb Hab Hx Hy.
  rewrite forallb_forall in Hall. specialize (Hall _ Ha).
  rewrite forallb_forall in Hall. specialize (Hall _ Hb).
  cbn [fst snd] in Hall.
  replace (a <=? b) with true in Hall by (symmetry; apply Z.leb_le; lia).
  cbn [implb] in Hall.
  rewrite forallb_forall in Hall. specialize (Hall _ Hx).
  rewrite forallb_forall in Hall. exact (Hall _ Hy).
Qed.

Lemma in_table_45_79 (c : Z -> list float) (db : Z) :
  45 <= db <= 79 -> In (db, c db) (map (fun k => (k, c k)) (seqZ 45 35)).
Proof.
  intros H. apply (in_map (fun k => (k, c k))).
  apply list_elem_of_In, elem_of_seqZ. lia.
Qed.

(** The linear table is non-decreasing over 45..79 (by evaluation). *)
Lemma calc_db_cost_v2_monotone (a b : Z) :
  45 <= a -> a <= b -> b <= 79 ->
  (calc_db_cost_v2 a <=? calc_db_cost_v2 b)%float = true.
Proof.
  intros Ha Hab Hb.
  apply (ordered_pairs_ok_spec
           (map (fun k => (k, [calc_db_cost_v2 k])) (seqZ 45 35))
           a b [calc_db_cost_v2 a] [calc_db_cost_v2 b]).
  - vm_compute. reflexivity.
  - apply (in_table_45_79 (fun k => [calc_db_cost_v2 k])). lia.
  - apply (in_table_45_79 (fun k => [calc_db_cost_v2 k])). lia.
  - exact Hab.
  - left. reflexivity.
  - left. reflexivity.
Qed.

(** Whatever an accurate libm returns at two of the table's exponents,
    the rounded costs are ordered like the dB values (by evaluation over
    all candidate results). *)
Lemma v3_candidates_monotone (a b : Z) (x y : float) :
  45 <= a -> a <= b -> b <= 79 ->
  In x (v3_candidates a) -> In y (v3_candidates b) ->
  (x <=? y)%float = true.
Proof.
  intros Ha Hab Hb Hx Hy.
  apply (ordered_pairs_ok_spec
           (map (fun k => (k, v3_candidates k)) (seqZ 45 35))
           a b (v3_candidates a) (v3_candidates b)); try assumption.
  - vm_compute. reflexivity.
  - apply (in_table_45_79 v3_candidates). lia.
  - apply (in_table_45_79 v3_candidates). lia.
Qed.

Lemma v3_candidates_accurate (pow : float -> float -> float) (db : Z) :
  Libm.accurate_pow10 pow -> 45 <= db <= 79 ->
  In (calc_db_cost_v3 pow db) (v3_candidates db).
Proof.
  intros Hpow Hdb. unfold calc_db_cost_v3, v3_candidates.
  replace (db <=? 44) with false by (symmetry; apply Z.leb_gt; lia).
  destruct (pow10_reference_covers db Hdb) as [r Hr]. rewrite Hr.
  apply (in_map (fun p => round (p / 100)%float 3)).
  exact (Hpow db r Hr).
Qed.

Lemma calc_db_cost_v3_monotone (pow : float -> float -> float) (a b : Z) :
  Libm.accurate_pow10 pow -> 45 <= a -> a <= b -> b <= 79 ->
  (calc_db_cost_v3 pow a <=? calc_db_cost_v3 pow b)%float = true.
Proof.
  intros Hpow Ha Hab Hb.
  apply (v3_candidates_monotone a b); try assumption.
  - apply v3_candidates_accurate; [assumption | lia].
  - apply v3_candidates_accurate; [assumption | lia].
Qed.

(** The reference [pow] is accurate: it returns the nearest float. *)
Lemma reference_pow_accurate : Libm.accurate_pow10 Libm.reference_pow.
Proof.
  intros db r Hr.
  assert (Hdb : 45 <= db <= 79).
  { unfold Libm.pow10_reference in Hr.
    destruct (45 <=? db) eqn:Hlo; [|discriminate].
    apply Z.leb_le in Hlo. apply lookup_lt_Some in Hr.
    change (length Libm.pow10_values) with 35%nat in Hr. lia. }
  apply in_seqZ_45_35 in Hdb. vm_compute in Hdb.
  repeat (destruct Hdb as [<-|Hdb];
          [vm_compute in Hr; injection Hr as <-; vm_compute; tauto|]).
  destruct Hdb.
Qed.

Lemma dict_comprehension_is_cost_table (f cost : Z -> float) :
  (forall db, db <= 44 -> f db = 0%float) ->
  (forall db, 45 <= db -> f db = cost db) ->
  (forall a b, 45 <= a -> a <= b -> b <= 79 -> (f a <=? f b)%float = true) ->
  is_cost_table (dict_comprehension f (range 40 80)) cost.
Proof.
  intros Hlow Hhigh Hmono. unfold is_cost_table.
  split; [|split; [|split; [|split]]].
  - intros db. rewrite dict_comprehension_range.
    case_bool_decide as Hr; split; intros H.
    + exact Hr.
    + eexists. reflexivity.
    + destruct H as [x Hx]. discriminate Hx.
    + contradiction.
  - intros db Hdb. rewrite dict_comprehension_range.
    rewrite bool_decide_eq_true_2 by lia. rewrite Hlow by lia. reflexivity.
  - intros db Hdb. rewrite dict_comprehension_range.
    rewrite bool_decide_eq_true_2 by lia. rewrite Hhigh by lia. reflexivity.
  - rewrite dict_comprehension_range.
    rewrite bool_decide_eq_true_2 by lia. rewrite Hlow by lia. reflexivity.
  - intros a b x y Ha Hab Hb. rewrite !dict_comprehension_range.
    rewrite !bool_decide_eq_true_2 by lia.
    intros [= <-] [= <-]. apply Hmono; assumption.
Qed.

(** C6.  For an accurate libm, [get_db_costs(2)] and [get_db_costs(3)]
    each return a table whose keys are exactly 40..79 and whose value is
    0 for every dB up to 44 (so also at 44); from 45 dB on the version-2
    value is [round((db - 40) / (75 - 40), 3)] and the version-3 value is
    [round(pow(10, 0.3 * db / 10) / 100, 3)]; both tables are
    non-decreasing in dB over 45..79. *)
Theorem db_cost_table_spec (pow : float -> float -> float) :
  Libm.accurate_pow10 pow ->
  (exists table,
     get_db_costs pow 2 = Ok table
     /\ is_cost_table table
          (fun db => round (int_truediv (db - 40) (75 - 40)) 3))
  /\ (exists table,
        get_db_costs pow 3 = Ok table
        /\ is_cost_table table
             (fun db =>
                round (pow 10 (0.3 * float_of_int db / 10) / 100)%float 3)).
Proof.
  intros Hpow. split.
  - eexists. split; [reflexivity|].
    apply dict_comprehension_is_cost_table.
    + intros db Hdb. unfold calc_db_cost_v2.
      replace (db <=? 44) with true by (symmetry; apply Z.leb_le; lia).
      reflexivity.
    + intros db Hdb. unfold calc_db_cost_v2.
      replace (db <=? 44) with false by (symmetry; apply Z.leb_gt; lia).
      reflexivity.
    + apply calc_db_cost_v2_monotone.
  - eexists. split; [reflexivity|].
    apply dict_comprehension_is_cost_table.
    + intros db Hdb. unfold calc_db_cost_v3.
      replace (db <=? 44) with true by (symmetry; apply Z.leb_le; lia).
      reflexivity.
    + intros db Hdb. unfold calc_db_cost_v3.
      replace (db <=? 44) with false by (symmetry; apply Z.leb_gt; lia).
      reflexivity.
    + intros a b. apply calc_db_cost_v3_monotone. exact Hpow.
Qed.

(** The tables of a libm that rounds correctly. *)
Lemma db_cost_table_witness :
  (exists table,
     get_db_costs Libm.reference_pow 2 = Ok table
     /\ is_cost_table table
          (fun db => round (int_truediv (db - 40) (75 - 40)) 3))
  /\ (exists table,
        get_db_costs Libm.reference_pow 3 = Ok table
        /\ is_cost_table table
             (fun db =>
                round (Libm.reference_pow 10 (0.3 * float_of_int db / 10) / 100)%float 3)).
Proof.
  apply (db_cost_table_spec Libm.reference_pow). exact reference_pow_accurate.
Defined.

(** ** The noise cost coefficient *)

Lemma get_noise_cost_coeff_weighted_mean (d : Noises) (t : gmap Z float)
    (c : Z -> float) :
  d <> [] ->
  (forall db len, In (db, len) d -> t !! db = Some (c db)) ->
  get_noise_cost_coeff (Some d) t
  = Ok (if is_zero (sum (values d)) then 0%float
        else round (sum (map (fun p => (c (fst p) * snd p)%float) d)
                    / sum (values d))%float 3).
Proof.
  intros Hne Hc. destruct d as [|p d]; [contradiction|].
  unfold get_noise_cost_coeff.
  rewrite (db_distance_costs_total _ _ c Hc).
  unfold Py.bind, truthy.
  destruct (is_zero (sum (values (p :: d)))); reflexivity.
Qed.

(** The scenario of the specification, for any [pow]: the version-3
    table has the keys 40 and 60 and the edge cost is the formula over
    their values. *)
Lemma edge_cost_scenario_formula (pow : float -> float -> float) :
  exists table t40 t60,
    get_db_costs pow 3 = Ok table
    /\ table !! 40 = Some t40 /\ table !! 60 = Some t60
    /\ get_noise_adjusted_edge_cost 0.5 table
         (Some [(40, 5%float); (60, 15%float)]) 20 None
       = Ok (round (20 + 20 * round ((t40 * 5 + t60 * 15) / 20) 3 * 0.5)%float 2).
Proof.
  exists (dict_comprehension (calc_db_cost_v3 pow) (range 40 80)),
         0%float, (calc_db_cost_v3 pow 60).
  assert (H40 : dict_comprehension (calc_db_cost_v3 pow) (range 40 80) !! 40
                = Some 0%float)
    by (rewrite dict_comprehension_range; reflexivity).
  assert (H60 : dict_comprehension (calc_db_cost_v3 pow) (range 40 80) !! 60
                = Some (calc_db_cost_v3 pow 60))
    by (rewrite dict_comprehension_range; reflexivity).
  split; [reflexivity|]. split; [exact H40|]. split; [exact H60|].
  unfold get_noise_adjusted_edge_cost.
  replace (0.5 <? abs (20 - sum (values [(40%Z, 5); (60%Z, 15)])))%float
    with false by reflexivity.
  rewrite (get_noise_cost_coeff_weighted_mean _ _
             (fun db => if db =? 40 then 0%float else calc_db_cost_v3 pow 60)).
  - generalize (calc_db_cost_v3 pow 60). intros t60.
    unfold Py.bind.
    replace (is_zero (sum (values [(40%Z, 5%float); (60%Z, 15%float)])))
      with false by reflexivity.
    replace (sum (values [(40%Z, 5%float); (60%Z, 15%float)]))
      with 20%float by reflexivity.
    change (sum (map _ _)) with (0 + 0 * 5 + t60 * 15)%float.
    replace (0 + 0 * 5)%float with (0 * 5)%float by reflexivity.
    reflexivity.
  - discriminate.
  - intros db len [[= <- <-]|[[= <- <-]|[]]]; assumption.
Qed.

(** C5.  [get_noise_cost_coeff] returns 0 for a [None] or empty map;
    for a non-empty map whose dB keys are all in the cost table it
    returns the length-weighted mean
    [round(sum(table[dB] * len) / sum(len), 3)], and 0 when the total
    exposed length [sum(len)] is zero.  Consequently, with the version-3
    table, the edge cost for sensitivity 0.5, exposures
    [{40: 5.0, 60: 15.0}], length 20.0 and no bike time cost is
    [round(20 + 20 * round((table[40]*5 + table[60]*15) / 20, 3) * 0.5, 2)]. *)
Theorem noise_cost_coeff_spec :
  (forall t, get_noise_cost_coeff None t = Ok 0%float
             /\ get_noise_cost_coeff (Some []) t = Ok 0%float)
  /\ (forall d t c,
        d <> [] ->
        (forall db len, In (db, len) d -> t !! db = Some (c db)) ->
        let weighted := sum (map (fun p => (c (fst p) * snd p)%float) d) in
        let total := sum (values d) in
        get_noise_cost_coeff (Some d) t
        = Ok (if is_zero total then 0%float
              else round (weighted / total)%float 3))
  /\ (forall pow, exists table t40 t60,
        get_db_costs pow 3 = Ok table
        /\ table !! 40 = Some t40 /\ table !! 60 = Some t60
        /\ get_noise_adjusted_edge_cost 0.5 table
             (Some [(40, 5%float); (60, 15%float)]) 20 None
           = Ok (round (20 + 20 * round ((t40 * 5 + t60 * 15) / 20) 3 * 0.5)%float 2)).
Proof.
  split; [|split].
  - intros t. split; reflexivity.
  - intros d t c Hne Hc. exact (get_noise_cost_coeff_weighted_mean d t c Hne Hc).
  - exact edge_cost_scenario_formula.
Qed.

(** The weighted mean of a one-entry map. *)
Lemma noise_cost_coeff_witness :
  let d : Noises := [(50, 10%float)] in
  let t : gmap Z float := {[ 50 := 0.5%float ]} in
  get_noise_cost_coeff (Some d) t
  = Ok (if is_zero (sum (values d)) then 0%float
        else round (sum (map (fun p => (0.5 * snd p)%float) d)
                    / sum (values d))%float 3).
Proof.
  intros d t.
  apply (proj1 (proj2 noise_cost_coeff_spec) d t (fun _ => 0.5%float)).
  - discriminate.
  - intros db len [[= <- <-]|[]]. reflexivity.
Defined.

(** ** Invalid arguments *)

(** C7.  [get_db_costs] raises [ValueError] for every version other than
    2 and 3.  Whenever the exposure map holds a dB key that is absent
    from the cost table, [get_noise_cost_coeff] and
    [get_noise_exposure_index] raise [KeyError] and
    [get_noise_adjusted_edge_cost] raises as well (no clamped or default
    result); every dB outside 40..79 is absent from a table built by
    [get_db_costs]. *)
Theorem invalid_arguments_raise :
  (forall pow version, version <> 2 -> version <> 3 ->
     get_db_costs pow version = Err ValueError)
  /\ (forall d t db len, In (db, len) d -> t !! db = None ->
        get_noise_cost_coeff (Some d) t = Err KeyError
        /\ get_noise_exposure_index (Some d) t = Err KeyError
        /\ forall s length btc,
             raises (get_noise_adjusted_edge_cost s t (Some d) length btc))
  /\ (forall pow version table db,
        get_db_costs pow version = Ok table -> ~ (40 <= db <= 79) ->
        table !! db = None).
Proof.
  split; [|split].
  - intros pow version H2 H3. unfold get_db_costs.
    destruct (version =? 2) eqn:E2; [apply Z.eqb_eq in E2; contradiction|].
    destruct (version =? 3) eqn:E3; [apply Z.eqb_eq in E3; contradiction|].
    reflexivity.
  - intros d t db len Hin Hmiss.
    pose proof (db_distance_costs_missing d t db len Hin Hmiss) as Hc.
    assert (Hcoeff : get_noise_cost_coeff (Some d) t = Err KeyError).
    { destruct d as [|p d]; [destruct Hin|].
      unfold get_noise_cost_coeff. rewrite Hc. reflexivity. }
    split; [exact Hcoeff|]. split.
    + destruct d as [|p d]; [destruct Hin|].
      unfold get_noise_exposure_index. rewrite Hc. reflexivity.
    + intros s length btc. unfold get_noise_adjusted_edge_cost.
      destruct (0.5 <? abs (length - sum (values d)))%float.
      * exists ValueError. reflexivity.
      * rewrite Hcoeff. exists KeyError. reflexivity.
  - intros pow version table db Ht Hout. unfold get_db_costs in Ht.
    destruct (version =? 2); [|destruct (version =? 3); [|discriminate]];
      injection Ht as <-; rewrite dict_comprehension_range;
      rewrite bool_decide_eq_false_2 by exact Hout; reflexivity.
Qed.

(** Version 4, the key 30 against an empty table, and a lookup at 80. *)
Lemma invalid_arguments_witness :
  get_db_costs Libm.reference_pow 4 = Err ValueError
  /\ (get_noise_cost_coeff (Some [(30, 1%float)]) ∅ = Err KeyError
      /\ get_noise_exposure_index (Some [(30, 1%float)]) ∅ = Err KeyError
      /\ forall s length btc,
           raises (get_noise_adjusted_edge_cost s ∅ (Some [(30, 1%float)])
                     length btc))
  /\ dict_comprehension calc_db_cost_v2 (range 40 80) !! 80 = None.
Proof.
  split; [|split].
  - apply (proj1 invalid_arguments_raise); lia.
  - apply (proj1 (proj2 invalid_arguments_raise) [(30, 1%float)] ∅ 30 1%float).
    + left. reflexivity.
    + reflexivity.
  - apply (proj2 (proj2 invalid_arguments_raise) Libm.reference_pow 2).
    + reflexivity.
    + lia.
Defined.

(** ** Filling the 40 dB gap *)

Lemma contains_spec (k : Z) (d : Noises) :
  contains k d = true <-> k ∈ keys d.
Proof.
  unfold contains. rewrite existsb_exists. split.
  - intros (x & Hx & ->%Z.eqb_eq). by apply list_elem_of_In.
  - intros Hk. exists k. split; [by apply list_elem_of_In | apply Z.eqb_refl].
Qed.

Lemma setitem_fresh (k : Z) (v : float) (d : Noises) :
  k ∉ keys d -> setitem k v d = d ++ [(k, v)].
Proof.
  induction d as [|[k' v'] d IH]; intros Hk; [reflexivity|].
  simpl in *. apply not_elem_of_cons in Hk as [Hne Hk].
  replace (k =? k') with false by (symmetry; apply Z.eqb_neq; exact Hne).
  by rewrite IH.
Qed.

Lemma fold_setitem_fresh (d acc : Noises) :
  NoDup (keys d) ->
  (forall k, k ∈ keys d -> k ∉ keys acc) ->
  fold_left (fun a kv => setitem (fst kv) (snd kv) a) d acc = acc ++ d.
Proof.
  revert acc. induction d as [|[k v] d IH]; intros acc Hnd Hfresh.
  - by rewrite app_nil_r.
  - simpl in *. apply NoDup_cons in Hnd as [Hk Hnd].
    rewrite setitem_fresh by (apply Hfresh; by left).
    rewrite IH; [by rewrite <- app_assoc | exact Hnd |].
    intros k' Hk'. unfold keys. rewrite map_app. simpl.
    rewrite elem_of_app, list_elem_of_singleton.
    intros [Hacc | ->]; [|contradiction].
    revert Hacc. apply Hfresh. by right.
Qed.

(** [{k: v, **d}] puts the new entry first when [k] is not a key of [d]. *)
Lemma dict_display_fresh (k : Z) (v : float) (d : Noises) :
  NoDup (keys d) -> k ∉ keys d -> dict_display k v d = (k, v) :: d.
Proof.
  intros Hnd Hk. unfold dict_display, items.
  rewrite fold_setitem_fresh; [reflexivity | exact Hnd |].
  intros k' Hk'. simpl. rewrite list_elem_of_singleton. by intros ->.
Qed.

(** C8 (counterexample).  For [{50: 8.0004}] and [length = 10.005] the
    remainder [round(length - sum(map.values()), 2)] of the
    specification is [2.0], but the function inserts [2.01] under key
    40: it subtracts the total already rounded to 3 decimals. *)
Lemma gap_fill_rounds_total_first :
  let d : Noises := [(50, 8.0004%float)] in
  let length := 10.005%float in
  let remainder := round (length - sum (values d))%float 2 in
  add_db_40_exp_to_noises (Some d) length
  <> Some (if is_zero remainder then d else (40, remainder) :: d).
Proof.
  intros d length remainder. vm_compute. intros H. discriminate H.
Qed.

(** C8 (amended).  [add_db_40_exp_to_noises] returns the map unchanged
    when the map is [None], [length] is zero, or key 40 is present.
    Otherwise, with [total = round(sum(map.values()), 3)] ([0] for an
    empty map) and [remainder = round(length - total, 2)], it returns the
    map unchanged if the remainder is zero and otherwise the map with
    key 40 mapped to the remainder placed first, before the existing
    entries; in particular [{50: 8.0}] with [length = 10.0] gives
    [{40: 2.0, 50: 8.0}]. *)
Theorem gap_fill_spec :
  (forall length, add_db_40_exp_to_noises None length = None)
  /\ (forall d length, is_zero length = true \/ 40 ∈ keys d ->
        add_db_40_exp_to_noises (Some d) length = Some d)
  /\ (forall d length,
        NoDup (keys d) -> is_zero length = false -> 40 ∉ keys d ->
        let total := match d with
                     | [] => 0%float
                     | _ :: _ => round (sum (values d)) 3
                     end in
        let remainder := round (length - total)%float 2 in
        add_db_40_exp_to_noises (Some d) length
        = Some (if is_zero remainder then d else (40, remainder) :: d))
  /\ add_db_40_exp_to_noises (Some [(50, 8%float)]) 10
     = Some [(40, 2%float); (50, 8%float)].
Proof.
  split; [|split; [|split]].
  - reflexivity.
  - intros d length [Hz | H40]; unfold add_db_40_exp_to_noises, truthy.
    + rewrite Hz. reflexivity.
    + apply contains_spec in H40. rewrite H40, orb_true_r. reflexivity.
  - intros d length Hnd Hz H40 total remainder.
    unfold add_db_40_exp_to_noises, truthy. rewrite Hz.
    destruct (contains 40 d) eqn:Hc; [apply contains_spec in Hc; contradiction|].
    cbn [negb orb].
    assert (Htotal : (if nonempty (Some d) then get_total_noises_len (Some d)
                      else 0%float) = total)
      by (destruct d; reflexivity).
    rewrite Htotal. fold remainder.
    destruct (is_zero remainder); cbn [negb]; [reflexivity|].
    rewrite dict_display_fresh by assumption. reflexivity.
  - reflexivity.
Qed.

(** A map that already has key 40, and the gap fill of [{50: 8.0}]. *)
Lemma gap_fill_witness :
  add_db_40_exp_to_noises (Some [(40, 1%float)]) 3 = Some [(40, 1%float)]
  /\ (let d : Noises := [(50, 8%float)] in
      let total := round (sum (values d)) 3 in
      let remainder := round (10 - total)%float 2 in
      add_db_40_exp_to_noises (Some d) 10
      = Some (if is_zero remainder then d else (40, remainder) :: d)).
Proof.
  split.
  - apply (proj1 (proj2 gap_fill_spec)). right. simpl. by left.
  - apply (proj1 (proj2 (proj2 gap_fill_spec)) [(50, 8%float)] 10%float).
    + simpl. apply NoDup_singleton.
    + reflexivity.
    + simpl. rewrite list_elem_of_singleton. discriminate.
Defined.

(** ** The attribute codec: integers *)

Import PyValues igraph.

Section DecimalText.

Import Decimal DecimalString.

Ltac by_digit u IH :=
  induction u as [|u IH|u IH|u IH|u IH|u IH|u IH|u IH|u IH|u IH|u IH].

Lemma digits_to_uint_printed (u : uint) :
  digits_to_uint (uint_chars u) true = Some u.
Proof.
  unfold uint_chars. by_digit u IH; [reflexivity|..];
    cbn [NilEmpty.string_of_uint chars list_ascii_of_string digits_to_uint
         Ascii.eqb Bool.eqb digit_of_char];
    unfold chars in IH; rewrite IH; reflexivity.
Qed.

Lemma digits_to_uint_printed_nonnil (u : uint) :
  u <> Nil -> digits_to_uint (uint_chars u) false = Some u.
Proof.
  intros Hu.
  destruct u as [|u|u|u|u|u|u|u|u|u|u]; [contradiction|..];
    pose proof (digits_to_uint_printed u) as H;
    unfold uint_chars, chars in *;
    cbn [NilEmpty.string_of_uint list_ascii_of_string digits_to_uint
         Ascii.eqb Bool.eqb digit_of_char];
    rewrite H; reflexivity.
Qed.

Lemma digits_low (u : uint) : forallb is_low (uint_chars u) = true.
Proof.
  unfold uint_chars. by_digit u IH; [reflexivity|..];
    cbn [NilEmpty.string_of_uint chars list_ascii_of_string forallb];
    unfold chars in IH; rewrite IH; reflexivity.
Qed.

Lemma digits_rstrip (u : uint) : rstrip (uint_chars u) = uint_chars u.
Proof.
  unfold uint_chars. by_digit u IH; [reflexivity|..];
    cbn [NilEmpty.string_of_uint chars list_ascii_of_string rstrip];
    unfold chars in IH; rewrite IH;
    destruct (list_ascii_of_string (NilEmpty.string_of_uint u)); reflexivity.
Qed.

Lemma digits_nonempty (u : uint) : u <> Nil -> uint_chars u <> [].
Proof. intros Hu. destruct u; [contradiction|..]; discriminate. Qed.

Lemma digits_lstrip (u : uint) : lstrip (uint_chars u) = uint_chars u.
Proof. destruct u; reflexivity. Qed.

Lemma digits_unsigned (u : uint) :
  match uint_chars u with
  | "-"%char :: b => (true, b)
  | "+"%char :: b => (false, b)
  | _ => (false, uint_chars u)
  end = (false, uint_chars u).
Proof. destruct u; reflexivity. Qed.

(** [int] reads back what [str] prints for an integer. *)
Lemma int_of_str_of_int (z : Z) : int_of_str (str_of_int z) = Ok z.
Proof.
  destruct z as [|p|p]; [reflexivity|..].
  - assert (Hu := DecimalPos.Unsigned.to_uint_nonnil p).
    assert (Hz := DecimalZ.of_to (Zpos p)).
    unfold str_of_int, int_of_str. cbn [Z.to_int NilZero.string_of_int] in *.
    revert Hu Hz. generalize (Pos.to_uint p). intros u Hu Hz.
    replace (NilZero.string_of_uint u) with (NilEmpty.string_of_uint u)
      by (destruct u; [contradiction|..]; reflexivity).
    change (chars (NilEmpty.string_of_uint u)) with (uint_chars u).
    unfold to_ascii, strip. rewrite digits_low, digits_lstrip, digits_rstrip.
    rewrite digits_unsigned, (digits_to_uint_printed_nonnil u Hu), Hz.
    reflexivity.
  - assert (Hu := DecimalPos.Unsigned.to_uint_nonnil p).
    assert (Hz := DecimalZ.of_to (Zneg p)).
    unfold str_of_int, int_of_str. cbn [Z.to_int NilZero.string_of_int] in *.
    revert Hu Hz. generalize (Pos.to_uint p). intros u Hu Hz.
    replace (NilZero.string_of_uint u) with (NilEmpty.string_of_uint u)
      by (destruct u; [contradiction|..]; reflexivity).
    change (chars (String "-" (NilEmpty.string_of_uint u)))
      with ("-"%char :: uint_chars u).
    unfold to_ascii, strip.
    cbn [forallb]. rewrite digits_low.
    change (is_low "-" && true) with true. cbv iota.
    change (lstrip ("-"%char :: uint_chars u)) with ("-"%char :: uint_chars u).
    cbn [rstrip]. rewrite digits_rstrip.
    pose proof (digits_nonempty u Hu) as Hne.
    destruct (uint_chars u) as [|c l] eqn:Hd; [contradiction|].
    rewrite <- Hd, (digits_to_uint_printed_nonnil u Hu), Hz. reflexivity.
Qed.

End DecimalText.

(** ** The attribute codec: encoding and decoding *)












(** ** Export works on a copy *)

Section Frame.

Context {A B : Type}.

Lemma writes_only_ret (gc : loc) (a : A) : writes_only gc (ret a).
Proof. intros s r s' [= _ <-] l _. reflexivity. Qed.

Lemma writes_only_lift (gc : loc) (r : result A) : writes_only gc (lift r).
Proof. intros s r' s' [= _ <-] l _. reflexivity. Qed.

Lemma writes_only_mbind (gc : loc) (m : M A) (k : A -> M B) :
  writes_only gc m -> (forall a, writes_only gc (k a)) ->
  writes_only gc (mbind m k).
Proof.
  intros Hm Hk s r s' Hrun l Hl. unfold mbind in Hrun.
  destruct (m s) as [[a|e] s1] eqn:Hms.
  - rewrite (Hk a s1 r s' Hrun l Hl). exact (Hm s _ s1 Hms l Hl).
  - injection Hrun as _ <-. exact (Hm s _ s1 Hms l Hl).
Qed.

End Frame.

Lemma writes_only_load (gc g : loc) : writes_only gc (load g).
Proof.
  intros s r s' Hrun l _. unfold load in Hrun.
  destruct (heap s !! g); injection Hrun as _ <-; reflexivity.
Qed.

Lemma writes_only_store (gc : loc) (G : Graph) : writes_only gc (store gc G).
Proof.
  intros s r s' [= _ <-] l Hl. simpl. apply lookup_insert_ne. congruence.
Qed.

Lemma writes_only_for_each {A : Type} (gc : loc) (l : list A)
    (body : A -> M unit) :
  (forall x, writes_only gc (body x)) -> writes_only gc (for_each l body).
Proof.
  intros Hbody. induction l as [|x l IH]; simpl.
  - apply writes_only_ret.
  - apply writes_only_mbind; [apply Hbody | intros _; exact IH].
Qed.

Lemma writes_only_stringify (k : Seq) (gc : loc) (attr : string) :
  writes_only gc (stringify k gc attr).
Proof.
  unfold stringify.
  apply writes_only_mbind; [apply writes_only_load | intros G].
  apply writes_only_mbind; [apply writes_only_lift | intros column].
  apply writes_only_store.
Qed.

Lemma writes_only_stringify_if_present (k : Seq) (gc : loc) (attr : string) :
  writes_only gc (stringify_if_present k gc attr).
Proof.
  unfold stringify_if_present.
  apply writes_only_mbind; [apply writes_only_load | intros G].
  apply writes_only_mbind; [apply writes_only_lift | intros attrs].
  case_bool_decide; [apply writes_only_stringify | apply writes_only_ret].
Qed.

Lemma writes_only_delete_attribute (k : Seq) (gc : loc) (attr : string) :
  writes_only gc (delete_attribute k gc attr).
Proof.
  unfold delete_attribute.
  apply writes_only_mbind; [apply writes_only_load | intros G].
  apply writes_only_mbind; [apply writes_only_lift | intros G'].
  apply writes_only_store.
Qed.

Lemma writes_only_export_attributes (k : Seq) (g gc : loc)
    (registry selected : list string) :
  writes_only gc (export_attributes k g gc registry selected).
Proof.
  unfold export_attributes. destruct selected as [|a selected].
  - apply writes_only_for_each. intros attr.
    apply writes_only_stringify_if_present.
  - apply writes_only_mbind.
    + apply writes_only_for_each. intros attr. apply writes_only_stringify.
    + intros _. apply writes_only_mbind; [apply writes_only_load | intros G].
      apply writes_only_for_each. intros attr.
      case_bool_decide;
        [apply writes_only_delete_attribute | apply writes_only_ret].
Qed.

Lemma writes_only_save (writable : string -> bool) (gc g : loc)
    (graph_file : string) :
  writes_only gc (save writable g graph_file).
Proof.
  unfold save. apply writes_only_mbind; [apply writes_only_load | intros G].
  intros s r s' Hrun l _.
  destruct (writable graph_file); injection Hrun as _ <-; reflexivity.
Qed.

Lemma writes_only_log_info (gc : loc) (text : string) :
  writes_only gc (log_info text).
Proof. intros s r s' [= _ <-] l _. reflexivity. Qed.

(** [G.copy()] allocates an object that did not exist and changes no
    existing one. *)
Lemma copy_fresh (g : loc) (s : State) (r : result loc) (s' : State) :
  copy g s = (r, s') ->
  (forall l, is_Some (heap s !! l) -> heap s' !! l = heap s !! l)
  /\ (forall gc, r = Ok gc -> heap s !! gc = None).
Proof.
  unfold copy, mbind, load. destruct (heap s !! g) as [G|] eqn:Hg.
  - intros [= <- <-]. simpl.
    assert (Hfresh : heap s !! fresh (dom (heap s)) = None)
      by (apply not_elem_of_dom, is_fresh).
    split.
    + intros l [G' Hl]. apply lookup_insert_ne. congruence.
    + intros gc [= <-]. exact Hfresh.
  - intros [= <- <-]. split; [reflexivity | discriminate].
Qed.

(** C3.  [export_to_graphml] leaves the caller's graph unchanged: after
    the call, whether it returns or raises, the object [g] (and every
    other graph object that existed) holds the same graph, structure and
    node and edge attribute values, as before. *)
Theorem export_leaves_graph_unchanged (writable : string -> bool) (g : loc)
    (graph_file : string) (n_attrs : list Node.t) (e_attrs : list Edge.t)
    (s : State) :
  let s' := snd (export_to_graphml writable g graph_file n_attrs e_attrs s) in
  heap s' !! g = heap s !! g
  /\ forall l G, heap s !! l = Some G -> heap s' !! l = Some G.
Proof.
  intros s'.
  assert (Hall : forall l, is_Some (heap s !! l) \/ heap s !! g = None ->
                   heap s' !! l = heap s !! l).
  { subst s'. unfold export_to_graphml, mbind at 1.
    destruct (copy g s) as [[gc|e] s1] eqn:Hcopy.
    - destruct (copy_fresh g s _ s1 Hcopy) as [Hold Hnew].
      specialize (Hnew gc eq_refl).
      intros l [Hl | Hg].
      + match goal with
        | |- heap (snd (?m s1)) !! l = _ =>
            destruct (m s1) as [r s2] eqn:Hrest;
            assert (Hw : writes_only gc m)
        end.
        { apply writes_only_mbind;
            [apply writes_only_export_attributes | intros _].
          apply writes_only_mbind;
            [apply writes_only_export_attributes | intros _].
          apply writes_only_mbind; [apply writes_only_save | intros _].
          apply writes_only_log_info. }
        simpl. rewrite (Hw s1 r s2 Hrest l).
        * apply Hold, Hl.
        * intros ->. rewrite Hnew in Hl. destruct Hl as [? Hl]. discriminate Hl.
      + unfold copy, mbind, load in Hcopy. rewrite Hg in Hcopy.
        discriminate Hcopy.
    - intros l _. unfold copy, mbind, load in Hcopy.
      destruct (heap s !! g); [discriminate Hcopy|].
      injection Hcopy as _ <-. reflexivity. }
  split.
  - apply Hall. destruct (heap s !! g) as [G|]; [left; eauto | right; reflexivity].
  - intros l G Hl. rewrite <- Hl. apply Hall. left. rewrite Hl. eauto.
Qed.

(** ** Import: one key at a time *)

Lemma elem_of_dict_keys {V : Type} (d : gmap string V) (attr : string) :
  attr ∈ dict_keys d <-> is_Some (d !! attr).
Proof.
  unfold dict_keys. rewrite list_elem_of_fmap. split.
  - intros ([k v] & -> & Hkv). apply elem_of_map_to_list in Hkv. eauto.
  - intros [v Hv]. exists (attr, v). split; [reflexivity|].
    by apply elem_of_map_to_list.
Qed.

Lemma NoDup_dict_keys {V : Type} (d : gmap string V) : NoDup (dict_keys d).
Proof. apply NoDup_fst_map_to_list. Qed.

Lemma columns_with_columns (k : Seq) (G : Graph)
    (c : gmap string (list pyval)) :
  columns k (with_columns k G c) = c.
Proof. destruct k; reflexivity. Qed.

Lemma columns_with_columns_other (k k' : Seq) (G : Graph)
    (c : gmap string (list pyval)) :
  k' <> k -> columns k' (with_columns k G c) = columns k' G.
Proof. destruct k, k'; intros H; try reflexivity; contradiction. Qed.

Lemma set_attribute_structure (k : Seq) (G : Graph) (attr : string)
    (values : list pyval) :
  vcount (set_attribute k G attr values) = vcount G
  /\ links (set_attribute k G attr values) = links G.
Proof. destruct k; split; reflexivity. Qed.

Lemma decode_column_ext (k : Seq)
    (conv : string -> result (pyval -> result pyval)) (G1 G2 : Graph)
    (attr : string) :
  columns k G1 !! attr = columns k G2 !! attr ->
  decode_column k conv G1 attr = decode_column k conv G2 attr.
Proof.
  intros H. unfold decode_column, get_attribute, getitem. rewrite H.
  reflexivity.
Qed.

(** What decoding a stored column yields. *)
Lemma decode_column_stored (k : Seq)
    (conv : string -> result (pyval -> result pyval)) (G : Graph)
    (attr : string) (column : list pyval) :
  columns k G !! attr = Some column ->
  (decoding_fails conv attr column ->
   exists e, decode_column k conv G attr = Err e)
  /\ (forall c converted, conv attr = Ok c ->
        comprehension c column = Ok converted ->
        decode_column k conv G attr = Ok converted).
Proof.
  intros Hcol. unfold decode_column, get_attribute, getitem. rewrite Hcol.
  split.
  - intros [[e He] | (c & v & e & Hc & Hv & Hcv)].
    + rewrite He. eauto.
    + rewrite Hc. simpl.
      destruct (comprehension_fails c column v e Hv Hcv)
        as (y & e' & _ & _ & Hfail).
      eauto.
  - intros c converted Hc Hconv. rewrite Hc. exact Hconv.
Qed.

(** The effect of one conversion loop on the graph and on the log. *)
Lemma convert_attributes_spec (k : Seq)
    (conv : string -> result (pyval -> result pyval)) (what : string)
    (log : bool) (attrs : list string) :
  forall G G' warnings,
    NoDup attrs ->
    convert_attributes k conv what log attrs G = (G', warnings) ->
    vcount G' = vcount G
    /\ links G' = links G
    /\ (forall k', k' <> k -> columns k' G' = columns k' G)
    /\ (forall attr, attr ∉ attrs ->
          columns k G' !! attr = columns k G !! attr)
    /\ (forall attr, attr ∈ attrs ->
          match decode_column k conv G attr with
          | Ok converted => columns k G' !! attr = Some converted
          | Err _ =>
              columns k G' !! attr = columns k G !! attr
              /\ (log = true ->
                  In ("Failed to read " ++ what ++ " attribute " ++ attr)%string
                     warnings)
          end).
Proof.
  induction attrs as [|a rest IH]; intros G G' warnings Hnd Hrun.
  - injection Hrun as <- <-. repeat split; try reflexivity.
    intros attr Hin. by apply elem_of_nil in Hin.
  - apply NoDup_cons in Hnd as [Ha Hnd]. cbn [convert_attributes] in Hrun.
    unfold convert_attribute in Hrun.
    destruct (decode_column k conv G a) as [converted|e] eqn:Hd;
      cbn [Py.bind] in Hrun.
    + destruct (IH _ _ _ Hnd Hrun) as (Hv & Hl & Hother & Hout & Hin).
      destruct (set_attribute_structure k G a converted) as [Hv1 Hl1].
      assert (Hcols : forall attr, attr <> a ->
                columns k (set_attribute k G a converted) !! attr
                = columns k G !! attr).
      { intros attr Hne. unfold set_attribute.
        rewrite columns_with_columns.
        apply lookup_insert_ne. congruence. }
      split; [congruence|]. split; [congruence|]. split; [|split].
      * intros k' Hk'. rewrite (Hother k' Hk'). unfold set_attribute.
        apply columns_with_columns_other, Hk'.
      * intros attr Hattr. apply not_elem_of_cons in Hattr as [Hne Hattr].
        rewrite (Hout attr Hattr). apply Hcols, Hne.
      * intros attr Hattr. apply elem_of_cons in Hattr as [-> | Hattr].
        -- rewrite Hd, (Hout a Ha). unfold set_attribute.
           rewrite columns_with_columns. apply lookup_insert_eq.
        -- assert (Hne : attr <> a) by (intros ->; contradiction).
           specialize (Hin attr Hattr).
           rewrite (decode_column_ext k conv _ G attr (Hcols attr Hne)) in Hin.
           destruct (decode_column k conv G attr); [exact Hin|].
           destruct Hin as [Hraw Hwarn]. split; [|exact Hwarn].
           rewrite Hraw. apply Hcols, Hne.
    + destruct (convert_attributes k conv what log rest G)
        as [G'' warnings'] eqn:Hrest.
      injection Hrun as <- <-.
      destruct (IH _ _ _ Hnd Hrest) as (Hv & Hl & Hother & Hout & Hin).
      split; [exact Hv|]. split; [exact Hl|]. split; [exact Hother|]. split.
      * intros attr Hattr. apply not_elem_of_cons in Hattr as [_ Hattr].
        apply Hout, Hattr.
      * intros attr Hattr. apply elem_of_cons in Hattr as [-> | Hattr].
        -- rewrite Hd. split; [apply Hout, Ha|].
           intros ->. left. reflexivity.
        -- specialize (Hin attr Hattr).
           destruct (decode_column k conv G attr); [exact Hin|].
           destruct Hin as [Hraw Hwarn]. split; [exact Hraw|].
           intros Hlog. destruct log; [right; auto | discriminate].
Qed.

(** The keys found on element 0 are the attributes with a value there. *)
Lemma element_attributes_keys (k : Seq) (G : Graph)
    (attrs : gmap string pyval) (attr : string) :
  element_attributes k G 0 = Ok attrs ->
  (attr ∈ dict_keys attrs <->
   exists column v, columns k G !! attr = Some column /\ column !! 0%nat = Some v).
Proof.
  unfold element_attributes. destruct (0 <? count k G)%nat; [|discriminate].
  intros [= <-]. rewrite elem_of_dict_keys, lookup_omap. split.
  - intros [v Hv]. destruct (columns k G !! attr) as [column|]; [|discriminate].
    simpl in Hv. eauto.
  - intros (column & v & -> & Hv). simpl. rewrite Hv. eauto.
Qed.

Section ImportProperties.

Variable literal_eval : string -> result pyval.
Variable wkt_loads : string -> result string.
Variable Read_GraphML : string -> result Graph.

Let node_conv := node_converter literal_eval wkt_loads.
Let edge_conv := edge_converter literal_eval wkt_loads.

(** The import, step by step, for a parsed graph whose [id] column has
    been deleted and that has a first node and a first edge. *)
Lemma read_graphml_steps (graph_file : string) (log : bool) (G0 G1 : Graph) :
  Read_GraphML graph_file = Ok G0 ->
  del_attribute VS G0 "id" = Ok G1 ->
  (0 < vcount G1)%nat -> links G1 <> [] ->
  exists node0 edge0 G2 G' w1 w2,
    element_attributes VS G1 0 = Ok node0
    /\ element_attributes ES G1 0 = Ok edge0
    /\ convert_attributes VS node_conv "node" log (dict_keys node0) G1 = (G2, w1)
    /\ convert_attributes ES edge_conv "edge" log (dict_keys edge0) G2 = (G', w2)
    /\ columns ES G2 = columns ES G1
    /\ read_graphml literal_eval wkt_loads Read_GraphML graph_file log
       = (Ok G', w1 ++ w2).
Proof.
  intros Hread Hdel Hv He.
  assert (Hn0 : exists node0, element_attributes VS G1 0 = Ok node0).
  { unfold element_attributes. cbn [count].
    replace (0 <? vcount G1)%nat with true
      by (symmetry; apply Nat.ltb_lt; exact Hv).
    eauto. }
  destruct Hn0 as [node0 Hn0].
  destruct (convert_attributes VS node_conv "node" log (dict_keys node0) G1)
    as [G2 w1] eqn:Hnodes.
  destruct (convert_attributes_spec _ _ _ _ _ _ _ _ (NoDup_dict_keys node0) Hnodes)
    as (Hv2 & Hl2 & Hother & _ & _).
  assert (Hes : columns ES G2 = columns ES G1) by (apply Hother; discriminate).
  assert (He0 : exists edge0, element_attributes ES G1 0 = Ok edge0
                              /\ element_attributes ES G2 0 = Ok edge0).
  { unfold element_attributes. cbn [count]. rewrite Hl2, Hes.
    destruct (links G1) as [|l ls]; [contradiction|]. simpl. eauto. }
  destruct He0 as (edge0 & He0 & He2).
  destruct (convert_attributes ES edge_conv "edge" log (dict_keys edge0) G2)
    as [G' w2] eqn:Hedges.
  exists node0, edge0, G2, G', w1, w2.
  repeat (split; [assumption || reflexivity|]).
  unfold read_graphml. rewrite Hread, Hdel, Hn0.
  fold node_conv edge_conv. rewrite Hnodes, He2, Hedges. reflexivity.
Qed.

Lemma first_value (column : list pyval) :
  column <> [] -> exists v, column !! 0%nat = Some v.
Proof. destruct column as [|v column]; [contradiction | eauto]. Qed.

(** C9 (amended).  For a parsed graph with at least one node and one
    edge the import returns a graph.  For every node or edge key found
    on the first element: if no converter is registered for the key, or
    the converter raises on one of the key's values, every value of that
    key is left in its raw form and, when a logger was passed, a warning
    naming the key is logged; if every value decodes, the key holds the
    decoded values, whatever happened to the other keys. *)
Theorem import_degrades_per_key (graph_file : string) (log : bool)
    (G0 G1 : Graph) :
  Read_GraphML graph_file = Ok G0 ->
  del_attribute VS G0 "id" = Ok G1 ->
  (0 < vcount G1)%nat -> links G1 <> [] ->
  exists G' warnings,
    read_graphml literal_eval wkt_loads Read_GraphML graph_file log
    = (Ok G', warnings)
    /\ (forall attr column,
          vs G1 !! attr = Some column -> column <> [] ->
          (decoding_fails (node_converter literal_eval wkt_loads) attr column ->
           vs G' !! attr = Some column
           /\ (log = true ->
               In ("Failed to read node attribute " ++ attr)%string warnings))
          /\ (forall converter converted,
                node_converter literal_eval wkt_loads attr = Ok converter ->
                comprehension converter column = Ok converted ->
                vs G' !! attr = Some converted))
    /\ (forall attr column,
          es G1 !! attr = Some column -> column <> [] ->
          (decoding_fails (edge_converter literal_eval wkt_loads) attr column ->
           es G' !! attr = Some column
           /\ (log = true ->
               In ("Failed to read edge attribute " ++ attr)%string warnings))
          /\ (forall converter converted,
                edge_converter literal_eval wkt_loads attr = Ok converter ->
                comprehension converter column = Ok converted ->
                es G' !! attr = Some converted)).
Proof.
  intros Hread Hdel Hv He.
  destruct (read_graphml_steps graph_file log G0 G1 Hread Hdel Hv He)
    as (node0 & edge0 & G2 & G' & w1 & w2 & Hn0 & He0 & Hnodes & Hedges
        & Hes & Hrun).
  destruct (convert_attributes_spec _ _ _ _ _ _ _ _ (NoDup_dict_keys node0) Hnodes)
    as (_ & _ & _ & _ & Hin1).
  destruct (convert_attributes_spec _ _ _ _ _ _ _ _ (NoDup_dict_keys edge0) Hedges)
    as (_ & _ & Hother2 & _ & Hin2).
  assert (Hvs : columns VS G' = columns VS G2) by (apply Hother2; discriminate).
  exists G', (w1 ++ w2). split; [exact Hrun|]. split.
  - intros attr column Hcol Hne.
    change (vs G') with (columns VS G'). rewrite Hvs.
    destruct (first_value column Hne) as [v Hv0].
    assert (Hkey : attr ∈ dict_keys node0)
      by (apply (element_attributes_keys VS G1 node0 attr Hn0); eauto).
    specialize (Hin1 attr Hkey).
    destruct (decode_column_stored VS node_conv G1 attr column Hcol)
      as [Hfails Hdecodes].
    split.
    + intros Hf. destruct (Hfails Hf) as [e Hd]. rewrite Hd in Hin1.
      destruct Hin1 as [Hraw Hwarn]. split.
      * rewrite Hraw. exact Hcol.
      * intros Hlog. apply in_or_app. left. exact (Hwarn Hlog).
    + intros c converted Hc Hconv.
      rewrite (Hdecodes c converted Hc Hconv) in Hin1. exact Hin1.
  - intros attr column Hcol Hne.
    change (es G') with (columns ES G').
    change (es G1) with (columns ES G1) in Hcol. rewrite <- Hes in Hcol.
    destruct (first_value column Hne) as [v Hv0].
    assert (Hkey : attr ∈ dict_keys edge0).
    { apply (element_attributes_keys ES G1 edge0 attr He0).
      rewrite <- Hes. eauto. }
    specialize (Hin2 attr Hkey).
    destruct (decode_column_stored ES edge_conv G2 attr column Hcol)
      as [Hfails Hdecodes].
    split.
    + intros Hf. destruct (Hfails Hf) as [e Hd]. rewrite Hd in Hin2.
      destruct Hin2 as [Hraw Hwarn]. split.
      * rewrite Hraw. exact Hcol.
      * intros Hlog. apply in_or_app. right. exact (Hwarn Hlog).
    + intros c converted Hc Hconv.
      rewrite (Hdecodes c converted Hc Hconv) in Hin2. exact Hin2.
Qed.

(** C10.  The import takes the attribute keys from the first node and
    the first edge only: when the file parses to a graph without nodes
    or without edges it raises, and when it returns a graph, the keys it
    decoded are those of [G.vs[0]] and of [G.es[0]], every other
    attribute being left as parsed. *)
Theorem import_probes_first_elements (graph_file : string) (log : bool)
    (G0 : Graph) :
  Read_GraphML graph_file = Ok G0 ->
  (vcount G0 = 0%nat \/ links G0 = [] ->
   raises (fst (read_graphml literal_eval wkt_loads Read_GraphML
                  graph_file log)))
  /\ (forall G' warnings,
        read_graphml literal_eval wkt_loads Read_GraphML graph_file log
        = (Ok G', warnings) ->
        exists G1 node0 edge0,
          del_attribute VS G0 "id" = Ok G1
          /\ element_attributes VS G1 0 = Ok node0
          /\ element_attributes ES G1 0 = Ok edge0
          /\ (forall attr, attr ∉ dict_keys node0 -> vs G' !! attr = vs G1 !! attr)
          /\ (forall attr, attr ∉ dict_keys edge0 -> es G' !! attr = es G1 !! attr)
          /\ (forall attr, attr ∈ dict_keys node0 ->
                match decode_column VS (node_converter literal_eval wkt_loads)
                        G1 attr with
                | Ok converted => vs G' !! attr = Some converted
                | Err _ => vs G' !! attr = vs G1 !! attr
                end)
          /\ (forall attr, attr ∈ dict_keys edge0 ->
                match decode_column ES (edge_converter literal_eval wkt_loads)
                        G1 attr with
                | Ok converted => es G' !! attr = Some converted
                | Err _ => es G' !! attr = es G1 !! attr
                end)).
Proof.
  intros Hread. split.
  - intros Hempty. unfold read_graphml. rewrite Hread.
    destruct (del_attribute VS G0 "id") as [G1|e] eqn:Hdel;
      [|exists e; reflexivity].
    assert (Hsame : vcount G1 = vcount G0 /\ links G1 = links G0
                    /\ es G1 = es G0).
    { unfold del_attribute in Hdel. destruct (columns VS G0 !! "id"%string);
        [|discriminate]. injection Hdel as <-. repeat split. }
    destruct Hsame as (Hv & Hl & Hes).
    unfold element_attributes at 1. cbn [count]. rewrite Hv.
    destruct (vcount G0) as [|n] eqn:Hn; [exists IndexError; reflexivity|].
    destruct Hempty as [Hz | Hnil]; [discriminate|].
    change (0 <? S n)%nat with true. cbv iota.
    destruct (convert_attributes VS (node_converter literal_eval wkt_loads)
                "node" log _ G1) as [G2 w1] eqn:Hnodes.
    destruct (convert_attributes_spec _ _ _ _ _ _ _ _
                (NoDup_dict_keys _) Hnodes) as (_ & Hl2 & _).
    unfold element_attributes. cbn [count]. rewrite Hl2, Hl, Hnil.
    exists IndexError. reflexivity.
  - intros G' warnings Hrun.
    destruct (del_attribute VS G0 "id") as [G1|e] eqn:Hdel;
      [|unfold read_graphml in Hrun; rewrite Hread, Hdel in Hrun;
        discriminate Hrun].
    assert (Hv : (0 < vcount G1)%nat).
    { unfold read_graphml in Hrun. rewrite Hread, Hdel in Hrun.
      unfold element_attributes at 1 in Hrun. cbn [count] in Hrun.
      destruct (vcount G1); [discriminate Hrun | lia]. }
    assert (He : links G1 <> []).
    { intros Hnil. unfold read_graphml in Hrun. rewrite Hread, Hdel in Hrun.
      destruct (element_attributes VS G1 0) as [node0|]; [|discriminate Hrun].
      destruct (convert_attributes VS (node_converter literal_eval wkt_loads)
                  "node" log (dict_keys node0) G1) as [G2 w1] eqn:Hnodes.
      destruct (convert_attributes_spec _ _ _ _ _ _ _ _
                  (NoDup_dict_keys _) Hnodes) as (_ & Hl2 & _).
      unfold element_attributes in Hrun. cbn [count] in Hrun.
      rewrite Hl2, Hnil in Hrun. discriminate Hrun. }
    destruct (read_graphml_steps graph_file log G0 G1 Hread Hdel Hv He)
      as (node0 & edge0 & G2 & G'' & w1 & w2 & Hn0 & He0 & Hnodes & Hedges
          & Hes & Hrun').
    rewrite Hrun in Hrun'. injection Hrun' as -> ->.
    destruct (convert_attributes_spec _ _ _ _ _ _ _ _
                (NoDup_dict_keys node0) Hnodes) as (_ & _ & _ & Hout1 & Hin1).
    destruct (convert_attributes_spec _ _ _ _ _ _ _ _
                (NoDup_dict_keys edge0) Hedges) as (_ & _ & Hother2 & Hout2 & Hin2).
    assert (Hvs : columns VS G'' = columns VS G2)
      by (apply Hother2; discriminate).
    exists G1, node0, edge0.
    split; [reflexivity|]. split; [exact Hn0|]. split; [exact He0|].
    split; [|split; [|split]].
    + intros attr Hattr. change (vs G'') with (columns VS G'').
      rewrite Hvs. apply Hout1, Hattr.
    + intros attr Hattr. change (es G'' !! attr) with (columns ES G'' !! attr).
      rewrite (Hout2 attr Hattr), Hes. reflexivity.
    + intros attr Hattr. change (vs G'') with (columns VS G'').
      rewrite Hvs. specialize (Hin1 attr Hattr).
      fold node_conv. destruct (decode_column VS node_conv G1 attr);
        [exact Hin1 | exact (proj1 Hin1)].
    + intros attr Hattr. specialize (Hin2 attr Hattr).
      rewrite (decode_column_ext ES edge_conv G2 G1 attr) in Hin2
        by (rewrite Hes; reflexivity).
      fold edge_conv. change (es G'' !! attr) with (columns ES G'' !! attr).
      destruct (decode_column ES edge_conv G1 attr); [exact Hin2|].
      destruct Hin2 as [Hraw _]. rewrite Hraw, Hes. reflexivity.
Qed.

End ImportProperties.

(** C9 (counterexample).  The node key [xyz] has no registered
    converter, yet an import without a logger logs nothing; and for a
    graph with that node but no edge the import raises after the node
    keys have been processed. *)
Lemma import_without_logger_is_silent :
  (node_converter example_literal_eval example_wkt_loads "xyz" = Err ValueError
   /\ snd (read_graphml example_literal_eval example_wkt_loads
             (fun _ => Ok example_graph) "graph.graphml" false) = [])
  /\ raises (fst (read_graphml example_literal_eval example_wkt_loads
                    (fun _ => Ok example_graph_without_edges)
                    "graph.graphml" true)).
Proof.
  split; [split|].
  - vm_compute. reflexivity.
  - vm_compute. reflexivity.
  - exists IndexError. vm_compute. reflexivity.
Qed.

(** The import of [example_graph] with a logger: [xyz] and [c_bt] stay
    raw and are reported, [l] is decoded. *)
Lemma import_degrades_per_key_witness :
  exists G' warnings,
    read_graphml example_literal_eval example_wkt_loads
      (fun _ => Ok example_graph) "graph.graphml" true = (Ok G', warnings)
    /\ vs G' !! "xyz"%string = Some [VStr "?"]
    /\ In "Failed to read node attribute xyz"%string warnings
    /\ es G' !! "l"%string = Some [VFloat 12.5]
    /\ es G' !! "c_bt"%string = Some [VStr "abc"]
    /\ In "Failed to read edge attribute c_bt"%string warnings.
Proof.
  destruct (import_degrades_per_key example_literal_eval example_wkt_loads
              (fun _ => Ok example_graph) "graph.graphml" true
              example_graph example_graph_without_id)
    as (G' & warnings & Hrun & Hnode & Hedge).
  - reflexivity.
  - vm_compute. reflexivity.
  - simpl. lia.
  - discriminate.
  - exists G', warnings. split; [exact Hrun|].
    destruct (Hnode "xyz"%string [VStr "?"]) as [Hxyz _];
      [vm_compute; reflexivity | discriminate|].
    destruct Hxyz as [Hraw Hwarn];
      [left; exists ValueError; vm_compute; reflexivity|].
    destruct (Hedge "l"%string [VStr "12.5"]) as [_ Hl];
      [vm_compute; reflexivity | discriminate|].
    destruct (Hedge "c_bt"%string [VStr "abc"]) as [Hbt _];
      [vm_compute; reflexivity | discriminate|].
    destruct Hbt as [Hbtraw Hbtwarn].
    { right. exists to_float, (VStr "abc"), ValueError.
      split; [reflexivity|]. split; [left; reflexivity|].
      vm_compute. reflexivity. }
    split; [exact Hraw|]. split; [exact (Hwarn eq_refl)|].
    split; [|split; [exact Hbtraw | exact (Hbtwarn eq_refl)]].
    apply (Hl to_float); [reflexivity | vm_compute; reflexivity].
Defined.

(** The import of a graph without edges raises. *)
Lemma import_probes_first_elements_witness :
  raises (fst (read_graphml example_literal_eval example_wkt_loads
                 (fun _ => Ok example_graph_without_edges)
                 "graph.graphml" true)).
Proof.
  apply (proj1 (import_probes_first_elements example_literal_eval
                  example_wkt_loads (fun _ => Ok example_graph_without_edges)
                  "graph.graphml" true example_graph_without_edges eq_refl)).
  right. reflexivity.
Defined.

(** An export of a typed graph: the file receives the stringified
    copy, the caller's object still holds the typed values. *)
Lemma export_stringifies_the_copy :
  let '(r, s') :=
    export_to_graphml (fun _ => true) 1%positive "out.graphml" [] [] typed_store in
  r = Ok tt
  /\ heap s' !! 1%positive = Some typed_graph
  /\ (files s' !! "out.graphml"%string) ≫= (fun G => es G !! "l"%string)
     = Some [VStr "12.5"]
  /\ (files s' !! "out.graphml"%string) ≫= (fun G => es G !! "n"%string)
     = Some [VStr "{50: 10.0}"]
  /\ (files s' !! "out.graphml"%string) ≫= (fun G => es G !! "b_aw"%string)
     = Some [VStr "1"]
  /\ logged s' = ["Exported graph to file: out.graphml"%string].
Proof. vm_compute. repeat split. Qed.

(** With an accurate libm the scenario of the specification (sensitivity
    0.5, exposures [{40: 5.0, 60: 15.0}], length 20.0, version-3 table)
    costs 24.73. *)
Lemma edge_cost_scenario_value (pow : float -> float -> float) :
  Libm.accurate_pow10 pow ->
  exists table,
    get_db_costs pow 3 = Ok table
    /\ get_noise_adjusted_edge_cost 0.5 table
         (Some [(40, 5%float); (60, 15%float)]) 20 None
       = Ok 24.73%float.
Proof.
  intros Hpow. eexists. split; [reflexivity|].
  destruct (edge_cost_scenario_formula pow)
    as (table & t40 & t60 & [= <-] & H40 & H60 & ->).
  rewrite dict_comprehension_range in H40, H60.
  injection H40 as <-. injection H60 as <-.
  pose proof (v3_candidates_accurate pow 60 Hpow ltac:(lia)) as Hc.
  revert Hc. generalize (calc_db_cost_v3 pow 60). intros t60 Hc.
  vm_compute in Hc.
  repeat (destruct Hc as [<- | Hc]; [vm_compute; reflexivity|]).
  destruct Hc.
Qed.

(** * More of the code: statistics, export and import, logger, menu *)

Import noise_statistics edge_dicts.

(** ** The dB ranges *)

Lemma get_noise_range_label (db : Z) : get_noise_range db ∈ range_labels.
Proof. unfold get_noise_range, range_labels. repeat case_match; set_solver. Qed.

(** X1.  [get_noise_range] returns one of the six labels 40, 50, 55, 60,
    65 and 70: 40 for every level below 50 and, from 50 dB on, the
    greatest label that does not exceed the level.  A label is mapped to
    itself, and the range does not decrease when the level grows. *)
Theorem noise_range_labels (db : Z) :
  let r := get_noise_range db in
  r ∈ range_labels
  /\ (db < 50 -> r = 40)
  /\ (50 <= db -> r <= db /\ forall l, l ∈ range_labels -> l <= db -> l <= r)
  /\ get_noise_range r = r
  /\ (forall db', db <= db' -> r <= get_noise_range db').
Proof.
  intros r. subst r. unfold get_noise_range, range_labels.
  repeat split.
  - repeat case_match; set_solver.
  - intros H. repeat case_match; lia.
  - repeat case_match; lia.
  - intros l Hl Hdb.
    repeat (apply elem_of_cons in Hl as [-> | Hl]); try (by apply elem_of_nil in Hl);
    repeat case_match; lia.
  - repeat case_match; lia.
  - intros db' H. repeat case_match; lia.
Qed.

(** The levels 47, 63 and 80. *)
Lemma noise_range_labels_witness :
  get_noise_range 47 = 40 /\ get_noise_range 63 <= 63
  /\ get_noise_range 63 <= get_noise_range 80.
Proof.
  destruct (noise_range_labels 47) as (_ & H47 & _).
  destruct (noise_range_labels 63) as (_ & _ & H63 & _ & Hmono).
  split; [apply H47; lia|]. split; [apply H63; lia | apply Hmono; lia].
Defined.

(** ** Accumulating exposures *)

Lemma get_setitem (k k' : Z) (v : float) (d : Noises) :
  get k (setitem k' v d) = if k =? k' then Some v else get k d.
Proof.
  unfold get. induction d as [|[k1 v1] d IH]; simpl.
  - destruct (k =? k'); reflexivity.
  - destruct (k' =? k1) eqn:H1; simpl.
    + apply Z.eqb_eq in H1. subst k1. destruct (k =? k'); reflexivity.
    + destruct (k =? k1) eqn:H2; simpl.
      * apply Z.eqb_eq in H2. subst k1.
        rewrite Z.eqb_sym, H1. reflexivity.
      * exact IH.
Qed.

Lemma get_None (k : Z) (d : Noises) : get k d = None <-> k ∉ keys d.
Proof.
  unfold get. induction d as [|[k1 v1] d IH]; simpl.
  - split; [intros _; apply not_elem_of_nil | reflexivity].
  - rewrite not_elem_of_cons. destruct (k =? k1) eqn:H1; simpl.
    + apply Z.eqb_eq in H1. split; [discriminate | intros [? _]; contradiction].
    + apply Z.eqb_neq in H1. rewrite IH. tauto.
Qed.

Lemma get_Some_elem (k : Z) (v : float) (d : Noises) :
  NoDup (keys d) -> (get k d = Some v <-> (k, v) ∈ d).
Proof.
  unfold get. induction d as [|[k1 v1] d IH]; simpl; intros Hnd.
  - split; [discriminate | intros H; by apply elem_of_nil in H].
  - apply NoDup_cons in Hnd as [Hk1 Hnd]. rewrite elem_of_cons.
    destruct (k =? k1) eqn:H1; simpl.
    + apply Z.eqb_eq in H1. subst k1. split.
      * intros [= ->]. by left.
      * intros [[= ->] | Hin]; [reflexivity|].
        exfalso. apply Hk1. apply list_elem_of_fmap. by exists (k, v).
    + apply Z.eqb_neq in H1. rewrite (IH Hnd). split; [by right|].
      intros [[= ? ?] | Hin]; [contradiction | exact Hin].
Qed.

Lemma keys_setitem (k : Z) (v : float) (d : Noises) :
  keys (setitem k v d) = if contains k d then keys d else keys d ++ [k].
Proof.
  unfold contains. induction d as [|[k1 v1] d IH]; simpl; [reflexivity|].
  destruct (k =? k1) eqn:H1; simpl.
  - apply Z.eqb_eq in H1. by subst k1.
  - unfold keys in *. rewrite IH. by destruct (existsb _ _).
Qed.

Lemma NoDup_keys_setitem (k : Z) (v : float) (d : Noises) :
  NoDup (keys d) -> NoDup (keys (setitem k v d)).
Proof.
  intros Hnd. rewrite keys_setitem. destruct (contains k d) eqn:Hc; [exact Hnd|].
  apply NoDup_app. split; [exact Hnd|]. split; [|apply NoDup_singleton].
  intros x Hx ->%list_elem_of_singleton.
  apply contains_spec in Hx. congruence.
Qed.

Lemma elem_of_keys_setitem (k k' : Z) (v : float) (d : Noises) :
  k ∈ keys (setitem k' v d) <-> k = k' \/ k ∈ keys d.
Proof.
  rewrite keys_setitem. destruct (contains k' d) eqn:Hc.
  - apply contains_spec in Hc. split; [by right | intros [-> | H]; assumption].
  - rewrite elem_of_app, list_elem_of_singleton. tauto.
Qed.

(** A dict comprehension over entries with distinct keys keeps them as
    they are. *)
Lemma dict_of_items_NoDup (l : list (Z * float)) :
  NoDup (keys l) -> dict_of_items l = l.
Proof.
  intros Hnd. unfold dict_of_items.
  rewrite fold_setitem_fresh; [reflexivity | exact Hnd |].
  intros k _. apply not_elem_of_nil.
Qed.

Section Accumulate.

Variable f : Z -> Z.

Lemma accumulate_cons (db : Z) (e : float) (l : list (Z * float))
    (acc : Noises) :
  accumulate f ((db, e) :: l) acc = accumulate f l (iadd (f db) e acc).
Proof. reflexivity. Qed.

Lemma accumulate_NoDup (l : list (Z * float)) (acc : Noises) :
  NoDup (keys acc) -> NoDup (keys (accumulate f l acc)).
Proof.
  revert acc. induction l as [|[db e] l IH]; intros acc Hnd; [exact Hnd|].
  rewrite accumulate_cons. apply IH. unfold iadd. apply NoDup_keys_setitem, Hnd.
Qed.

Lemma accumulate_keys (l : list (Z * float)) (acc : Noises) (k : Z) :
  k ∈ keys (accumulate f l acc)
  <-> k ∈ keys acc \/ exists db, db ∈ keys l /\ f db = k.
Proof.
  revert acc. induction l as [|[db e] l IH]; intros acc.
  - split; [by left | intros [H | (db & Hdb & _)]; [exact H|]].
    by apply elem_of_nil in Hdb.
  - rewrite accumulate_cons, IH. unfold iadd. rewrite elem_of_keys_setitem.
    split.
    + intros [[-> | H] | (db' & Hdb' & Hf)].
      * right. exists db. split; [by left | reflexivity].
      * by left.
      * right. exists db'. split; [by right | exact Hf].
    + intros [H | (db' & Hdb' & Hf)]; [left; by right|].
      apply elem_of_cons in Hdb' as [-> | Hdb'].
      * left. left. by symmetry.
      * right. eauto.
Qed.

Lemma accumulate_get (l : list (Z * float)) (acc : Noises) (k : Z) :
  get k (accumulate f l acc)
  = match exposures_where (fun db => f db =? k) l with
    | [] => get k acc
    | exps => Some (fold_left PrimFloat.add exps (default 0%float (get k acc)))
    end.
Proof.
  revert acc. induction l as [|[db e] l IH]; intros acc; [reflexivity|].
  rewrite accumulate_cons, IH. unfold exposures_where. cbn [List.filter fst].
  unfold iadd. rewrite get_setitem. rewrite (Z.eqb_sym k (f db)).
  destruct (f db =? k) eqn:Hk.
  - apply Z.eqb_eq in Hk. subst k. cbn [map snd fold_left default].
    destruct (map snd _); reflexivity.
  - reflexivity.
Qed.

End Accumulate.

Lemma keys_round_values (d : Noises) (n : Z) :
  keys (map (fun '(k, v) => (k, round v n)) d) = keys d.
Proof. unfold keys. rewrite map_map. apply map_ext. by intros [k v]. Qed.

Lemma get_round_values (d : Noises) (n k : Z) :
  get k (map (fun '(k, v) => (k, round v n)) d)
  = (fun v => round v n) <$> get k d.
Proof.
  unfold get. induction d as [|[k1 v1] d IH]; [reflexivity|].
  simpl. destruct (k =? k1); [reflexivity | exact IH].
Qed.

(** The rounded result of an accumulation loop. *)
Lemma rounded_accumulation (f : Z -> Z) (l : list (Z * float)) :
  let r := dict_of_items
             (map (fun '(k, v) => (k, round v 3)) (accumulate f l [])) in
  NoDup (keys r)
  /\ (forall k, k ∈ keys r <-> exists db, db ∈ keys l /\ f db = k)
  /\ (forall k, k ∈ keys r ->
        get k r
        = Some (round (sum (exposures_where (fun db => f db =? k) l)) 3)).
Proof.
  intros r.
  assert (Hnd : NoDup (keys (accumulate f l []))).
  { apply accumulate_NoDup. apply NoDup_nil_2. }
  assert (Hr : r = map (fun '(k, v) => (k, round v 3)) (accumulate f l [])).
  { apply dict_of_items_NoDup. by rewrite keys_round_values. }
  rewrite Hr, keys_round_values. split; [exact Hnd|].
  assert (Hkeys : forall k, k ∈ keys (accumulate f l [])
                            <-> exists db, db ∈ keys l /\ f db = k).
  { intros k. rewrite accumulate_keys. split; [|by right].
    intros [H | H]; [by apply elem_of_nil in H | exact H]. }
  split; [exact Hkeys|].
  intros k Hk. rewrite get_round_values, accumulate_get.
  destruct (exposures_where _ l) as [|e exps] eqn:Hexps; [|reflexivity].
  exfalso. pose proof (accumulate_get f l [] k) as Hget.
  rewrite Hexps in Hget. change (get k []) with (@None float) in Hget.
  apply get_None in Hget. contradiction.
Qed.

Lemma length_range_keys (d : Noises) :
  NoDup (keys d) -> (forall k, k ∈ keys d -> k ∈ range_labels) ->
  (length d <= 6)%nat.
Proof.
  intros Hnd Hsub. replace (length d) with (length (keys d)).
  - apply (submseteq_length (keys d) range_labels).
    apply NoDup_submseteq; assumption.
  - unfold keys. apply length_map.
Qed.

(** X2.  [get_noise_range_exps] aggregates the exposures by dB range:
    the result has one entry for each range hit by a key of the map and
    no other (at most six), and the value of a range is the sum of the
    exposures of the keys in that range, added in the order of the map
    and rounded to 3 decimals.  The argument [total_length] has no
    influence. *)
Theorem noise_range_exps_spec (noises : Noises) (total_length : float) :
  let r := get_noise_range_exps noises total_length in
  NoDup (keys r)
  /\ (forall k, k ∈ keys r
               <-> exists db, db ∈ keys noises /\ get_noise_range db = k)
  /\ (forall k, k ∈ keys r ->
        k ∈ range_labels
        /\ get k r
           = Some (round (sum (exposures_where
                                 (fun db => get_noise_range db =? k) noises))
                         3))
  /\ (length r <= 6)%nat.
Proof.
  intros r.
  destruct (rounded_accumulation get_noise_range noises)
    as (Hnd & Hkeys & Hget).
  fold (get_noise_range_exps noises total_length) in Hnd, Hkeys, Hget.
  fold r in Hnd, Hkeys, Hget.
  assert (Hlabels : forall k, k ∈ keys r -> k ∈ range_labels).
  { intros k (db & _ & <-)%Hkeys. apply get_noise_range_label. }
  split; [exact Hnd|]. split; [exact Hkeys|]. split.
  - intros k Hk. split; [apply Hlabels, Hk | apply Hget, Hk].
  - apply length_range_keys; assumption.
Qed.

(** The range 40 of a map with the levels 45, 72 and 49. *)
Lemma noise_range_exps_witness :
  let noises := [(45, 1.5%float); (72, 2.25%float); (49, 0.1%float)] in
  let r := get_noise_range_exps noises 0 in
  40 ∈ keys r
  /\ get 40 r = Some (round (1.5 + 0.1)%float 3).
Proof.
  intros noises r.
  destruct (noise_range_exps_spec noises 0) as (_ & Hkeys & Hget & _).
  assert (H40 : 40 ∈ keys r).
  { apply Hkeys. exists 45. split; [by left | reflexivity]. }
  split; [exact H40|]. exact (proj2 (Hget 40 H40)).
Defined.

Lemma accumulate_concat (exp_list : list Noises) (acc : Noises) :
  fold_left (fun acc db_exps =>
    fold_left (fun acc '(db, exp) => iadd db exp acc) (items db_exps) acc)
    exp_list acc
  = accumulate (fun db => db) (concat exp_list) acc.
Proof.
  revert acc. induction exp_list as [|d ds IH]; intros acc; [reflexivity|].
  cbn [fold_left concat]. rewrite IH. unfold accumulate.
  by rewrite fold_left_app.
Qed.

Lemma elem_of_concat {A : Type} (x : A) (ls : list (list A)) :
  x ∈ concat ls <-> exists l, l ∈ ls /\ x ∈ l.
Proof.
  rewrite list_elem_of_In, in_concat.
  split; intros (l & H1 & H2); exists l; by rewrite ?list_elem_of_In in *.
Qed.

(** X3.  [aggregate_exposures] merges a list of exposure maps: the
    result has exactly the dB keys that occur in some map, each once,
    and the value of a key is the sum of its exposures over the maps, in
    their order, rounded to 3 decimals. *)
Theorem aggregate_exposures_spec (exp_list : list Noises) :
  let r := aggregate_exposures exp_list in
  NoDup (keys r)
  /\ (forall db, db ∈ keys r <-> exists d, d ∈ exp_list /\ db ∈ keys d)
  /\ (forall db, db ∈ keys r ->
        get db r
        = Some (round (sum (exposures_where (Z.eqb db) (concat exp_list))) 3)).
Proof.
  intros r. subst r. unfold aggregate_exposures.
  rewrite accumulate_concat. unfold items.
  destruct (rounded_accumulation (fun db => db) (concat exp_list))
    as (Hnd & Hkeys & Hget).
  split; [exact Hnd|]. split.
  - intros db. rewrite Hkeys. unfold keys. split.
    + intros (db' & Hin & ->).
      apply list_elem_of_fmap in Hin as ([k v] & -> & Hin).
      apply elem_of_concat in Hin as (d & Hd & Hkv).
      exists d. split; [exact Hd|]. apply list_elem_of_fmap. by exists (k, v).
    + intros (d & Hd & Hin). exists db. split; [|reflexivity].
      apply list_elem_of_fmap in Hin as ([k v] & -> & Hin).
      apply list_elem_of_fmap. exists (k, v). split; [reflexivity|].
      apply elem_of_concat. eauto.
  - intros db Hdb. rewrite (Hget db Hdb). do 3 f_equal.
    unfold exposures_where. f_equal. apply filter_ext.
    intros [k v]. apply Z.eqb_sym.
Qed.

(** The key 72 of two maps. *)
Lemma aggregate_exposures_witness :
  let exp_list := [[(45, 1.5%float); (72, 2.25%float)]; [(72, 0.1%float)]] in
  get 72 (aggregate_exposures exp_list) = Some (round (2.25 + 0.1)%float 3).
Proof.
  intros exp_list.
  destruct (aggregate_exposures_spec exp_list) as (_ & Hkeys & Hget).
  apply (Hget 72). apply Hkeys. exists [(72, 0.1%float)]. split.
  - right. by left.
  - by left.
Defined.

(** An [ocomprehension] whose body returns on every element is a [map]. *)
Lemma ocomprehension_total {A B : Type} (f : A -> outcome B) (g : A -> B)
    (l : list A) :
  (forall x, x ∈ l -> f x = Returns (g x)) ->
  ocomprehension f l = Returns (map g l).
Proof.
  induction l as [|x l IH]; intros Hf; [reflexivity|].
  simpl. rewrite (Hf x) by (by left). simpl.
  rewrite IH by (intros y Hy; apply Hf; by right).
  reflexivity.
Qed.

(** ** Percentages and the mean level *)

(** X4.  [get_noise_range_pcts] raises [ZeroDivisionError] exactly when
    the map is not empty and [length] is zero; it returns the empty map
    for the empty map, whatever the length; and for a non-zero length it
    returns, for each range, [round(exposure * 100 / length, 3)], in the
    order of the map. *)
Theorem noise_range_pcts_spec (d : Noises) (length : float) :
  (get_noise_range_pcts d length = Raises ZeroDivisionError
   <-> d <> [] /\ is_zero length = true)
  /\ (d = [] -> get_noise_range_pcts d length = Returns [])
  /\ (NoDup (keys d) -> is_zero length = false ->
      get_noise_range_pcts d length
      = Returns (map (fun '(k, v) => (k, round (v * 100 / length) 3)) d)).
Proof.
  assert (Hdiv : is_zero length = false ->
            ocomprehension
              (fun '(db_range, db_range_length) =>
                 obind (truediv (db_range_length * 100) length) (fun pct =>
                 Returns (db_range, round pct 3))) (items d)
            = Returns (map (fun '(k, v) => (k, round (v * 100 / length) 3)) d)).
  { intros Hz. apply ocomprehension_total. intros [k v] _.
    unfold truediv. rewrite Hz. reflexivity. }
  split; [|split].
  - unfold get_noise_range_pcts. split.
    + destruct (is_zero length) eqn:Hz.
      * destruct d as [|[k v] d]; [discriminate|]. intros _. by split.
      * rewrite (Hdiv eq_refl). discriminate.
    + intros [Hd Hz]. destruct d as [|[k v] d]; [contradiction|].
      cbn [items ocomprehension]. unfold truediv. rewrite Hz. reflexivity.
  - intros ->. reflexivity.
  - intros Hnd Hz. unfold get_noise_range_pcts. rewrite (Hdiv Hz).
    cbn [obind]. f_equal. apply dict_of_items_NoDup.
    replace (keys (map _ d)) with (keys d); [exact Hnd|].
    unfold keys. rewrite map_map. apply map_ext. by intros [k v].
Qed.

(** A zero length with and without exposures, and the length 7. *)
Lemma noise_range_pcts_witness :
  get_noise_range_pcts [(40, 1.6%float)] 0 = Raises ZeroDivisionError
  /\ get_noise_range_pcts [] 0 = Returns []
  /\ get_noise_range_pcts [(40, 1.6%float); (70, 3.25%float)] 7
     = Returns [(40, round (1.6 * 100 / 7)%float 3);
                (70, round (3.25 * 100 / 7)%float 3)].
Proof.
  split; [|split].
  - apply (proj1 (noise_range_pcts_spec _ _)). split; [discriminate | reflexivity].
  - apply (proj1 (proj2 (noise_range_pcts_spec [] 0))). reflexivity.
  - apply (proj2 (proj2 (noise_range_pcts_spec
                            [(40, 1.6%float); (70, 3.25%float)] 7)));
      [|reflexivity].
    apply NoDup_cons. split; [|apply NoDup_singleton].
    cbn. rewrite list_elem_of_singleton. discriminate.
Defined.

(** X5.  [get_mean_noise_level] never returns a value when [length] is
    zero, also for the empty map.  For keys that convert to floats it
    raises [ZeroDivisionError] then, and for a non-zero length it
    returns [round(sum((db + 2.5) * exposure) / length, 1)]: each
    exposure is weighted by the middle of its 5 dB range and the sum is
    divided by the argument [length], not by the total of the
    exposures. *)
Theorem mean_noise_level_spec (noises : Noises) (length : float) :
  (is_zero length = true ->
   forall x, get_mean_noise_level noises length <> Returns x)
  /\ ((forall db, db ∈ keys noises -> is_infinity (float_of_int db) = false) ->
      get_mean_noise_level noises length
      = if is_zero length then Raises ZeroDivisionError
        else Returns
               (round (sum (map (fun '(db, exp) =>
                                   ((float_of_int db + 2.5) * exp)%float)
                                noises)
                       / length)%float 1)).
Proof.
  unfold get_mean_noise_level. split.
  - intros Hz x. destruct (ocomprehension _ _) as [terms|e]; [|discriminate].
    cbn [obind]. unfold truediv. rewrite Hz. discriminate.
  - intros Hkeys.
    rewrite (ocomprehension_total _
               (fun '(db, exp) => ((float_of_int db + 2.5) * exp)%float)).
    + cbn [obind]. unfold truediv. by destruct (is_zero length).
    + intros [db e] Hin. unfold float_of_int_checked.
      rewrite Hkeys; [reflexivity|].
      apply list_elem_of_fmap. by exists (db, e).
Qed.

(** A zero length, and the mean level of two exposures. *)
Lemma mean_noise_level_witness :
  (forall x, get_mean_noise_level [(45, 1.5%float)] 0 <> Returns x)
  /\ get_mean_noise_level [(45, 1.5%float); (72, 2.25%float)] 3.75
     = Returns (round (((45 + 2.5) * 1.5 + (72 + 2.5) * 2.25) / 3.75)%float 1).
Proof.
  split.
  - apply (proj1 (mean_noise_level_spec _ _)). reflexivity.
  - rewrite (proj2 (mean_noise_level_spec _ _)); [reflexivity|].
    intros db Hdb. cbn in Hdb.
    repeat (apply elem_of_cons in Hdb as [-> | Hdb]); [reflexivity..|].
    by apply elem_of_nil in Hdb.
Defined.

(** ** Gap filling twice *)

Lemma contains_dict_display (k : Z) (v : float) (d : Noises) :
  contains k (dict_display k v d) = true.
Proof.
  apply contains_spec. unfold dict_display, items.
  assert (H : forall acc, k ∈ keys acc ->
            k ∈ keys (fold_left (fun a kv => setitem (fst kv) (snd kv) a) d acc)).
  { induction d as [|[k1 v1] d IH]; intros acc Hacc; [exact Hacc|].
    simpl. apply IH. apply elem_of_keys_setitem. by right. }
  apply H. by left.
Qed.

Lemma gap_fill_cases (d : Noises) (length : float) :
  add_db_40_exp_to_noises (Some d) length = Some d
  \/ exists v, add_db_40_exp_to_noises (Some d) length
               = Some (dict_display 40 v d).
Proof.
  unfold add_db_40_exp_to_noises.
  destruct (negb (truthy length) || contains 40 d); [by left|].
  destruct (truthy (round _ 2)); [right; eauto | by left].
Qed.

(** X6.  Filling the 40 dB gap twice is the same as filling it once:
    [add_db_40_exp_to_noises] applied to its own result, with the same
    length, returns it unchanged. *)
Theorem gap_fill_idempotent (noises : option Noises) (length : float) :
  add_db_40_exp_to_noises (add_db_40_exp_to_noises noises length) length
  = add_db_40_exp_to_noises noises length.
Proof.
  destruct noises as [d|]; [|reflexivity].
  destruct (gap_fill_cases d length) as [H | [v H]]; rewrite H.
  - exact H.
  - unfold add_db_40_exp_to_noises.
    rewrite contains_dict_display, orb_true_r. reflexivity.
Qed.

(** ** The cost functions on maps within the table *)

(** X7.  With a cost table built by [get_db_costs] and an exposure map
    whose keys all lie in 40..79, the cost functions do not raise
    [KeyError]: [get_noise_exposure_index] and [get_noise_cost_coeff]
    return a value, and [get_noise_adjusted_edge_cost] raises the
    integrity error when [abs(length - sum(map.values())) > 0.5] and
    returns [round(base + base * coeff * sensitivity, 2)] otherwise. *)
Theorem cost_functions_total (pow : float -> float -> float) (version : Z)
    (table : gmap Z float) (d : Noises) :
  get_db_costs pow version = Ok table ->
  (forall db, db ∈ keys d -> 40 <= db <= 79) ->
  exists index coeff,
    get_noise_exposure_index (Some d) table = Ok index
    /\ get_noise_cost_coeff (Some d) table = Ok coeff
    /\ forall s length btc,
         let base := match btc with
                     | Some c => if is_zero c then length else c
                     | None => length
                     end in
         get_noise_adjusted_edge_cost s table (Some d) length btc
         = if (0.5 <? abs (length - sum (values d)))%float then Err ValueError
           else Ok (round (base + base * coeff * s)%float 2).
Proof.
  intros Htable Hkeys.
  assert (Hc : exists c, forall db len, In (db, len) d -> table !! db = Some (c db)).
  { unfold get_db_costs in Htable.
    destruct (version =? 2); [|destruct (version =? 3); [|discriminate]];
      injection Htable as <-; eexists; intros db len Hin;
      rewrite dict_comprehension_range;
      (rewrite bool_decide_eq_true_2; [reflexivity|]);
      apply Hkeys, list_elem_of_fmap; exists (db, len);
      (split; [reflexivity | by apply list_elem_of_In]). }
  destruct Hc as [c Hc].
  pose proof (db_distance_costs_total d table c Hc) as Hcosts.
  assert (Hcoeff : exists coeff, get_noise_cost_coeff (Some d) table = Ok coeff).
  { destruct d as [|p d]; [by eexists|].
    unfold get_noise_cost_coeff. rewrite Hcosts. by eexists. }
  destruct Hcoeff as [coeff Hcoeff].
  assert (Hindex : exists index, get_noise_exposure_index (Some d) table = Ok index).
  { destruct d as [|p d]; [by eexists|].
    unfold get_noise_exposure_index. rewrite Hcosts. by eexists. }
  destruct Hindex as [index Hindex].
  exists index, coeff. split; [exact Hindex|]. split; [exact Hcoeff|].
  intros s length btc base. unfold get_noise_adjusted_edge_cost.
  destruct (0.5 <? abs (length - sum (values d)))%float; [reflexivity|].
  rewrite Hcoeff. cbn [Py.bind]. subst base. unfold truthy.
  destruct btc as [c0|]; [destruct (is_zero c0)|]; reflexivity.
Qed.

(** The version-2 table and the levels 45 and 60. *)
Lemma cost_functions_total_witness :
  exists index coeff,
    get_noise_exposure_index (Some [(45, 5%float); (60, 15%float)])
      (dict_comprehension calc_db_cost_v2 (range 40 80)) = Ok index
    /\ get_noise_cost_coeff (Some [(45, 5%float); (60, 15%float)])
         (dict_comprehension calc_db_cost_v2 (range 40 80)) = Ok coeff.
Proof.
  destruct (cost_functions_total Libm.reference_pow 2
              (dict_comprehension calc_db_cost_v2 (range 40 80))
              [(45, 5%float); (60, 15%float)]) as (index & coeff & Hi & Hc & _).
  - reflexivity.
  - intros db Hdb. cbn in Hdb.
    repeat (apply elem_of_cons in Hdb as [-> | Hdb]); [lia..|].
    by apply elem_of_nil in Hdb.
  - exists index, coeff. split; assumption.
Defined.

(** ** The attribute enumerations *)

Lemma node_of_value_inv (attr : string) (a : Node.t) :
  Node.of_value attr = Ok a -> Node.value a = attr.
Proof.
  unfold Node.of_value.
  destruct (find _ _) as [a'|] eqn:Hf; [|discriminate].
  intros [= ->]. apply find_some in Hf as [_ Hf]. by apply String.eqb_eq.
Qed.

Lemma edge_of_value_inv (attr : string) (a : Edge.t) :
  Edge.of_value attr = Ok a -> Edge.value a = attr.
Proof.
  unfold Edge.of_value.
  destruct (find _ _) as [a'|] eqn:Hf; [|discriminate].
  intros [= ->]. apply find_some in Hf as [_ Hf]. by apply String.eqb_eq.
Qed.

(** X8.  In [Node] and in [Edge] no two members have the same value:
    looking a member's value up ([Node(value)], [Edge(value)]) returns
    that member, a successful lookup returns a member with the given
    value, and [value] is injective. *)
Theorem attribute_values_unique :
  (forall a, Node.of_value (Node.value a) = Ok a)
  /\ (forall a, Edge.of_value (Edge.value a) = Ok a)
  /\ (forall attr a, Node.of_value attr = Ok a -> Node.value a = attr)
  /\ (forall attr a, Edge.of_value attr = Ok a -> Edge.value a = attr)
  /\ (forall a b, Node.value a = Node.value b -> a = b)
  /\ (forall a b, Edge.value a = Edge.value b -> a = b).
Proof.
  assert (HN : forall a, Node.of_value (Node.value a) = Ok a)
    by (intros []; reflexivity).
  assert (HE : forall a, Edge.of_value (Edge.value a) = Ok a)
    by (intros []; reflexivity).
  split; [exact HN|]. split; [exact HE|]. split; [|split; [|split]].
  - exact node_of_value_inv.
  - exact edge_of_value_inv.
  - intros a b Hab. pose proof (HN a) as Ha. rewrite Hab, HN in Ha. congruence.
  - intros a b Hab. pose proof (HE a) as Ha. rewrite Hab, HE in Ha. congruence.
Qed.

(** The lookup of ["n"], and two members with equal values. *)
Lemma attribute_values_unique_witness :
  Edge.value Edge.noises = "n"%string /\ Node.traffic_light = Node.traffic_light.
Proof.
  destruct attribute_values_unique as (_ & _ & _ & HE & HN & _).
  split; [apply HE; reflexivity | apply HN; reflexivity].
Defined.

(** X9.  An attribute name used for both nodes and edges is decoded in
    the same way: when both registries have a converter for the name,
    the two converters are the same function. *)
Theorem converters_agree (literal_eval : string -> result pyval)
    (wkt_loads : string -> result string) (attr : string)
    (cn ce : pyval -> result pyval) :
  node_converter literal_eval wkt_loads attr = Ok cn ->
  edge_converter literal_eval wkt_loads attr = Ok ce ->
  cn = ce.
Proof.
  unfold node_converter, edge_converter.
  destruct (Node.of_value attr) as [n|] eqn:Hn; [|discriminate].
  destruct (Edge.of_value attr) as [e|] eqn:He; [|discriminate].
  cbn [Py.bind]. intros [= <-] [= <-].
  apply node_of_value_inv in Hn. apply edge_of_value_inv in He.
  destruct n, e; try reflexivity; subst attr; discriminate He.
Qed.

(** The name ["b_tw"], of a node and of an edge attribute. *)
Lemma converters_agree_witness :
  value_converter_by_node_attribute example_literal_eval example_wkt_loads
    Node.traversable_walking
  = value_converter_by_edge_attribute example_literal_eval example_wkt_loads
      Edge.traversable_walking.
Proof.
  apply (converters_agree example_literal_eval example_wkt_loads "b_tw");
    reflexivity.
Defined.

(** ** Export: the steps on the copy *)

Lemma with_heap_id (s : State) (g : loc) (G : Graph) :
  heap s !! g = Some G -> with_heap s (<[g := G]> (heap s)) = s.
Proof.
  intros H. unfold with_heap. rewrite insert_id by exact H. by destruct s.
Qed.

Lemma on_object_run (gc : loc) (f : Graph -> result Graph) (s : State)
    (G : Graph) :
  heap s !! gc = Some G ->
  on_object gc f s
  = match f G with
    | Ok G' => (Ok tt, with_heap s (<[gc := G']> (heap s)))
    | Err e => (Err e, s)
    end.
Proof.
  intros H. unfold on_object, mbind, load, lift, store. rewrite H.
  destruct (f G); reflexivity.
Qed.

Lemma for_each_on_object {A : Type} (gc : loc) (body : A -> M unit)
    (f : A -> Graph -> result Graph) (l : list A) :
  (forall x s, heap s !! gc <> None -> body x s = on_object gc (f x) s) ->
  forall s G, heap s !! gc = Some G ->
    for_each l body s
    = (fst (steps f l G), with_heap s (<[gc := snd (steps f l G)]> (heap s))).
Proof.
  intros Hbody. induction l as [|x l IH]; intros s G Hs; cbn [for_each steps].
  - cbn [fst snd]. rewrite (with_heap_id s gc G Hs). reflexivity.
  - unfold mbind. rewrite Hbody by (rewrite Hs; discriminate).
    rewrite (on_object_run gc (f x) s G Hs).
    destruct (f x G) as [G'|e].
    + rewrite (IH _ G') by (simpl; apply lookup_insert_eq).
      unfold with_heap. simpl. rewrite insert_insert_eq. reflexivity.
    + cbn [fst snd]. rewrite (with_heap_id s gc G Hs). reflexivity.
Qed.

Lemma stringify_on_object (k : Seq) (gc : loc) (attr : string) (s : State) :
  stringify k gc attr s = on_object gc (stringified k attr) s.
Proof.
  unfold stringify, on_object, stringified, mbind, load, lift.
  destruct (heap s !! gc) as [G|]; [|reflexivity].
  destruct (get_attribute k G attr); reflexivity.
Qed.

Lemma stringify_if_present_on_object (k : Seq) (gc : loc) (attr : string)
    (s : State) :
  stringify_if_present k gc attr s
  = on_object gc (stringified_if_present k attr) s.
Proof.
  unfold stringify_if_present, stringified_if_present.
  unfold mbind at 1 2. unfold on_object, mbind, load, lift.
  destruct (heap s !! gc) as [G|] eqn:HG; [|reflexivity].
  destruct (element_attributes k G 0) as [attrs|e]; [|reflexivity].
  cbn [Py.bind]. case_bool_decide;
    [|unfold store, ret; f_equal; symmetry; apply (with_heap_id s gc G HG)].
  rewrite stringify_on_object. unfold on_object, mbind, load, lift.
  rewrite HG. reflexivity.
Qed.

Lemma delete_unless_on_object (k : Seq) (gc : loc) (selected : list string)
    (attr : string) (s : State) :
  heap s !! gc <> None ->
  (if bool_decide (attr ∉ selected) then delete_attribute k gc attr
   else ret tt) s
  = on_object gc (deleted_unless k selected attr) s.
Proof.
  intros Hs. unfold deleted_unless. case_bool_decide; [reflexivity|].
  unfold on_object, mbind, load, lift, store, ret.
  destruct (heap s !! gc) as [G|] eqn:HG; [|contradiction].
  f_equal. symmetry. apply (with_heap_id s gc G HG).
Qed.

Lemma export_attributes_run (k : Seq) (g gc : loc)
    (registry selected : list string) (s : State) (G Gc : Graph) :
  g <> gc -> heap s !! g = Some G -> heap s !! gc = Some Gc ->
  export_attributes k g gc registry selected s
  = (fst (branch_steps k G registry selected Gc),
     with_heap s (<[gc := snd (branch_steps k G registry selected Gc)]> (heap s))).
Proof.
  intros Hne Hg Hgc. unfold export_attributes, branch_steps.
  destruct selected as [|a selected].
  - apply for_each_on_object; [|exact Hgc].
    intros attr s' _. apply stringify_if_present_on_object.
  - unfold mbind at 1.
    rewrite (for_each_on_object gc _ (stringified k) _
               (fun attr s' _ => stringify_on_object k gc attr s') s Gc Hgc).
    destruct (steps (stringified k) (a :: selected) Gc) as [[[]|e] G1];
      cbn [fst snd]; [|reflexivity].
    unfold mbind, load. cbn [with_heap heap].
    rewrite lookup_insert_ne by congruence. rewrite Hg.
    rewrite (for_each_on_object gc _ (deleted_unless k (a :: selected)) _
               (fun attr s' Hs' =>
                  delete_unless_on_object k gc (a :: selected) attr s' Hs')
               _ G1) by (simpl; apply lookup_insert_eq).
    unfold with_heap. simpl. rewrite insert_insert_eq. reflexivity.
Qed.

Lemma text_column_idemp (column : list pyval) :
  text_column (text_column column) = text_column column.
Proof. unfold text_column. rewrite map_map. reflexivity. Qed.

Lemma texted_nil (k : Seq) (G : Graph) : texted k [] G G.
Proof.
  split; [reflexivity|]. split; [reflexivity|]. split; [reflexivity|].
  intros attr. rewrite bool_decide_eq_false_2; [reflexivity|].
  apply not_elem_of_nil.
Qed.

(** One column turned into text, then the columns [l]. *)
Lemma texted_cons (k : Seq) (a : string) (l : list string) (G G1 G' : Graph) :
  vcount G1 = vcount G -> links G1 = links G ->
  (forall k', k' <> k -> columns k' G1 = columns k' G) ->
  (forall attr, columns k G1 !! attr
                = if bool_decide (attr = a) then text_column <$> columns k G !! attr
                  else columns k G !! attr) ->
  texted k l G1 G' -> texted k (a :: l) G G'.
Proof.
  intros Hv Hl Hother Hcols (Hv' & Hl' & Hother' & Hcols').
  split; [congruence|]. split; [congruence|]. split.
  - intros k' Hk'. rewrite (Hother' k' Hk'). apply Hother, Hk'.
  - intros attr. rewrite Hcols', Hcols.
    destruct (decide (attr = a)) as [->|Hne].
    + rewrite (bool_decide_eq_true_2 (a = a)) by reflexivity.
      rewrite (bool_decide_eq_true_2 (a ∈ a :: l)) by (by left).
      case_bool_decide; [|reflexivity].
      destruct (columns k G !! a) as [c|]; [|reflexivity].
      simpl. by rewrite text_column_idemp.
    + rewrite (bool_decide_eq_false_2 (attr = a)) by exact Hne.
      case_bool_decide as Hin.
      * rewrite bool_decide_eq_true_2; [reflexivity | by right].
      * rewrite bool_decide_eq_false_2; [reflexivity|].
        intros [?|?]%elem_of_cons; contradiction.
Qed.

Lemma set_attribute_lookup (k : Seq) (G : Graph) (a attr : string)
    (values : list pyval) :
  columns k (set_attribute k G a values) !! attr
  = if bool_decide (attr = a) then Some values else columns k G !! attr.
Proof.
  unfold set_attribute. rewrite columns_with_columns.
  case_bool_decide as H.
  - subst attr. apply lookup_insert_eq.
  - apply lookup_insert_ne. congruence.
Qed.

Lemma set_attribute_other (k k' : Seq) (G : Graph) (a : string)
    (values : list pyval) :
  k' <> k -> columns k' (set_attribute k G a values) = columns k' G.
Proof. intros H. unfold set_attribute. by apply columns_with_columns_other. Qed.

Lemma stringified_present (k : Seq) (a : string) (G : Graph)
    (column : list pyval) :
  columns k G !! a = Some column ->
  stringified k a G = Ok (set_attribute k G a (text_column column)).
Proof.
  intros H. unfold stringified, get_attribute, getitem. rewrite H. reflexivity.
Qed.

Lemma stringified_step (k : Seq) (a : string) (G : Graph)
    (column : list pyval) :
  columns k G !! a = Some column ->
  let G1 := set_attribute k G a (text_column column) in
  vcount G1 = vcount G /\ links G1 = links G
  /\ (forall k', k' <> k -> columns k' G1 = columns k' G)
  /\ (forall attr, columns k G1 !! attr
                   = if bool_decide (attr = a)
                     then text_column <$> columns k G !! attr
                     else columns k G !! attr).
Proof.
  intros H G1.
  destruct (set_attribute_structure k G a (text_column column)) as [Hv Hl].
  split; [exact Hv|]. split; [exact Hl|]. split.
  - intros k' Hk'. by apply set_attribute_other.
  - intros attr. subst G1. rewrite set_attribute_lookup.
    case_bool_decide as Ha; [|reflexivity]. subst attr. by rewrite H.
Qed.

Lemma steps_stringified (k : Seq) (l : list string) :
  forall G, (forall attr, attr ∈ l -> is_Some (columns k G !! attr)) ->
    exists G', steps (stringified k) l G = (Ok tt, G') /\ texted k l G G'.
Proof.
  induction l as [|a l IH]; intros G Hl.
  - exists G. split; [reflexivity | apply texted_nil].
  - destruct (Hl a) as [column Ha]; [by left|].
    cbn [steps]. rewrite (stringified_present k a G column Ha).
    destruct (stringified_step k a G column Ha) as (Hv & Hlk & Hother & Hcols).
    destruct (IH (set_attribute k G a (text_column column))) as (G' & Hrun & Ht).
    { intros attr Hattr. rewrite Hcols.
      destruct (Hl attr) as [c Hc]; [by right|].
      case_bool_decide; rewrite Hc; eauto. }
    exists G'. split; [exact Hrun|].
    exact (texted_cons k a l G _ G' Hv Hlk Hother Hcols Ht).
Qed.

Lemma steps_stringified_missing (k : Seq) (l : list string) :
  forall G, (exists attr, attr ∈ l /\ columns k G !! attr = None) ->
    fst (steps (stringified k) l G) = Err KeyError.
Proof.
  induction l as [|a l IH]; intros G (attr & Hin & Hmiss).
  - by apply elem_of_nil in Hin.
  - cbn [steps]. destruct (columns k G !! a) as [column|] eqn:Ha.
    + rewrite (stringified_present k a G column Ha).
      apply IH. exists attr.
      apply elem_of_cons in Hin as [-> | Hin]; [congruence|].
      split; [exact Hin|]. rewrite set_attribute_lookup.
      case_bool_decide; [congruence | exact Hmiss].
    + unfold stringified, get_attribute, getitem. rewrite Ha. reflexivity.
Qed.

Lemma stringified_if_present_step (k : Seq) (a : string) (G : Graph) :
  (0 < count k G)%nat ->
  exists G1, stringified_if_present k a G = Ok G1
    /\ vcount G1 = vcount G /\ links G1 = links G
    /\ (forall k', k' <> k -> columns k' G1 = columns k' G)
    /\ (forall attr, columns k G1 !! attr
                     = if bool_decide (attr = a)
                       then text_column <$> columns k G !! attr
                       else columns k G !! attr).
Proof.
  intros Hcount. unfold stringified_if_present.
  destruct (element_attributes k G 0) as [attrs|e] eqn:Hattrs.
  - cbn [Py.bind]. case_bool_decide as Hin.
    + apply (element_attributes_keys k G attrs a Hattrs) in Hin
        as (column & v & Hcol & _).
      rewrite (stringified_present k a G column Hcol).
      eexists. split; [reflexivity|]. exact (stringified_step k a G column Hcol).
    + exists G. do 4 (split; [reflexivity|]). intros attr.
      case_bool_decide as Ha; [|reflexivity]. subst attr.
      destruct (columns k G !! a) as [[|v column]|] eqn:Hcol; [reflexivity| |reflexivity].
      exfalso. apply Hin.
      apply (element_attributes_keys k G attrs a Hattrs). eauto.
  - unfold element_attributes in Hattrs.
    apply Nat.ltb_lt in Hcount. rewrite Hcount in Hattrs. discriminate.
Qed.

Lemma steps_if_present (k : Seq) (l : list string) :
  forall G, (0 < count k G)%nat ->
    exists G', steps (stringified_if_present k) l G = (Ok tt, G')
               /\ texted k l G G'.
Proof.
  induction l as [|a l IH]; intros G Hcount.
  - exists G. split; [reflexivity | apply texted_nil].
  - destruct (stringified_if_present_step k a G Hcount)
      as (G1 & Hstep & Hv & Hlk & Hother & Hcols).
    cbn [steps]. rewrite Hstep.
    destruct (IH G1) as (G' & Hrun & Ht).
    { destruct k; cbn [count] in *; congruence. }
    exists G'. split; [exact Hrun|].
    exact (texted_cons k a l G G1 G' Hv Hlk Hother Hcols Ht).
Qed.

Lemma steps_if_present_empty (k : Seq) (l : list string) (G : Graph) :
  count k G = 0%nat -> l <> [] ->
  steps (stringified_if_present k) l G = (Err IndexError, G).
Proof.
  intros Hcount Hl. destruct l as [|a l]; [contradiction|].
  cbn [steps]. unfold stringified_if_present, element_attributes.
  rewrite Hcount. reflexivity.
Qed.

Lemma steps_deleted (k : Seq) (selected names : list string) :
  forall G, NoDup names ->
    (forall attr, attr ∈ names -> attr ∉ selected ->
                  is_Some (columns k G !! attr)) ->
    exists G', steps (deleted_unless k selected) names G = (Ok tt, G')
      /\ vcount G' = vcount G /\ links G' = links G
      /\ (forall k', k' <> k -> columns k' G' = columns k' G)
      /\ (forall attr,
            columns k G' !! attr
            = if bool_decide (attr ∈ names /\ attr ∉ selected) then None
              else columns k G !! attr).
Proof.
  induction names as [|a names IH]; intros G Hnd Hpresent.
  - exists G. do 4 (split; [reflexivity|]). intros attr.
    rewrite bool_decide_eq_false_2; [reflexivity|].
    intros [H _]. by apply elem_of_nil in H.
  - apply NoDup_cons in Hnd as [Ha Hnd]. cbn [steps].
    unfold deleted_unless at 1. case_bool_decide as Hsel.
    + destruct (Hpresent a) as [column Hcol]; [by left | exact Hsel|].
      unfold del_attribute. rewrite Hcol.
      set (G1 := with_columns k G (delete a (columns k G))).
      assert (Hcols1 : forall attr, columns k G1 !! attr
                = if bool_decide (attr = a) then None else columns k G !! attr).
      { intros attr. subst G1. rewrite columns_with_columns.
        case_bool_decide as H.
        - subst attr. apply lookup_delete_eq.
        - apply lookup_delete_ne. congruence. }
      destruct (IH G1 Hnd) as (G' & Hrun & Hv & Hl & Hother & Hcols).
      { intros attr Hattr Hns. rewrite Hcols1.
        rewrite bool_decide_eq_false_2 by (intros ->; contradiction).
        apply Hpresent; [by right | exact Hns]. }
      exists G'. split; [exact Hrun|].
      split; [rewrite Hv; by destruct k|]. split; [rewrite Hl; by destruct k|].
      split.
      * intros k' Hk'. rewrite (Hother k' Hk'). subst G1.
        by apply columns_with_columns_other.
      * intros attr. rewrite Hcols, Hcols1.
        destruct (decide (attr = a)) as [->|Hne].
        -- rewrite (bool_decide_eq_true_2 (a = a)) by reflexivity.
           rewrite (bool_decide_eq_true_2 (a ∈ a :: names /\ _));
             [by case_bool_decide | split; [by left | exact Hsel]].
        -- rewrite (bool_decide_eq_false_2 (attr = a)) by exact Hne.
           rewrite (bool_decide_ext (attr ∈ a :: names /\ attr ∉ selected)
                      (attr ∈ names /\ attr ∉ selected));
             [reflexivity | rewrite elem_of_cons; tauto].
    + destruct (IH G Hnd) as (G' & Hrun & Hv & Hl & Hother & Hcols).
      { intros attr Hattr Hns. apply Hpresent; [by right | exact Hns]. }
      exists G'. split; [exact Hrun|].
      split; [exact Hv|]. split; [exact Hl|]. split; [exact Hother|].
      intros attr. rewrite Hcols.
      destruct (decide (attr = a)) as [->|Hne].
      * rewrite !bool_decide_eq_false_2; [reflexivity | tauto | tauto].
      * rewrite (bool_decide_ext (attr ∈ a :: names /\ attr ∉ selected)
                   (attr ∈ names /\ attr ∉ selected));
          [reflexivity | rewrite elem_of_cons; tauto].
Qed.

Lemma forallb_false {A : Type} (p : A -> bool) (l : list A) :
  forallb p l = false -> exists x, x ∈ l /\ p x = false.
Proof.
  induction l as [|x l IH]; simpl; [discriminate|].
  destruct (p x) eqn:Hx; simpl.
  - intros (y & Hy & Hpy)%IH. exists y. split; [by right | exact Hpy].
  - intros _. exists x. split; [by left | exact Hx].
Qed.

Lemma branch_steps_ok (k : Seq) (G Gc : Graph) (registry selected : list string) :
  columns k Gc = columns k G -> count k Gc = count k G ->
  branch_ok k G selected = true ->
  exists G', branch_steps k G registry selected Gc = (Ok tt, G')
    /\ vcount G' = vcount Gc /\ links G' = links Gc
    /\ (forall k', k' <> k -> columns k' G' = columns k' Gc)
    /\ (forall attr, columns k G' !! attr
                     = exported_column registry selected (columns k G) attr).
Proof.
  intros Hcols Hcount Hok. unfold branch_steps, branch_ok in *.
  destruct selected as [|a selected].
  - apply Nat.ltb_lt in Hok. rewrite <- Hcount in Hok.
    destruct (steps_if_present k registry Gc Hok)
      as (G' & Hrun & Hv & Hl & Hother & Hc).
    exists G'. split; [exact Hrun|]. split; [exact Hv|]. split; [exact Hl|].
    split; [exact Hother|]. intros attr. rewrite Hc, Hcols.
    unfold exported_column.
    case_bool_decide; [reflexivity|]. by destruct (columns k G !! attr).
  - set (sel := a :: selected) in *.
    assert (Hpresent : forall attr, attr ∈ sel -> is_Some (columns k Gc !! attr)).
    { intros attr Hin. rewrite Hcols.
      rewrite forallb_forall in Hok.
      apply list_elem_of_In, Hok in Hin. by apply bool_decide_eq_true in Hin. }
    destruct (steps_stringified k sel Gc Hpresent)
      as (G1 & Hrun1 & Hv1 & Hl1 & Hother1 & Hc1).
    rewrite Hrun1.
    destruct (steps_deleted k sel (attribute_names k G) G1)
      as (G' & Hrun & Hv & Hl & Hother & Hc).
    { apply NoDup_dict_keys. }
    { intros attr Hname Hns. rewrite Hc1.
      rewrite bool_decide_eq_false_2 by exact Hns.
      rewrite Hcols. by apply elem_of_dict_keys. }
    exists G'. split; [exact Hrun|].
    split; [congruence|]. split; [congruence|]. split.
    + intros k' Hk'. rewrite (Hother k' Hk'). apply Hother1, Hk'.
    + intros attr. rewrite Hc, Hc1, Hcols. unfold exported_column. fold sel.
      destruct (decide (attr ∈ sel)) as [Hin|Hout].
      * rewrite (bool_decide_eq_true_2 (attr ∈ sel)) by exact Hin.
        rewrite bool_decide_eq_false_2; [reflexivity | tauto].
      * rewrite (bool_decide_eq_false_2 (attr ∈ sel)) by exact Hout.
        case_bool_decide as Hn; [reflexivity|].
        destruct (columns k G !! attr) as [c|] eqn:Hattr; [|reflexivity].
        exfalso. apply Hn. split; [|exact Hout].
        apply elem_of_dict_keys. rewrite Hattr. eauto.
Qed.

Lemma branch_steps_error (k : Seq) (G Gc : Graph)
    (registry selected : list string) :
  columns k Gc = columns k G -> count k Gc = count k G ->
  registry <> [] -> branch_ok k G selected = false ->
  fst (branch_steps k G registry selected Gc) = Err (branch_error selected).
Proof.
  intros Hcols Hcount Hreg Hok. unfold branch_steps, branch_ok in *.
  destruct selected as [|a selected].
  - apply Nat.ltb_ge in Hok. rewrite steps_if_present_empty; [reflexivity| |exact Hreg].
    lia.
  - set (sel := a :: selected) in *.
    assert (Hmiss : exists attr, attr ∈ sel /\ columns k Gc !! attr = None).
    { apply forallb_false in Hok as (attr & Hin & Hattr).
      exists attr. split; [exact Hin|]. rewrite Hcols.
      apply bool_decide_eq_false in Hattr.
      destruct (columns k G !! attr); [|reflexivity].
      exfalso. apply Hattr. eauto. }
    pose proof (steps_stringified_missing k sel Gc Hmiss) as Hrun.
    destruct (steps (stringified k) sel Gc) as [[[]|e] G1]; simpl in *;
      [discriminate | exact Hrun].
Qed.

Section ExportRun.

Variable writable : string -> bool.
Variables (g : loc) (graph_file : string).
Variables (n_attrs : list Node.t) (e_attrs : list Edge.t).
Variables (s : State) (G : Graph).
Hypothesis Hg : heap s !! g = Some G.

Let gc : loc := fresh (dom (heap s)).
Let b1 := branch_steps VS G (map Node.value Node.members)
            (map Node.value n_attrs) G.
Let b2 := branch_steps ES G (map Edge.value Edge.members)
            (map Edge.value e_attrs) (snd b1).

(** The export, step by step, on a store that holds the graph [G] as
    object [g]. *)
Lemma export_run :
  export_to_graphml writable g graph_file n_attrs e_attrs s
  = match fst b1 with
    | Err e => (Err e, with_heap s (<[gc := snd b1]> (heap s)))
    | Ok _ =>
        match fst b2 with
        | Err e => (Err e, with_heap s (<[gc := snd b2]> (heap s)))
        | Ok _ =>
            if writable graph_file
            then (Ok tt,
                  {| heap := <[gc := snd b2]> (heap s);
                     files := <[graph_file := snd b2]> (files s);
                     logged := logged s
                               ++ [("Exported graph to file: " ++ graph_file)%string] |})
            else (Err OSError, with_heap s (<[gc := snd b2]> (heap s)))
        end
    end.
Proof.
  assert (Hfresh : heap s !! gc = None) by (apply not_elem_of_dom, is_fresh).
  assert (Hne : g <> gc) by (intros Heq; rewrite Heq, Hfresh in Hg; discriminate).
  unfold export_to_graphml. unfold mbind at 1, copy, mbind, load. rewrite Hg.
  fold gc.
  set (s1 := {| heap := <[gc := G]> (heap s); files := files s;
                logged := logged s |}).
  assert (Hg1 : heap s1 !! g = Some G)
    by (simpl; rewrite lookup_insert_ne by congruence; exact Hg).
  rewrite (export_attributes_run VS g gc _ _ s1 G G Hne Hg1)
    by (simpl; apply lookup_insert_eq).
  fold b1. unfold with_heap, s1. cbn [heap files logged].
  rewrite insert_insert_eq.
  destruct (fst b1) as [[]|e]; [|reflexivity].
  set (s2 := {| heap := <[gc := snd b1]> (heap s); files := files s;
                logged := logged s |}).
  assert (Hg2 : heap s2 !! g = Some G)
    by (simpl; rewrite lookup_insert_ne by congruence; exact Hg).
  rewrite (export_attributes_run ES g gc _ _ s2 G (snd b1) Hne Hg2)
    by (simpl; apply lookup_insert_eq).
  fold b2. unfold with_heap, s2. cbn [heap files logged].
  rewrite insert_insert_eq.
  destruct (fst b2) as [[]|e]; [|reflexivity].
  unfold save, mbind, load, log_info. cbn [heap files logged].
  rewrite lookup_insert_eq.
  destruct (writable graph_file); reflexivity.
Qed.

End ExportRun.

Lemma registries_nonempty :
  map Node.value Node.members <> [] /\ map Edge.value Edge.members <> [].
Proof. split; discriminate. Qed.

(** How an export ends, on a store that holds the graph [G] as object
    [g]: it raises in the node branch, in the edge branch or when the
    file is written, or it returns and the file holds the graph [Gs]. *)
Lemma export_cases (writable : string -> bool) (g : loc)
    (graph_file : string) (n_attrs : list Node.t) (e_attrs : list Edge.t)
    (s : State) (G : Graph) :
  heap s !! g = Some G ->
  let run := export_to_graphml writable g graph_file n_attrs e_attrs s in
  if branch_ok VS G (map Node.value n_attrs) then
    if branch_ok ES G (map Edge.value e_attrs) then
      if writable graph_file then
        exists Gs,
          fst run = Ok tt
          /\ files (snd run) = <[graph_file := Gs]> (files s)
          /\ logged (snd run)
             = logged s ++ [("Exported graph to file: " ++ graph_file)%string]
          /\ vcount Gs = vcount G /\ links Gs = links G
          /\ (forall attr,
                vs Gs !! attr
                = exported_column (map Node.value Node.members)
                    (map Node.value n_attrs) (vs G) attr)
          /\ (forall attr,
                es Gs !! attr
                = exported_column (map Edge.value Edge.members)
                    (map Edge.value e_attrs) (es G) attr)
      else fst run = Err OSError
    else fst run = Err (branch_error (map Edge.value e_attrs))
  else fst run = Err (branch_error (map Node.value n_attrs)).
Proof.
  intros Hg run. subst run.
  rewrite (export_run writable g graph_file n_attrs e_attrs s G Hg).
  destruct registries_nonempty as [HN HE].
  destruct (branch_ok VS G (map Node.value n_attrs)) eqn:Hok1.
  - destruct (branch_steps_ok VS G G (map Node.value Node.members)
                (map Node.value n_attrs) eq_refl eq_refl Hok1)
      as (G1 & -> & Hv1 & Hl1 & Hother1 & Hc1).
    cbn [fst snd].
    assert (Hes : columns ES G1 = columns ES G) by (by apply Hother1).
    assert (Hcount : count ES G1 = count ES G) by (simpl; by rewrite Hl1).
    destruct (branch_ok ES G (map Edge.value e_attrs)) eqn:Hok2.
    + destruct (branch_steps_ok ES G G1 (map Edge.value Edge.members)
                  (map Edge.value e_attrs) Hes Hcount Hok2)
        as (G2 & -> & Hv2 & Hl2 & Hother2 & Hc2).
      cbn [fst snd]. destruct (writable graph_file); [|reflexivity].
      exists G2. cbn [fst snd files logged].
      split; [reflexivity|]. split; [reflexivity|]. split; [reflexivity|].
      split; [congruence|]. split; [congruence|]. split.
      * intros attr. change (vs G2) with (columns VS G2).
        rewrite (Hother2 VS) by discriminate. apply Hc1.
      * exact Hc2.
    + pose proof (branch_steps_error ES G G1 (map Edge.value Edge.members)
                    (map Edge.value e_attrs) Hes Hcount HE Hok2) as Herr.
      rewrite Herr. reflexivity.
  - pose proof (branch_steps_error VS G G (map Node.value Node.members)
                  (map Node.value n_attrs) eq_refl eq_refl HN Hok1) as Herr.
    rewrite Herr. reflexivity.
Qed.

(** X11.  The outcome of [export_to_graphml] on a graph [G].  With no
    node attributes selected the export needs a first node and raises
    [IndexError] on a graph without nodes; with a selection it needs
    every selected attribute on the graph and raises [KeyError]
    otherwise ([branch_ok], [branch_error]).  The node branch is checked
    first, then the edge branch in the same way, then the file is
    written: [OSError] if that fails, and the export returns otherwise. *)
Theorem export_outcome (writable : string -> bool) (g : loc)
    (graph_file : string) (n_attrs : list Node.t) (e_attrs : list Edge.t)
    (s : State) (G : Graph) :
  heap s !! g = Some G ->
  fst (export_to_graphml writable g graph_file n_attrs e_attrs s)
  = if negb (branch_ok VS G (map Node.value n_attrs))
    then Err (branch_error (map Node.value n_attrs))
    else if negb (branch_ok ES G (map Edge.value e_attrs))
    then Err (branch_error (map Edge.value e_attrs))
    else if writable graph_file then Ok tt else Err OSError.
Proof.
  intros Hg.
  pose proof (export_cases writable g graph_file n_attrs e_attrs s G Hg) as H.
  cbv zeta in H.
  destruct (branch_ok VS G (map Node.value n_attrs)); [|exact H].
  destruct (branch_ok ES G (map Edge.value e_attrs)); [|exact H].
  destruct (writable graph_file); [|exact H].
  destruct H as (Gs & Hr & _). exact Hr.
Qed.

(** An export of [typed_graph] in full, and one that selects a node
    attribute the graph does not have. *)
Lemma export_outcome_witness :
  fst (export_to_graphml (fun _ => true) 1%positive "out.graphml" [] []
         typed_store) = Ok tt
  /\ fst (export_to_graphml (fun _ => true) 1%positive "out.graphml"
            [Node.id_otp] [] typed_store) = Err KeyError.
Proof.
  split.
  - rewrite (export_outcome (fun _ => true) 1%positive "out.graphml" [] []
               typed_store typed_graph); reflexivity.
  - rewrite (export_outcome (fun _ => true) 1%positive "out.graphml"
               [Node.id_otp] [] typed_store typed_graph); reflexivity.
Defined.



(** X13.  An export that raises has written no file and logged
    nothing, whatever the store and the selections. *)
Theorem export_failure_writes_nothing (writable : string -> bool) (g : loc)
    (graph_file : string) (n_attrs : list Node.t) (e_attrs : list Edge.t)
    (s s' : State) (e : exn) :
  export_to_graphml writable g graph_file n_attrs e_attrs s = (Err e, s') ->
  files s' = files s /\ logged s' = logged s.
Proof.
  destruct (heap s !! g) as [G|] eqn:Hg.
  - rewrite (export_run writable g graph_file n_attrs e_attrs s G Hg).
    destruct (fst (branch_steps VS G _ _ G)) as [[]|e1].
    + destruct (fst (branch_steps ES G _ _ _)) as [[]|e2].
      * destruct (writable graph_file); [discriminate|].
        intros [= _ <-]. split; reflexivity.
      * intros [= _ <-]. split; reflexivity.
    + intros [= _ <-]. split; reflexivity.
  - unfold export_to_graphml. unfold mbind at 1, copy, mbind, load.
    rewrite Hg. intros [= _ <-]. split; reflexivity.
Qed.

(** An export to a path that cannot be written. *)
Lemma export_failure_writes_nothing_witness :
  let s' := snd (export_to_graphml (fun _ => false) 1%positive "out.graphml"
                   [] [] typed_store) in
  files s' = ∅ /\ logged s' = [].
Proof.
  apply (export_failure_writes_nothing (fun _ => false) 1%positive
           "out.graphml" [] [] typed_store _ OSError).
  apply injective_projections; [vm_compute; reflexivity | reflexivity].
Defined.

(** ** The edge dictionaries *)

#[local] Instance edge_eq_dec : EqDecision Edge.t.
Proof. solve_decision. Defined.

Lemma name_inj (a b : Edge.t) : name a = name b -> a = b.
Proof. destruct a, b; intros H; try reflexivity; discriminate H. Qed.

Lemma edge_dict_lookup (edge_attrs : gmap string pyval) (attrs : list Edge.t)
    (a : Edge.t) :
  edge_dict edge_attrs attrs !! name a
  = if bool_decide (a ∈ attrs) then edge_attrs !! Edge.value a else None.
Proof.
  unfold edge_dict.
  assert (H : forall acc : gmap string pyval,
            foldl (fun edge_dict attr =>
                     match edge_attrs !! Edge.value attr with
                     | Some v => <[name attr := v]> edge_dict
                     | None => edge_dict
                     end) acc attrs !! name a
            = if bool_decide (a ∈ attrs)
              then match edge_attrs !! Edge.value a with
                   | Some v => Some v
                   | None => acc !! name a
                   end
              else acc !! name a).
  { induction attrs as [|b attrs IH]; intros acc; cbn [foldl].
    - rewrite bool_decide_eq_false_2; [reflexivity | apply not_elem_of_nil].
    - rewrite IH. destruct (decide (a = b)) as [<-|Hne].
      + rewrite (bool_decide_eq_true_2 (a ∈ a :: attrs)) by (by left).
        destruct (edge_attrs !! Edge.value a) as [v|] eqn:Hv.
        * rewrite lookup_insert_eq. by case_bool_decide.
        * by case_bool_decide.
      + assert (Hacc : match edge_attrs !! Edge.value b with
                       | Some v => <[name b := v]> acc
                       | None => acc
                       end !! name a = acc !! name a).
        { destruct (edge_attrs !! Edge.value b); [|reflexivity].
          apply lookup_insert_ne. intros Hn. apply name_inj in Hn. congruence. }
        rewrite Hacc.
        rewrite (bool_decide_ext (a ∈ b :: attrs) (a ∈ attrs));
          [reflexivity | rewrite elem_of_cons; tauto]. }
  rewrite H, lookup_empty. case_bool_decide; [|reflexivity].
  by destruct (edge_attrs !! Edge.value a).
Qed.

Lemma edge_dict_keys (edge_attrs : gmap string pyval) (attrs : list Edge.t)
    (key : string) :
  is_Some (edge_dict edge_attrs attrs !! key) ->
  exists a, a ∈ attrs /\ key = name a.
Proof.
  unfold edge_dict.
  assert (H : forall acc : gmap string pyval,
            is_Some (foldl (fun edge_dict attr =>
                              match edge_attrs !! Edge.value attr with
                              | Some v => <[name attr := v]> edge_dict
                              | None => edge_dict
                              end) acc attrs !! key) ->
            is_Some (acc !! key) \/ exists a, a ∈ attrs /\ key = name a).
  { induction attrs as [|b attrs IH]; intros acc; cbn [foldl]; [by left|].
    intros [Hacc | (a & Ha & ->)]%IH.
    - destruct (edge_attrs !! Edge.value b); [|by left].
      destruct (decide (name b = key)) as [<-|Hne].
      + right. exists b. split; [by left | reflexivity].
      + rewrite lookup_insert_ne in Hacc by exact Hne. by left.
    - right. exists a. split; [by right | reflexivity]. }
  intros [Hacc | Ha]%H; [|exact Ha].
  rewrite lookup_empty in Hacc. by destruct Hacc.
Qed.

(** X10.  [get_edge_dicts] does not raise and returns one dict per
    edge, in the order of the edges.  The dict of edge [i] holds, under
    the member's name, the value of edge [i] for each selected attribute
    that the graph has, and it has no key besides the names of the
    selected attributes. *)
Theorem get_edge_dicts_spec (G : Graph) (attrs : list Edge.t) :
  exists dicts,
    get_edge_dicts G attrs = Ok dicts
    /\ length dicts = count ES G
    /\ forall i d, dicts !! i = Some d ->
         (forall a, a ∈ attrs ->
            d !! name a = es G !! Edge.value a ≫= (fun column => column !! i))
         /\ (forall key, is_Some (d !! key) ->
               exists a, a ∈ attrs /\ key = name a).
Proof.
  set (row := fun i : nat =>
         edge_dict (omap (fun column : list pyval => column !! i) (es G)) attrs).
  assert (Hrun : get_edge_dicts G attrs = Ok (map row (seq 0 (count ES G)))).
  { unfold get_edge_dicts. apply comprehension_total.
    intros i Hi. apply in_seq in Hi. unfold element_attributes.
    replace (i <? count ES G)%nat with true
      by (symmetry; apply Nat.ltb_lt; lia).
    reflexivity. }
  exists (map row (seq 0 (count ES G))). split; [exact Hrun|]. split.
  - by rewrite length_map, length_seq.
  - intros i d Hd. rewrite list_lookup_fmap in Hd.
    destruct (seq 0 (count ES G) !! i) as [j|] eqn:Hj; [|discriminate].
    apply lookup_seq in Hj as [-> _]. injection Hd as <-. split.
    + intros a Ha. unfold row. rewrite edge_dict_lookup.
      rewrite bool_decide_eq_true_2 by exact Ha.
      rewrite lookup_omap. reflexivity.
    + intros key. apply edge_dict_keys.
Qed.

(** The dict of the edge of [typed_graph]. *)
Lemma get_edge_dicts_witness :
  exists dicts d,
    get_edge_dicts typed_graph [Edge.length; Edge.noises] = Ok dicts
    /\ dicts !! 0%nat = Some d
    /\ d !! "length"%string = Some (VFloat 12.5).
Proof.
  destruct (get_edge_dicts_spec typed_graph [Edge.length; Edge.noises])
    as (dicts & Hrun & Hlen & Hd).
  destruct dicts as [|d dicts]; [discriminate Hlen|].
  exists (d :: dicts), d. split; [exact Hrun|]. split; [reflexivity|].
  destruct (Hd 0%nat d eq_refl) as [Hin _].
  assert (Hl : Edge.length ∈ [Edge.length; Edge.noises]) by (by left).
  etrans; [exact (Hin Edge.length Hl) | vm_compute; reflexivity].
Defined.

(** ** Import: what is kept and what is logged *)

Lemma comprehension_length {A B : Type} (f : A -> result B) (l : list A)
    (l' : list B) :
  comprehension f l = Ok l' -> length l' = length l.
Proof.
  revert l'. induction l as [|x l IH]; intros l'; simpl.
  - intros [= <-]. reflexivity.
  - destruct (f x) as [y|]; [|discriminate]. simpl.
    destruct (comprehension f l) as [ys|]; [|discriminate]. simpl.
    intros [= <-]. simpl. f_equal. by apply IH.
Qed.

Lemma same_shape_refl (c : option (list pyval)) : same_shape c c.
Proof. by destruct c. Qed.

Lemma decode_column_shape (k : Seq)
    (conv : string -> result (pyval -> result pyval)) (G : Graph)
    (attr : string) (converted : list pyval) :
  decode_column k conv G attr = Ok converted ->
  same_shape (columns k G !! attr) (Some converted).
Proof.
  unfold decode_column, get_attribute, getitem.
  destruct (conv attr) as [c|]; [|discriminate]. cbn [Py.bind].
  destruct (columns k G !! attr) as [column|]; [|discriminate]. cbn [Py.bind].
  apply comprehension_length.
Qed.

Lemma convert_attributes_shape (k : Seq)
    (conv : string -> result (pyval -> result pyval)) (what : string)
    (log : bool) (attrs : list string) (G G' : Graph) (warnings : list string) :
  NoDup attrs ->
  convert_attributes k conv what log attrs G = (G', warnings) ->
  forall attr, same_shape (columns k G !! attr) (columns k G' !! attr).
Proof.
  intros Hnd Hrun attr.
  destruct (convert_attributes_spec k conv what log attrs G G' warnings Hnd Hrun)
    as (_ & _ & _ & Hout & Hin).
  destruct (decide (attr ∈ attrs)) as [Hattr|Hattr].
  - specialize (Hin attr Hattr).
    destruct (decode_column k conv G attr) as [converted|e] eqn:Hd.
    + rewrite Hin. exact (decode_column_shape k conv G attr converted Hd).
    + destruct Hin as [-> _]. apply same_shape_refl.
  - rewrite (Hout attr Hattr). apply same_shape_refl.
Qed.

(** The warnings of one conversion loop: one for each key whose
    decoding fails, in the order of the keys. *)
Lemma convert_attributes_warnings (k : Seq)
    (conv : string -> result (pyval -> result pyval)) (what : string)
    (log : bool) (attrs : list string) :
  forall G, NoDup attrs ->
    snd (convert_attributes k conv what log attrs G)
    = if log
      then map (fun attr => ("Failed to read " ++ what ++ " attribute " ++ attr)%string)
             (List.filter (fun attr => failed (decode_column k conv G attr)) attrs)
      else [].
Proof.
  induction attrs as [|a attrs IH]; intros G Hnd.
  - by destruct log.
  - apply NoDup_cons in Hnd as [Ha Hnd]. cbn [convert_attributes List.filter].
    unfold convert_attribute.
    destruct (decode_column k conv G a) as [converted|e] eqn:Hd;
      cbn [Py.bind failed].
    + rewrite (IH _ Hnd). destruct log; [|reflexivity]. f_equal.
      apply filter_ext_in. intros attr Hattr. f_equal.
      apply decode_column_ext. unfold set_attribute.
      rewrite columns_with_columns. apply lookup_insert_ne.
      intros ->. apply Ha. by apply list_elem_of_In.
    + specialize (IH G Hnd).
      destruct (convert_attributes k conv what log attrs G) as [G' warnings].
      cbn [snd] in *. rewrite IH. by destruct log.
Qed.

Section ImportMore.

Variable literal_eval : string -> result pyval.
Variable wkt_loads : string -> result string.
Variable Read_GraphML : string -> result Graph.

Let node_conv := node_converter literal_eval wkt_loads.
Let edge_conv := edge_converter literal_eval wkt_loads.

Lemma del_attribute_id (G0 G1 : Graph) :
  del_attribute VS G0 "id" = Ok G1 ->
  vcount G1 = vcount G0 /\ links G1 = links G0 /\ es G1 = es G0
  /\ vs G1 = delete "id"%string (vs G0).
Proof.
  unfold del_attribute. destruct (columns VS G0 !! "id"%string); [|discriminate].
  intros [= <-]. repeat split.
Qed.

(** X14.  The graph returned by [read_graphml] has the nodes and edges
    of the parsed graph and, apart from the deleted node attribute
    [id], the same attributes, each with as many values as in the file:
    decoding never drops or adds an attribute or a value, also for keys
    without a converter. *)
Theorem import_keeps_shape (graph_file : string) (log : bool)
    (G0 G' : Graph) (warnings : list string) :
  Read_GraphML graph_file = Ok G0 ->
  read_graphml literal_eval wkt_loads Read_GraphML graph_file log
  = (Ok G', warnings) ->
  vcount G' = vcount G0 /\ links G' = links G0
  /\ vs G' !! "id"%string = None
  /\ (forall attr, attr <> "id"%string ->
        same_shape (vs G0 !! attr) (vs G' !! attr))
  /\ (forall attr, same_shape (es G0 !! attr) (es G' !! attr)).
Proof.
  intros Hread Hrun. unfold read_graphml in Hrun. rewrite Hread in Hrun.
  destruct (del_attribute VS G0 "id") as [G1|] eqn:Hdel; [|discriminate].
  destruct (del_attribute_id G0 G1 Hdel) as (Hv1 & Hl1 & He1 & Hvs1).
  destruct (element_attributes VS G1 0) as [node0|]; [|discriminate].
  fold node_conv edge_conv in Hrun.
  destruct (convert_attributes VS node_conv "node" log (dict_keys node0) G1)
    as [G2 w1] eqn:Hnodes.
  destruct (element_attributes ES G2 0) as [edge0|]; [|discriminate].
  destruct (convert_attributes ES edge_conv "edge" log (dict_keys edge0) G2)
    as [G3 w2] eqn:Hedges.
  injection Hrun as <- <-.
  destruct (convert_attributes_spec _ _ _ _ _ _ _ _ (NoDup_dict_keys node0) Hnodes)
    as (Hv2 & Hl2 & Hother2 & _ & _).
  destruct (convert_attributes_spec _ _ _ _ _ _ _ _ (NoDup_dict_keys edge0) Hedges)
    as (Hv3 & Hl3 & Hother3 & _ & _).
  pose proof (convert_attributes_shape _ _ _ _ _ _ _ _
                (NoDup_dict_keys node0) Hnodes) as Hs2.
  pose proof (convert_attributes_shape _ _ _ _ _ _ _ _
                (NoDup_dict_keys edge0) Hedges) as Hs3.
  assert (Hvs3 : vs G3 = vs G2) by (apply (Hother3 VS); discriminate).
  assert (Hes2 : es G2 = es G1) by (apply (Hother2 ES); discriminate).
  cbn [columns] in Hs2, Hs3.
  split; [congruence|]. split; [congruence|]. split; [|split].
  - specialize (Hs2 "id"%string). rewrite Hvs1, lookup_delete_eq in Hs2.
    rewrite Hvs3. by destruct (vs G2 !! "id"%string).
  - intros attr Hne. specialize (Hs2 attr).
    rewrite Hvs1, lookup_delete_ne in Hs2 by congruence. by rewrite Hvs3.
  - intros attr. specialize (Hs3 attr). by rewrite Hes2, He1 in Hs3.
Qed.


End ImportMore.

(** The import of [example_graph]: one node, no [id]. *)
Lemma import_keeps_shape_witness :
  match fst (read_graphml example_literal_eval example_wkt_loads
               (fun _ => Ok example_graph) "graph.graphml" true) with
  | Ok G' => vcount G' = 1%nat /\ vs G' !! "id"%string = None
  | Err _ => False
  end.
Proof.
  destruct (read_graphml example_literal_eval example_wkt_loads
              (fun _ => Ok example_graph) "graph.graphml" true)
    as [[G'|e] warnings] eqn:Hrun; cbn [fst].
  - destruct (import_keeps_shape example_literal_eval example_wkt_loads
                (fun _ => Ok example_graph) "graph.graphml" true
                example_graph G' warnings eq_refl Hrun) as (Hv & _ & Hid & _).
    split; [exact Hv | exact Hid].
  - vm_compute in Hrun. discriminate Hrun.
Defined.


Section ImportOutcome.

Variable literal_eval : string -> result pyval.
Variable wkt_loads : string -> result string.
Variable Read_GraphML : string -> result Graph.

(** X23.  The outcome of [read_graphml]: it raises what the parser
    raises; [KeyError] when the parsed graph has no node attribute
    [id]; [IndexError] when it has no node or no edge (the nodes are
    checked first); and it returns a graph in every other case,
    whatever the attributes hold. *)
Theorem import_outcome (graph_file : string) (log : bool) :
  let r := fst (read_graphml literal_eval wkt_loads Read_GraphML
                  graph_file log) in
  match Read_GraphML graph_file with
  | Err e => r = Err e
  | Ok G0 =>
      match vs G0 !! "id"%string with
      | None => r = Err KeyError
      | Some _ =>
          if (vcount G0 =? 0)%nat || (length (links G0) =? 0)%nat
          then r = Err IndexError
          else exists G', r = Ok G'
      end
  end.
Proof.
  intros r.
  destruct (Read_GraphML graph_file) as [G0|e] eqn:Hread;
    [|subst r; unfold read_graphml; by rewrite Hread].
  destruct (vs G0 !! "id"%string) as [ids|] eqn:Hid;
    [|subst r; unfold read_graphml, del_attribute; cbn [columns];
      by rewrite Hread, Hid].
  assert (Hdel : del_attribute VS G0 "id"
                 = Ok (with_columns VS G0 (delete "id"%string (vs G0))))
    by (unfold del_attribute; cbn [columns]; by rewrite Hid).
  set (G1 := with_columns VS G0 (delete "id"%string (vs G0))) in *.
  assert (Hv1 : vcount G1 = vcount G0) by reflexivity.
  assert (Hl1 : links G1 = links G0) by reflexivity.
  clearbody G1.
  destruct (vcount G0) as [|n] eqn:Hv0; cbn [Nat.eqb orb].
  { subst r. unfold read_graphml. rewrite Hread, Hdel.
    unfold element_attributes. cbn [count]. by rewrite Hv1. }
  assert (Hn0 : element_attributes VS G1 0
                = Ok (omap (fun col : list pyval => col !! 0%nat) (columns VS G1)))
    by (unfold element_attributes; cbn [count]; by rewrite Hv1).
  destruct (convert_attributes VS (node_converter literal_eval wkt_loads)
              "node" log
              (dict_keys (omap (fun col : list pyval => col !! 0%nat)
                            (columns VS G1))) G1) as [G2 w1] eqn:Hnodes.
  destruct (convert_attributes_spec _ _ _ _ _ _ _ _ (NoDup_dict_keys _) Hnodes)
    as (_ & Hl2 & _).
  destruct (links G0) as [|l ls] eqn:Hl0; cbn [length Nat.eqb].
  { subst r. unfold read_graphml. rewrite Hread, Hdel, Hn0, Hnodes.
    unfold element_attributes. cbn [count]. by rewrite Hl2, Hl1. }
  subst r. unfold read_graphml. rewrite Hread, Hdel, Hn0, Hnodes.
  unfold element_attributes. cbn [count]. rewrite Hl2, Hl1.
  change (0 <? length (l :: ls))%nat with true. cbv iota.
  destruct (convert_attributes ES _ "edge" log _ _) as [G3 w2].
  cbn [fst]. eauto.
Qed.

End ImportOutcome.

(** ** Export, then import *)

Lemma comprehension_text_column (conv : pyval -> result pyval)
    (column : list pyval) :
  (forall v, v ∈ column -> conv (VStr (as_string v)) = Ok v) ->
  comprehension conv (text_column column) = Ok column.
Proof.
  induction column as [|v column IH]; intros Hconv; [reflexivity|].
  cbn [text_column map comprehension]. rewrite (Hconv v) by (by left).
  cbn [Py.bind]. fold (text_column column).
  rewrite IH by (intros w Hw; apply Hconv; by right). reflexivity.
Qed.

Lemma with_columns_id (k : Seq) (G : Graph) :
  with_columns k G (columns k G) = G.
Proof. by destruct k, G. Qed.

Lemma with_columns_twice (k : Seq) (G : Graph)
    (c c' : gmap string (list pyval)) :
  with_columns k (with_columns k G c) c' = with_columns k G c'.
Proof. by destruct k. Qed.

(** X16.  One attribute through export and import: when the converter
    registered for the attribute reads back the text of each value of
    the column, the export step replaces the column by its text and the
    import step on that graph restores the graph as it was. *)
Theorem column_round_trip (k : Seq)
    (converter_of : string -> result (pyval -> result pyval))
    (converter : pyval -> result pyval) (gc : loc) (attr : string)
    (s : State) (G : Graph) (column : list pyval) :
  heap s !! gc = Some G ->
  columns k G !! attr = Some column ->
  converter_of attr = Ok converter ->
  (forall v, v ∈ column -> converter (VStr (as_string v)) = Ok v) ->
  exists s' G1,
    stringify k gc attr s = (Ok tt, s')
    /\ heap s' !! gc = Some G1
    /\ columns k G1 !! attr = Some (text_column column)
    /\ convert_attribute k converter_of G1 attr = Ok G.
Proof.
  intros Hs Hcol Hconv Hvalues.
  exists (with_heap s (<[gc := set_attribute k G attr (text_column column)]> (heap s))),
         (set_attribute k G attr (text_column column)).
  split; [|split; [|split]].
  - rewrite stringify_on_object, (on_object_run gc _ s G Hs).
    by rewrite (stringified_present k attr G column Hcol).
  - simpl. apply lookup_insert_eq.
  - rewrite set_attribute_lookup. by rewrite bool_decide_eq_true_2.
  - unfold convert_attribute, decode_column, get_attribute, getitem.
    rewrite Hconv. cbn [Py.bind]. rewrite set_attribute_lookup.
    rewrite bool_decide_eq_true_2 by reflexivity. cbn [Py.bind].
    rewrite (comprehension_text_column converter column Hvalues).
    cbn [Py.bind]. f_equal. unfold set_attribute.
    rewrite columns_with_columns, with_columns_twice, insert_insert_eq.
    rewrite insert_id by exact Hcol. apply with_columns_id.
Qed.

(** The boolean column [b_aw] of [typed_graph]. *)
Lemma column_round_trip_witness :
  exists s' G1,
    stringify ES 1%positive "b_aw" typed_store = (Ok tt, s')
    /\ heap s' !! 1%positive = Some G1
    /\ columns ES G1 !! "b_aw"%string = Some [VStr "1"]
    /\ convert_attribute ES
         (edge_converter example_literal_eval example_wkt_loads) G1 "b_aw"
       = Ok typed_graph.
Proof.
  apply (column_round_trip ES
           (edge_converter example_literal_eval example_wkt_loads)
           (to_bool example_literal_eval) 1%positive "b_aw" typed_store
           typed_graph [VBool true]); try reflexivity.
  intros v ->%list_elem_of_singleton. reflexivity.
Defined.

Lemma filter_nil_all {A : Type} (p : A -> bool) (l : list A) :
  (forall x, x ∈ l -> p x = false) -> List.filter p l = [].
Proof.
  induction l as [|x l IH]; intros H; [reflexivity|].
  simpl. rewrite (H x) by (by left). apply IH. intros y Hy. apply H. by right.
Qed.

(** One conversion loop on exported columns restores the columns. *)
Lemma convert_exported (k : Seq) {A : Type} (value : A -> string)
    (members : list A) (of_value : string -> result A)
    (converter : A -> pyval -> result pyval) (what : string) (log : bool)
    (G Gs : Graph) (node0 : gmap string pyval) :
  (forall a, of_value (value a) = Ok a) ->
  (forall a, value a ∈ map value members) ->
  reads_back value converter (columns k G) ->
  (forall attr, columns k Gs !! attr
                = exported_column (map value members) [] (columns k G) attr) ->
  element_attributes k Gs 0 = Ok node0 ->
  let conv := fun attr => let* a := of_value attr in Ok (converter a) in
  exists G', convert_attributes k conv what log (dict_keys node0) Gs = (G', [])
    /\ vcount G' = vcount Gs /\ links G' = links Gs
    /\ (forall k', k' <> k -> columns k' G' = columns k' Gs)
    /\ columns k G' = columns k G.
Proof.
  intros Hof Hmem Hback Hexp Hn0 conv.
  assert (Hdecode : forall attr column, columns k G !! attr = Some column ->
            decode_column k conv Gs attr = Ok column).
  { intros attr column Hcol.
    destruct (Hback attr column Hcol) as (a & <- & Hvalues).
    unfold decode_column, get_attribute, getitem, conv.
    rewrite Hof. cbn [Py.bind]. rewrite Hexp. unfold exported_column.
    rewrite Hcol. cbn [fmap option_fmap option_map].
    rewrite bool_decide_eq_true_2 by apply Hmem. cbn [Py.bind].
    apply comprehension_text_column, Hvalues. }
  assert (Hkeys : forall attr, attr ∈ dict_keys node0 ->
            exists column, columns k G !! attr = Some column).
  { intros attr Hattr.
    apply (element_attributes_keys k Gs node0 attr Hn0) in Hattr
      as (c & _ & Hc & _).
    rewrite Hexp in Hc. unfold exported_column in Hc.
    destruct (columns k G !! attr) as [column|]; [eauto | discriminate]. }
  destruct (convert_attributes k conv what log (dict_keys node0) Gs)
    as [G' warnings] eqn:Hrun.
  pose proof (convert_attributes_warnings k conv what log (dict_keys node0) Gs
                (NoDup_dict_keys node0)) as Hw.
  rewrite Hrun in Hw. cbn [snd] in Hw.
  rewrite filter_nil_all in Hw.
  2:{ intros attr Hattr. destruct (Hkeys attr Hattr) as [column Hcol].
      by rewrite (Hdecode attr column Hcol). }
  assert (Hnil : warnings = []) by (rewrite Hw; by destruct log).
  clear Hw. subst warnings. exists G'. split; [reflexivity|].
  destruct (convert_attributes_spec k conv what log (dict_keys node0) Gs G' []
              (NoDup_dict_keys node0) Hrun) as (Hv & Hl & Hother & Hout & Hin).
  split; [exact Hv|]. split; [exact Hl|]. split; [exact Hother|].
  apply map_eq. intros attr.
  destruct (decide (attr ∈ dict_keys node0)) as [Hattr|Hattr].
  - destruct (Hkeys attr Hattr) as [column Hcol].
    specialize (Hin attr Hattr). rewrite (Hdecode attr column Hcol) in Hin.
    by rewrite Hin, Hcol.
  - rewrite (Hout attr Hattr), Hexp. unfold exported_column.
    destruct (columns k G !! attr) as [[|v column]|] eqn:Hcol;
      [by case_bool_decide | | reflexivity].
    exfalso. apply Hattr.
    apply (element_attributes_keys k Gs node0 attr Hn0).
    exists (text_column (v :: column)), (VStr (as_string v)).
    split; [|reflexivity]. rewrite Hexp. unfold exported_column.
    rewrite Hcol. cbn [fmap option_fmap option_map].
    destruct (Hback attr _ Hcol) as (a & <- & _).
    by rewrite bool_decide_eq_true_2 by apply Hmem.
Qed.

Lemma members_complete :
  (forall a, Node.value a ∈ map Node.value Node.members)
  /\ (forall a, Edge.value a ∈ map Edge.value Edge.members).
Proof.
  split; intros a; apply list_elem_of_fmap; exists a; (split; [reflexivity|]);
    apply list_elem_of_In.
  - assert (H : Node.of_value (Node.value a) = Ok a) by (by destruct a).
    unfold Node.of_value in H.
    destruct (find _ Node.members) as [a'|] eqn:Hf; [|discriminate].
    injection H as ->. by apply find_some in Hf as [Hf _].
  - assert (H : Edge.of_value (Edge.value a) = Ok a) by (by destruct a).
    unfold Edge.of_value in H.
    destruct (find _ Edge.members) as [a'|] eqn:Hf; [|discriminate].
    injection H as ->. by apply find_some in Hf as [Hf _].
Qed.

Section RoundTrip.

Variable literal_eval : string -> result pyval.
Variable wkt_loads : string -> result string.
Variable Read_GraphML : string -> result Graph.
Variable writable : string -> bool.

(** X17.  Export followed by import returns the graph that was
    exported, and logs no warning: for a graph with at least one node
    and one edge whose attributes all belong to the enumerations and
    whose values are read back by their converters, when the parser
    returns the graph written to the file with the node attribute [id]
    added. *)
Theorem export_import_round_trip (g : loc) (graph_file : string) (log : bool)
    (s s' : State) (G : Graph) :
  heap s !! g = Some G ->
  (0 < vcount G)%nat -> links G <> [] ->
  reads_back Node.value
    (value_converter_by_node_attribute literal_eval wkt_loads) (vs G) ->
  reads_back Edge.value
    (value_converter_by_edge_attribute literal_eval wkt_loads) (es G) ->
  export_to_graphml writable g graph_file [] [] s = (Ok tt, s') ->
  (forall Gs, files s' !! graph_file = Some Gs ->
     exists ids, Read_GraphML graph_file = Ok (set_attribute VS Gs "id" ids)) ->
  read_graphml literal_eval wkt_loads Read_GraphML graph_file log = (Ok G, []).
Proof.
  intros Hg Hv He Hnodes Hedges Hexport Hparse.
  pose proof (export_cases writable g graph_file [] [] s G Hg) as Hcases.
  cbv zeta in Hcases. rewrite Hexport in Hcases. cbn [fst snd] in Hcases.
  destruct (branch_ok VS G (map Node.value [])); [|discriminate Hcases].
  destruct (branch_ok ES G (map Edge.value [])); [|discriminate Hcases].
  destruct (writable graph_file); [|discriminate Hcases].
  destruct Hcases as (Gs & _ & Hfiles & _ & Hvc & Hlk & Hvs & Hes).
  destruct (Hparse Gs) as [ids Hread];
    [rewrite Hfiles; apply lookup_insert_eq|].
  assert (Hnoid : vs G !! "id"%string = None).
  { destruct (vs G !! "id"%string) as [column|] eqn:Hid; [|reflexivity].
    destruct (Hnodes _ _ Hid) as (a & Ha & _). by destruct a. }
  assert (Hdel : del_attribute VS (set_attribute VS Gs "id" ids) "id" = Ok Gs).
  { unfold del_attribute, set_attribute. rewrite columns_with_columns.
    rewrite lookup_insert_eq. f_equal. rewrite with_columns_twice.
    rewrite delete_insert_eq, delete_id; [apply (with_columns_id VS)|].
    cbn [columns]. rewrite Hvs. unfold exported_column. cbn [map].
    by rewrite Hnoid. }
  assert (Hn0 : exists node0, element_attributes VS Gs 0 = Ok node0).
  { unfold element_attributes. cbn [count]. rewrite Hvc.
    replace (0 <? vcount G)%nat with true by (symmetry; by apply Nat.ltb_lt).
    eauto. }
  destruct Hn0 as [node0 Hn0].
  assert (HN : forall a, Node.of_value (Node.value a) = Ok a) by (by intros []).
  assert (HE : forall a, Edge.of_value (Edge.value a) = Ok a) by (by intros []).
  destruct (convert_exported VS Node.value Node.members Node.of_value
              (value_converter_by_node_attribute literal_eval wkt_loads)
              "node" log G Gs node0 HN) as (G2 & Hrun2 & Hv2 & Hl2 & Hother2 & Hc2);
    [apply members_complete | exact Hnodes | exact Hvs | exact Hn0 |].
  assert (He0 : exists edge0, element_attributes ES G2 0 = Ok edge0).
  { unfold element_attributes. cbn [count]. rewrite Hl2, Hlk.
    destruct (links G); [contradiction | eauto]. }
  destruct He0 as [edge0 He0].
  assert (Hes2 : columns ES G2 = columns ES Gs)
    by (apply Hother2; discriminate).
  assert (Hcount2 : count ES G2 = count ES Gs) by (simpl; by rewrite Hl2).
  destruct (convert_exported ES Edge.value Edge.members Edge.of_value
              (value_converter_by_edge_attribute literal_eval wkt_loads)
              "edge" log G G2 edge0 HE) as (G3 & Hrun3 & Hv3 & Hl3 & Hother3 & Hc3);
    [apply members_complete | exact Hedges | by rewrite Hes2 | exact He0 |].
  unfold read_graphml. rewrite Hread, Hdel, Hn0.
  unfold node_converter, edge_converter. rewrite Hrun2, He0, Hrun3.
  cbn [app]. f_equal. f_equal.
  assert (Hvs3 : vs G3 = vs G).
  { change (columns VS G3 = columns VS G).
    rewrite (Hother3 VS) by discriminate. exact Hc2. }
  cbn [columns] in Hc3.
  destruct G3 as [vc3 vs3 l3 es3], G as [vc vs0 l0 es0]. cbn in *.
  congruence.
Qed.

End RoundTrip.

(** [typed_graph] exported and imported. *)
Lemma export_import_round_trip_witness :
  read_graphml example_literal_eval example_wkt_loads typed_file_reader
    "out.graphml" true
  = (Ok typed_graph, []).
Proof.
  apply (export_import_round_trip example_literal_eval example_wkt_loads
           typed_file_reader (fun _ => true) 1%positive "out.graphml" true
           typed_store
           (snd (export_to_graphml (fun _ => true) 1%positive "out.graphml"
                   [] [] typed_store))
           typed_graph).
  - reflexivity.
  - simpl. lia.
  - discriminate.
  - intros attr column Hcol. apply elem_of_list_to_map_2 in Hcol.
    apply list_elem_of_singleton in Hcol as [= -> ->].
    exists Node.id_ig. split; [reflexivity|].
    intros v ->%list_elem_of_singleton. vm_compute. reflexivity.
  - intros attr column Hcol. apply elem_of_list_to_map_2 in Hcol.
    repeat (apply elem_of_cons in Hcol as [[= -> ->] | Hcol]);
      [exists Edge.length | exists Edge.noises | exists Edge.allows_walking
      | by apply elem_of_nil in Hcol];
      (split; [reflexivity|]);
      intros v ->%list_elem_of_singleton; vm_compute; reflexivity.
  - apply injective_projections; [vm_compute; reflexivity | reflexivity].
  - intros Gs HGs. exists [VStr "n0"]. unfold typed_file_reader.
    by rewrite HGs.
Defined.

(** ** The logger *)

Section LoggerProperties.

Import logger.

Lemma init_level (app pr : bool) (file : option string) (lvl : string)
    (self : Logger) :
  __init__ app pr file lvl = Ok self ->
  app_logger self = app /\ b_printing self = pr /\ log_file self = file
  /\ levels !! lvl = Some (level self) /\ 1 <= level self <= 4.
Proof.
  unfold __init__, getitem.
  destruct (levels !! lvl) as [n|] eqn:Hn; [|discriminate].
  intros [= <-]. cbn. do 4 (split; [reflexivity || exact Hn|]).
  unfold levels in Hn. apply elem_of_list_to_map_2 in Hn.
  repeat (apply elem_of_cons in Hn as [[= _ ->] | Hn]; [lia|]).
  by apply elem_of_nil in Hn.
Qed.

Lemma call_log_method (appendable : string -> bool) (m : method)
    (self : Logger) (text : string) :
  1 <= level self ->
  call appendable m self text
  = log_method appendable self (threshold m <=? level self) (tag m)
      (method_name m) text.
Proof.
  intros Hl. unfold log_method.
  destruct m; try reflexivity; cbn [call threshold];
    unfold error, critical;
    (replace (1 <=? level self) with true by (symmetry; by apply Z.leb_le));
    reflexivity.
Qed.

Lemma print_log_effect (appendable : string -> bool) (self : Logger)
    (text tg : string) (w : World) :
  let line := log_line w tg text in
  let '(r, w') := print_log appendable self text tg w in
  console w' = console w ++ (if b_printing self then [(line ++ newline)%string] else [])
  /\ app_log w' = app_log w /\ utcnow w' = utcnow w /\ time w' = time w
  /\ match target self with
     | None => r = Ok tt /\ written w' = written w
     | Some file =>
         if appendable file
         then r = Ok tt
              /\ written w'
                 = <[file := default [] (written w !! file) ++ [(line ++ newline)%string]]>
                     (written w)
         else r = Err OSError /\ written w' = written w
     end.
Proof.
  intros line. unfold print_log, target, bind, when, print, ret, append.
  subst line. unfold log_line.
  destruct (log_file self) as [[|c file]|]; destruct (b_printing self);
    cbn [console app_log utcnow time written];
    try destruct (appendable (String c file));
    cbn [console app_log utcnow time written];
    rewrite ?app_nil_r; repeat split; reflexivity.
Qed.

(** What one logging call does, for a logger whose level is at least 1. *)
Lemma call_effect (appendable : string -> bool) (m : method) (self : Logger)
    (text : string) (w : World) :
  1 <= level self ->
  let printed := threshold m <=? level self in
  let line := (log_line w (tag m) text ++ newline)%string in
  let failing :=
    match target self with
    | Some file => printed && negb (appendable file)
    | None => false
    end in
  let '(r, w') := call appendable m self text w in
  r = (if failing then Err OSError else Ok tt)
  /\ console w'
     = console w ++ (if printed && b_printing self then [line] else [])
  /\ written w'
     = match target self with
       | Some file =>
           if printed && appendable file
           then <[file := default [] (written w !! file) ++ [line]]> (written w)
           else written w
       | None => written w
       end
  /\ app_log w'
     = app_log w ++ (if app_logger self && negb failing
                     then [(method_name m, text)] else []).
Proof.
  intros Hl printed line failing.
  rewrite (call_log_method appendable m self text Hl). fold printed.
  unfold log_method, bind, when, ret, forward. destruct printed.
  - pose proof (print_log_effect appendable self text (tag m) w) as Hp.
    cbv zeta in Hp. fold line in Hp.
    destruct (print_log appendable self text (tag m) w) as [r w1].
    destruct Hp as (Hc & Ha & _ & _ & Hw). subst failing.
    destruct (target self) as [file|].
    + destruct (appendable file); destruct Hw as [-> Hw]; cbn [andb negb].
      * destruct (app_logger self); cbn [console written app_log andb];
          rewrite ?app_nil_r; repeat split; congruence.
      * rewrite andb_false_r, app_nil_r. repeat split; assumption.
    + destruct Hw as [-> Hw]. rewrite andb_true_r.
      destruct (app_logger self); cbn [console written app_log andb];
        rewrite ?app_nil_r; repeat split; congruence.
  - subst failing. cbn [andb].
    assert (Hf : match target self with Some _ => false | None => false end = false)
      by (by destruct (target self)).
    rewrite Hf, andb_true_r.
    destruct (app_logger self); cbn [console written app_log];
      rewrite ?app_nil_r; repeat split; by destruct (target self).
Qed.

(** X18.  A [Logger] is built for the levels ['debug'], ['info'],
    ['warning'] and ['error'] only ([KeyError] otherwise).  With
    printing on, a message is printed when the level of the logger
    reaches that of the method ([threshold]): [debug] prints at level
    ['debug'] only, [info] from ['info'], [warning] from ['warning'],
    and [error] and [critical] always; the printed line is the time,
    the tag of the method in brackets and the text.  Nothing is printed
    with printing off.  Under the same level filter the line is
    appended to the log file, when one is set and can be opened. *)
Theorem logger_level_filter (appendable : string -> bool) (app pr : bool)
    (file : option string) (lvl : string) :
  (levels !! lvl = None -> __init__ app pr file lvl = Err KeyError)
  /\ forall self, __init__ app pr file lvl = Ok self ->
       levels !! lvl = Some (level self)
       /\ forall m text w,
            let w' := snd (call appendable m self text w) in
            let line := (log_line w (tag m) text ++ newline)%string in
            console w'
            = console w ++ (if (threshold m <=? level self) && pr then [line]
                            else [])
            /\ written w'
               = match target self with
                 | Some path =>
                     if (threshold m <=? level self) && appendable path
                     then <[path := default [] (written w !! path) ++ [line]]>
                            (written w)
                     else written w
                 | None => written w
                 end
            /\ (threshold m <= 1 -> pr = true ->
                console w' = console w ++ [line]).
Proof.
  split.
  - intros Hl. unfold __init__, getitem. by rewrite Hl.
  - intros self Hinit.
    destruct (init_level app pr file lvl self Hinit)
      as (_ & Hpr & _ & Hlvl & Hrange).
    split; [exact Hlvl|]. intros m text w w' line.
    pose proof (call_effect appendable m self text w (proj1 Hrange)) as He.
    cbv zeta in He. subst w'.
    destruct (call appendable m self text w) as [r w1].
    destruct He as (_ & Hc & Hw & _). cbn [snd]. rewrite Hpr in Hc.
    split; [exact Hc|]. split; [exact Hw|]. intros Hm ->. rewrite Hc.
    replace (threshold m <=? level self) with true
      by (symmetry; apply Z.leb_le; lia).
    reflexivity.
Qed.

(** X19.  A logging call either returns or raises [OSError], and it
    raises exactly when the message passes the level filter and the log
    file cannot be opened.  When it returns, the message has been
    passed to the application logger if there is one, whatever the
    level of the logger; when it raises, the application logger has not
    been called, though the line was already printed to the console if
    printing is on. *)
Theorem logger_forwarding (appendable : string -> bool) (app pr : bool)
    (file : option string) (lvl : string) (self : Logger) (m : method)
    (text : string) (w : World) :
  __init__ app pr file lvl = Ok self ->
  let r := fst (call appendable m self text w) in
  let w' := snd (call appendable m self text w) in
  (r = Ok tt \/ r = Err OSError)
  /\ (r = Err OSError <->
      threshold m <= level self
      /\ exists path, target self = Some path /\ appendable path = false)
  /\ app_log w'
     = app_log w ++ (if app && negb (failed r) then [(method_name m, text)]
                     else [])
  /\ (r = Err OSError -> pr = true ->
      console w' = console w ++ [(log_line w (tag m) text ++ newline)%string]).
Proof.
  intros Hinit r w'.
  destruct (init_level app pr file lvl self Hinit)
    as (Happ & Hpr & _ & _ & Hrange).
  pose proof (call_effect appendable m self text w (proj1 Hrange)) as He.
  cbv zeta in He. subst r w'.
  destruct (call appendable m self text w) as [r w1].
  destruct He as (Hr & Hc & _ & Ha). cbn [fst snd].
  rewrite Happ in Ha. rewrite Hpr in Hc.
  assert (Hfail : r = Err OSError <->
            threshold m <= level self
            /\ exists path, target self = Some path /\ appendable path = false).
  { rewrite Hr. destruct (target self) as [path|].
    - destruct (threshold m <=? level self) eqn:Ht;
        destruct (appendable path) eqn:Hp; cbn [andb negb]; split;
        try discriminate; try reflexivity.
      + intros (_ & path' & [= <-] & Hp'). congruence.
      + intros _. apply Z.leb_le in Ht. eauto.
      + intros (Ht' & _). apply Z.leb_gt in Ht. lia.
      + intros (Ht' & _). apply Z.leb_gt in Ht. lia.
    - split; [discriminate|]. intros (_ & path & Hp & _). discriminate Hp. }
  split; [|split; [exact Hfail|split]].
  - rewrite Hr. destruct (match target self with Some _ => _ | None => _ end);
      [by right | by left].
  - rewrite Ha, Hr.
    by destruct (match target self with Some _ => _ | None => _ end).
  - intros Hraise ->. apply Hfail in Hraise as (Ht & _). rewrite Hc.
    replace (threshold m <=? level self) with true
      by (symmetry; by apply Z.leb_le).
    reflexivity.
Qed.

(** X20.  [Logger.duration] logs nothing when the logger has no
    application logger, even with printing or a log file configured,
    and nothing when [log_level] is neither ['debug'] nor ['info']. *)
Theorem duration_is_silent (appendable : string -> bool) (self : Logger)
    (time1 : float) (text : string) (round_n : Z) (unit log_level : string)
    (w : World) :
  app_logger self = false
  \/ (log_level <> "debug"%string /\ log_level <> "info"%string) ->
  snd (duration appendable self time1 text round_n unit log_level w) = w.
Proof.
  intros H. unfold duration.
  destruct (if String.eqb unit "s" then _ else _) as [log_str|e];
    [|reflexivity].
  destruct (app_logger self); [|reflexivity].
  destruct H as [H | [Hd Hi]]; [discriminate|].
  apply String.eqb_neq in Hd, Hi. rewrite Hd, Hi. reflexivity.
Qed.

(** A logger at level ['warning'] that prints: [info] is filtered,
    [error] is printed. *)
Lemma logger_level_filter_witness :
  exists self,
    __init__ false true None "warning" = Ok self
    /\ console (snd (call (fun _ => true) Info self "hello" quiet_world)) = []
    /\ console (snd (call (fun _ => true) Error self "hello" quiet_world))
       = [(log_line quiet_world "ERROR" "hello" ++ newline)%string].
Proof.
  eexists. split; [reflexivity|].
  destruct (logger_level_filter (fun _ => true) false true None "warning")
    as [_ H].
  destruct (H _ eq_refl) as [_ Hm]. split.
  - rewrite (proj1 (Hm Info "hello"%string quiet_world)). reflexivity.
  - rewrite (proj2 (proj2 (Hm Error "hello"%string quiet_world)));
      [reflexivity| |]; [simpl; lia | reflexivity].
Defined.

(** A log file that cannot be opened: the warning raises and the
    application logger is not called. *)
Lemma logger_forwarding_witness :
  exists self,
    __init__ true true (Some "app.log"%string) "info" = Ok self
    /\ fst (call (fun _ => false) Warning self "hello" quiet_world)
       = Err OSError
    /\ app_log (snd (call (fun _ => false) Warning self "hello" quiet_world))
       = [].
Proof.
  eexists. split; [reflexivity|].
  destruct (logger_forwarding (fun _ => false) true true
              (Some "app.log"%string) "info" _ Warning "hello" quiet_world
              eq_refl) as (_ & Hfail & Hlog & _).
  match type of Hfail with
  | ?r = _ <-> _ => assert (Hr : r = Err OSError)
  end.
  { apply Hfail. split; [simpl; lia|].
    exists "app.log"%string. split; reflexivity. }
  split; [exact Hr|]. rewrite Hlog, Hr. reflexivity.
Defined.

(** A printing logger without application logger. *)
Lemma duration_is_silent_witness :
  snd (duration (fun _ => true)
         {| app_logger := false; b_printing := true; log_file := None;
            level := 4 |}
         1614599999.5 "routing" 3 "s" "debug" quiet_world)
  = quiet_world.
Proof. apply duration_is_silent. by left. Defined.

End LoggerProperties.

(** ** The selection menu *)

Section MenuProperties.

Import utils.

Lemma option_idx_spec (options : list pyval) (k : Z) :
  existsb (Z.eqb k) (option_idx options) = true
  <-> 1 <= k <= Z.of_nat (length options).
Proof.
  unfold option_idx. rewrite existsb_exists. split.
  - intros (x & Hx & ->%Z.eqb_eq). apply list_elem_of_In, elem_of_seqZ in Hx. lia.
  - intros Hk. exists k. split; [|apply Z.eqb_refl].
    apply list_elem_of_In, elem_of_seqZ. lia.
Qed.

Lemma list_getitem_elem (options : list pyval) (k : Z) (v : pyval) :
  list_getitem options k = Returns v -> v ∈ options.
Proof.
  unfold list_getitem.
  destruct (if _ <? 0 then None else _) as [v'|] eqn:Hv; [|discriminate].
  intros [= ->]. destruct (_ <? 0); [discriminate|].
  by apply list_elem_of_lookup_2 in Hv.
Qed.

Lemma list_getitem_lookup (options : list pyval) (i : nat) (v : pyval) :
  options !! i = Some v -> list_getitem options (Z.of_nat i) = Returns v.
Proof.
  intros Hv. unfold list_getitem.
  assert (H : (Z.of_nat i <? 0) = false) by (apply Z.ltb_ge; lia).
  rewrite H. cbv zeta iota. rewrite H, Nat2Z.id, Hv. reflexivity.
Qed.

Lemma extends_refl (out : list string) : extends out out.
Proof. exists []. by rewrite app_nil_r. Qed.

Lemma extends_trans (a b c : list string) :
  extends a b -> extends b c -> extends a c.
Proof. intros [p ->] [q ->]. exists (p ++ q). by rewrite app_assoc. Qed.

Lemma extends_print (text end_ : string) (out : list string) :
  extends out (print text end_ out).
Proof. unfold print. by eexists. Qed.

Lemma extends_fold {A : Type} (f : list string -> A -> list string)
    (l : list A) :
  (forall out x, extends out (f out x)) ->
  forall out, extends out (fold_left f l out).
Proof.
  intros Hf. induction l as [|x l IH]; intros out; [apply extends_refl|].
  cbn [fold_left]. exact (extends_trans _ _ _ (Hf out x) (IH _)).
Qed.

Lemma extends_prompt (text : string) (options : list pyval) (as_number : bool)
    (stdout : list string) :
  extends stdout (prompt text options as_number stdout).
Proof.
  unfold prompt. destruct as_number.
  - eapply extends_trans; [apply extends_print|].
    eapply extends_trans; [|apply extends_print].
    apply extends_fold. intros out [idx o]. apply extends_print.
  - eapply extends_trans; apply extends_print.
Qed.

(** One round of the loop. *)
Lemma read_user_selection_nil (text : string) (options : list pyval)
    (as_number : bool) (stdout : list string) :
  read_user_selection text options as_number [] stdout
  = (Raises EOFError, [], prompt text options as_number stdout).
Proof. by destruct as_number. Qed.

(** X21.  Whatever is typed, [read_user_selection] returns [None] or
    one of the options; the only exception it lets through is the
    [EOFError] of [input()], raised when the input is exhausted.  It
    reads a prefix of the input and only adds to the text printed. *)
Theorem read_user_selection_safe (text : string) (options : list pyval)
    (as_number : bool) (stdin : list string) :
  forall stdout r stdin' stdout',
    read_user_selection text options as_number stdin stdout = (r, stdin', stdout') ->
    match r with
    | Returns v => v = VNone \/ v ∈ options
    | Raises e => e = EOFError /\ stdin' = []
    end
    /\ (exists consumed, stdin = consumed ++ stdin')
    /\ extends stdout stdout'.
Proof.
  induction stdin as [|answer stdin IH]; intros stdout r stdin' stdout' Hrun.
  - rewrite read_user_selection_nil in Hrun. injection Hrun as <- <- <-.
    split; [by split|]. split; [by exists []|]. apply extends_prompt.
  - pose proof (extends_prompt text options as_number stdout) as Hprompt.
    assert (Hrec : forall out,
              extends (prompt text options as_number stdout) out ->
              read_user_selection text options as_number stdin out
              = (r, stdin', stdout') ->
              match r with
              | Returns v => v = VNone \/ v ∈ options
              | Raises e => e = EOFError /\ stdin' = []
              end
              /\ (exists consumed, answer :: stdin = consumed ++ stdin')
              /\ extends stdout stdout').
    { intros out Hout Hrest.
      destruct (IH out r stdin' stdout' Hrest) as (Hr & [c ->] & Hext).
      split; [exact Hr|]. split; [by exists (answer :: c)|].
      exact (extends_trans _ _ _ Hprompt (extends_trans _ _ _ Hout Hext)). }
    destruct as_number; cbn [read_user_selection] in Hrun;
      fold (prompt text options true stdout) in Hrun;
      fold (prompt text options false stdout) in Hrun.
    + destruct (String.eqb (str_strip answer) EmptyString).
      { injection Hrun as <- <- <-. split; [by left|].
        split; [by exists [answer] | exact Hprompt]. }
      destruct (obind _ _) as [v|e] eqn:Hattempt.
      * injection Hrun as <- <- <-. split; [|split; [by exists [answer] | exact Hprompt]].
        right. destruct (int_of_str (str_strip answer)) as [n|]; [|discriminate].
        cbn [obind] in Hattempt.
        destruct (negb _); [discriminate|].
        exact (list_getitem_elem options _ v Hattempt).
      * apply (Hrec _ (extends_print _ _ _) Hrun).
    + destruct (String.eqb (str_strip answer) EmptyString).
      { injection Hrun as <- <- <-. split; [by left|].
        split; [by exists [answer] | exact Hprompt]. }
      destruct (existsb _ options) eqn:Hin; cbn [negb] in Hrun.
      * injection Hrun as <- <- <-. split; [|split; [by exists [answer] | exact Hprompt]].
        right. apply existsb_exists in Hin as (o & Ho & Heq).
        destruct o; try discriminate Heq. cbn [eq_str] in Heq.
        apply String.eqb_eq in Heq. subst. by apply list_elem_of_In.
      * apply (Hrec _ (extends_print _ _ _) Hrun).
Qed.

(** A rejected answer, then the number of the second option. *)
Lemma read_user_selection_safe_witness :
  let '(r, stdin', stdout') :=
    read_user_selection "Pick:" [VStr "a"; VInt 7] true ["x"; "2"; "rest"]%string [] in
  match r with
  | Returns v => v = VNone \/ v ∈ [VStr "a"; VInt 7]
  | Raises e => e = EOFError /\ stdin' = []
  end.
Proof.
  destruct (read_user_selection "Pick:" [VStr "a"; VInt 7] true
              ["x"; "2"; "rest"]%string []) as [[r stdin'] stdout'] eqn:Hrun.
  exact (proj1 (read_user_selection_safe _ _ _ _ _ _ _ _ Hrun)).
Defined.

Section MenuNumbers.

Import Decimal DecimalString.

Lemma digits_nonspace (u : uint) :
  forallb (fun c => negb (isspace c)) (uint_chars u) = true.
Proof.
  unfold uint_chars.
  induction u as [|u IH|u IH|u IH|u IH|u IH|u IH|u IH|u IH|u IH|u IH];
    [reflexivity|..];
    cbn [NilEmpty.string_of_uint chars list_ascii_of_string forallb];
    unfold chars in IH; rewrite IH; reflexivity.
Qed.

Lemma lstrip_spaces_id (l : list ascii) :
  forallb (fun c => negb (isspace c)) l = true -> lstrip_spaces l = l.
Proof.
  destruct l as [|c l]; [reflexivity|]. cbn [forallb lstrip_spaces].
  intros [Hc _]%andb_prop. apply negb_true_iff in Hc. by rewrite Hc.
Qed.

Lemma str_strip_id (l : list ascii) :
  forallb (fun c => negb (isspace c)) l = true -> str_strip (text l) = text l.
Proof.
  intros Hl. unfold str_strip, chars, text.
  rewrite list_ascii_of_string_of_list_ascii.
  rewrite (lstrip_spaces_id l Hl).
  rewrite lstrip_spaces_id, rev_involutive; [reflexivity|].
  rewrite forallb_forall in *. intros c Hc. apply Hl. by apply in_rev.
Qed.

(** A positive number is printed without blanks, and read back. *)
Lemma typed_number (p : positive) :
  let answer := str_of_int (Zpos p) in
  str_strip answer = answer /\ answer <> EmptyString
  /\ int_of_str answer = Ok (Zpos p).
Proof.
  intros answer. split; [|split; [|apply int_of_str_of_int]].
  - subst answer. unfold str_of_int. cbn [Z.to_int NilZero.string_of_int].
    pose proof (DecimalPos.Unsigned.to_uint_nonnil p) as Hu.
    revert Hu. generalize (Pos.to_uint p). intros u Hu.
    replace (NilZero.string_of_uint u) with (NilEmpty.string_of_uint u)
      by (destruct u; [contradiction|..]; reflexivity).
    rewrite <- (string_of_list_ascii_of_string (NilEmpty.string_of_uint u)).
    apply str_strip_id, digits_nonspace.
  - subst answer. intros H. pose proof (int_of_str_of_int (Zpos p)) as Hp.
    rewrite H in Hp. vm_compute in Hp. discriminate Hp.
Qed.

End MenuNumbers.

(** X22.  The numbered menu asks again after each answer that is
    neither blank nor the number of an option; then the number of an
    option, as printed in the menu, returns that option, a blank answer
    returns [None], and the end of the input raises [EOFError].  The
    lines after the answer are left unread. *)
Theorem read_user_selection_by_number (text : string) (options : list pyval)
    (asked : list string) (rest : list string) :
  Forall (rejected (length options)) asked ->
  forall stdout,
    (forall i v, options !! i = Some v ->
       exists stdout',
         read_user_selection text options true
           (asked ++ str_of_int (Z.of_nat i + 1) :: rest) stdout
         = (Returns v, rest, stdout'))
    /\ (forall blank, str_strip blank = EmptyString ->
          exists stdout',
            read_user_selection text options true (asked ++ blank :: rest) stdout
            = (Returns VNone, rest, stdout'))
    /\ (exists stdout',
          read_user_selection text options true asked stdout
          = (Raises EOFError, [], stdout')).
Proof.
  induction 1 as [|line asked [Hblank Hnum] _ IH]; intros stdout.
  - split; [|split].
    + intros i v Hv. cbn [app read_user_selection].
      replace (Z.of_nat i + 1) with (Zpos (Pos.of_succ_nat i)) by lia.
      destruct (typed_number (Pos.of_succ_nat i)) as (-> & Hne & ->).
      apply String.eqb_neq in Hne. rewrite Hne. cbn [obind].
      replace (existsb _ (option_idx options)) with true.
      2:{ symmetry. apply option_idx_spec.
          apply lookup_lt_Some in Hv. lia. }
      cbn [negb].
      replace (Zpos (Pos.of_succ_nat i) - 1) with (Z.of_nat i) by lia.
      rewrite (list_getitem_lookup options i v Hv). eauto.
    + intros blank Hb. cbn [app read_user_selection]. rewrite Hb. eauto.
    + rewrite read_user_selection_nil. eauto.
  - assert (Hstep : forall stdin,
              exists out,
                read_user_selection text options true (line :: stdin) stdout
                = read_user_selection text options true stdin out).
    { intros stdin. cbn [read_user_selection].
      apply String.eqb_neq in Hblank. rewrite Hblank.
      destruct (int_of_str (str_strip line)) as [k|e] eqn:Hk; cbn [obind];
        [|eauto].
      destruct (existsb (Z.eqb k) (option_idx options)) eqn:Hin; cbn [negb];
        [|eauto].
      apply option_idx_spec in Hin. destruct (Hnum k eq_refl Hin). }
    split; [|split].
    + intros i v Hv. cbn [app].
      destruct (Hstep (asked ++ str_of_int (Z.of_nat i + 1) :: rest)) as [out ->].
      apply (IH out), Hv.
    + intros blank Hb. cbn [app]. destruct (Hstep (asked ++ blank :: rest)) as [out ->].
      apply (IH out), Hb.
    + destruct (Hstep asked) as [out ->]. apply (IH out).
Qed.

(** X24.  The menu of texts ([as_number] false) asks again after each
    answer that is neither blank nor one of the options; then an answer
    that is an option, once stripped, is returned stripped, a blank
    answer returns [None], and the end of the input raises [EOFError].
    The lines after the answer are left unread. *)
Theorem read_user_selection_by_text (text : string) (options : list pyval)
    (asked : list string) (rest : list string) :
  Forall (refused options) asked ->
  forall stdout,
    (forall line, str_strip line <> EmptyString ->
       VStr (str_strip line) ∈ options ->
       exists stdout',
         read_user_selection text options false (asked ++ line :: rest) stdout
         = (Returns (VStr (str_strip line)), rest, stdout'))
    /\ (forall blank, str_strip blank = EmptyString ->
          exists stdout',
            read_user_selection text options false (asked ++ blank :: rest) stdout
            = (Returns VNone, rest, stdout'))
    /\ (exists stdout',
          read_user_selection text options false asked stdout
          = (Raises EOFError, [], stdout')).
Proof.
  induction 1 as [|line0 asked [Hblank Hout] _ IH]; intros stdout.
  - split; [|split].
    + intros line Hne Hin. cbn [app read_user_selection].
      apply String.eqb_neq in Hne. rewrite Hne.
      replace (existsb _ options) with true; [cbn [negb]; eauto|].
      symmetry. apply existsb_exists. exists (VStr (str_strip line)).
      split; [by apply list_elem_of_In | apply String.eqb_refl].
    + intros blank Hb. cbn [app read_user_selection]. rewrite Hb. eauto.
    + rewrite read_user_selection_nil. eauto.
  - assert (Hstep : forall stdin,
              exists out,
                read_user_selection text options false (line0 :: stdin) stdout
                = read_user_selection text options false stdin out).
    { intros stdin. cbn [read_user_selection].
      apply String.eqb_neq in Hblank. rewrite Hblank, Hout. cbn [negb]. eauto. }
    split; [|split].
    + intros line Hne Hin. cbn [app].
      destruct (Hstep (asked ++ line :: rest)) as [out ->].
      apply (IH out); assumption.
    + intros blank Hb. cbn [app].
      destruct (Hstep (asked ++ blank :: rest)) as [out ->].
      apply (IH out), Hb.
    + destruct (Hstep asked) as [out ->]. apply (IH out).
Qed.

(** A refused answer, then the first option between blanks. *)
Lemma read_user_selection_by_text_witness :
  exists stdout',
    read_user_selection "Pick:" [VStr "a"; VInt 7] false
      (["7"%string] ++ " a "%string :: ["rest"%string]) []
    = (Returns (VStr "a"), ["rest"%string], stdout').
Proof.
  assert (H : Forall (refused [VStr "a"; VInt 7]) ["7"%string]).
  { constructor; [|constructor]. split; [vm_compute; discriminate|].
    reflexivity. }
  apply (proj1 (read_user_selection_by_text "Pick:" [VStr "a"; VInt 7]
                  ["7"%string] ["rest"%string] H []) " a "%string).
  - vm_compute. discriminate.
  - by left.
Defined.

(** Two rejected answers, then the number of the second option. *)
Lemma read_user_selection_by_number_witness :
  exists stdout',
    read_user_selection "Pick:" [VStr "a"; VInt 7] true
      (["x"%string; "3"%string] ++ str_of_int (Z.of_nat 1 + 1) :: ["rest"%string])
      []
    = (Returns (VInt 7), ["rest"%string], stdout').
Proof.
  assert (H : Forall (rejected (length [VStr "a"; VInt 7])) ["x"; "3"]%string).
  { constructor; [|constructor; [|constructor]].
    - split; [vm_compute; discriminate|].
      intros k Hk. vm_compute in Hk. discriminate Hk.
    - split; [vm_compute; discriminate|].
      intros k Hk. vm_compute in Hk. injection Hk as <-. simpl. lia. }
  apply (proj1 (read_user_selection_by_number "Pick:" [VStr "a"; VInt 7]
                  ["x"; "3"]%string ["rest"%string] H [])).
  reflexivity.
Defined.

End MenuProperties.
